(** * Polarization Feature Template (PFT) pipeline of pft_algae.py

    A shallow embedding of [load_microalgae_data], [extract_features],
    [train_kmeans_model], [calculate_pft] and [predict_and_visualize] from
    src/demo-sources/research/pft_algae.py, and the properties of the
    loaders, the template builder, the outlier gate, the region decision and
    the contour generator.

    Numbers.  numpy's float64 values are idealised: distances, means and
    standard deviations are real numbers ([R]), proportions and coverages are
    exact rationals ([Q]); rounding and the [nan] statistics of a cluster
    without training members are not modelled.  Cluster labels are
    Python/numpy integers ([Z], the outlier sentinel is [-1]), counts are
    naturals.  Python's own failures are explicit ([outcome]).  The
    scikit-learn, scikit-image and scipy calls are modelled from their
    documented behaviour; the fitted scaler and quantizer are given by their
    [transform] and [predict] on one row. *)

From Stdlib Require Import ZArith QArith Reals Lqa Lra List Lia Permutation Sorted.
From stdpp Require Import gmap strings.
Import ListNotations.

#[local] Open Scope nat_scope.

(** ** Python exceptions *)

Inductive exn : Type :=
| ZeroDivisionError
| IndexError.

Inductive outcome (A : Type) : Type :=
| Returned (a : A)
| Raised (e : exn).
Arguments Returned {A} a.
Arguments Raised {A} e.

#[export] Instance outcome_ret : MRet outcome := fun A a => Returned a.
#[export] Instance outcome_bind : MBind outcome := fun A B f x =>
  match x with
  | Returned a => f a
  | Raised e => Raised e
  end.

(** ** Template construction: the counting part of [calculate_pft] *)

Module Template.

(** [range(clustern)] *)
Definition range (n : nat) : list Z := map Z.of_nat (seq 0 n).

(** [collections.Counter]: [update] adds one per occurrence. *)
Definition Counter_update (c : gmap Z nat) (l : list Z) : gmap Z nat :=
  foldl (fun c x => <[x := S (default 0 (c !! x))]> c) c l.

Definition Counter (l : list Z) : gmap Z nat := Counter_update ∅ l.

(** [{i: 0 for i in range(clustern)}] *)
Definition zeros (clustern : nat) : gmap Z nat :=
  foldl (fun d i => <[i := 0]> d) ∅ (range clustern).

(** Lines 232-236, one dictionary at a time:
    [if label in counter: num[label] = counter[label]]. *)
Definition fill (counter : gmap Z nat) (clustern : nat) : gmap Z nat :=
  foldl (fun d label =>
           match counter !! label with
           | Some n => <[label := n]> d
           | None => d
           end) (zeros clustern) (range clustern).

(** [num[i]] for a key the dictionary holds. *)
Definition item (d : gmap Z nat) (i : Z) : nat := default 0 (d !! i).

(** Python's true division of two ints. *)
Definition py_div (a b : nat) : outcome Q :=
  match b with
  | O => Raised ZeroDivisionError
  | S _ => Returned (Z.of_nat a # Pos.of_nat b)
  end.

(** The state of the loop of lines 242-246: the dictionary [prop_rst_num] in
    insertion order, [total_A] and [total_AB]. *)
Record props_state : Type := {
  prop_rst_num : list (Z * Q);
  total_A : nat;
  total_AB : nat
}.

Definition props_step (num_A num_B : gmap Z nat) (st : props_state) (i : Z)
  : outcome props_state :=
  p ← py_div (item num_A i) (item num_A i + item num_B i);
  Returned {| prop_rst_num := prop_rst_num st ++ [(i, p)];
              total_A := total_A st + item num_A i;
              total_AB := total_AB st + (item num_A i + item num_B i) |}.

Fixpoint props_loop (num_A num_B : gmap Z nat) (ids : list Z) (st : props_state)
  : outcome props_state :=
  match ids with
  | [] => Returned st
  | i :: rest => st' ← props_step num_A num_B st i;
                 props_loop num_A num_B rest st'
  end.

(** [int(clustern * 0.85)]: the float product truncated.  For every cluster
    count a float64 holds exactly this is the floor of 85*clustern/100. *)
Definition top_percent (clustern : nat) : nat := clustern * 85 / 100.

(** [sorted(items, key=lambda x: x[1], reverse=True)]: Python's sort is
    stable, also with [reverse=True]; items with equal keys keep their
    order. *)
Fixpoint insert_desc (x : Z * Q) (l : list (Z * Q)) : list (Z * Q) :=
  match l with
  | [] => [x]
  | y :: l' => if Qle_bool (snd y) (snd x) then x :: y :: l'
               else y :: insert_desc x l'
  end.

Definition sorted_desc (items : list (Z * Q)) : list (Z * Q) :=
  fold_right insert_desc [] items.

(** Lines 228-257 of [calculate_pft], from the two counters. *)
Definition select (counter_A counter_B : gmap Z nat) (clustern : nat)
  : outcome (list Z * list (Z * Q) * Q) :=
  let num_A := fill counter_A clustern in
  let num_B := fill counter_B clustern in
  st ← props_loop num_A num_B (range clustern)
             {| prop_rst_num := []; total_A := 0; total_AB := 0 |};
  contrast ← py_div (total_A st) (total_AB st);
  let sorted_items := sorted_desc (prop_rst_num st) in
  let pft := map fst (firstn (top_percent clustern) sorted_items) in
  Returned (pft, prop_rst_num st, contrast).

End Template.

(** ** Cluster statistics and the outlier gate *)

Module Stats.

#[local] Open Scope R_scope.

(** A normalised feature vector (one row of [xx_final]). *)
Definition vec : Type := list R.

Definition vsub (a b : vec) : vec := zip_with Rminus a b.

Definition rsum (l : list R) : R := fold_right Rplus 0 l.

Definition sum_sq (v : vec) : R := rsum (map (fun x => x * x) v).

(** [np.linalg.norm(v)], and [sqrt(sum(v**2, axis=1))] for one row. *)
Definition norm (v : vec) : R := sqrt (sum_sq v).

(** [a.mean()] and [a.std()] of a one-dimensional array (numpy's [std] is the
    population standard deviation). *)
Definition mean (l : list R) : R := rsum l / INR (length l).

Definition std (l : list R) : R :=
  sqrt (mean (map (fun x => (x - mean l) * (x - mean l)) l)).

Definition column (j : nat) (rows : list vec) : list R :=
  map (fun v => nth j v 0) rows.

(** [rows.mean(axis=0)] and [rows.std(axis=0)] of a [d]-column array. *)
Definition mean_axis0 (d : nat) (rows : list vec) : vec :=
  map (fun j => mean (column j rows)) (seq 0 d).

Definition std_axis0 (d : nat) (rows : list vec) : vec :=
  map (fun j => std (column j rows)) (seq 0 d).

(** The fitted [MiniBatchKMeans]: the training labels and the nearest-centroid
    prediction.  The fitted [StandardScaler]: its [transform] on one row. *)
Record KMeans : Type := {
  labels_ : list Z;
  predict : vec -> Z
}.

Record Scaler : Type := {
  transform : vec -> vec
}.

(** [xx_final[minikm.labels_ == i]] *)
Definition members (xx_final : list vec) (labels : list Z) (i : Z) : list vec :=
  map fst (List.filter (fun xl => Z.eqb (snd xl) i) (zip xx_final labels)).

(** Indexing a per-cluster array with a cluster label. *)
Definition at_cluster {A : Type} (l : list A) (k : Z) (d : A) : A :=
  nth (Z.to_nat k) l d.

(** Lines 161-172 of [train_kmeans_model]. *)
Definition groups_mean (d : nat) (xx_final : list vec) (minikm : KMeans)
    (n_clusters : nat) : list vec :=
  map (fun i => mean_axis0 d (members xx_final (labels_ minikm) i))
      (Template.range n_clusters).

Definition groups_std (d : nat) (xx_final : list vec) (minikm : KMeans)
    (n_clusters : nat) : list vec :=
  map (fun i => std_axis0 d (members xx_final (labels_ minikm) i))
      (Template.range n_clusters).

Definition triple_std (groups_std : list vec) : list R :=
  map (fun s => sqrt 3 * sqrt (sum_sq s)) groups_std.

(** The Euclidean distance of a normalised row to the mean of cluster [k]. *)
Definition distance (gm : list vec) (x : vec) (k : Z) : R :=
  norm (vsub x (at_cluster gm k [])).

(** Lines 212-220 of [calculate_pft] for one NonTarget pixel:
    [if distance > triple_std[cluster_label]: label = -1]. *)
Definition label_fit (minikm : KMeans) (ss : Scaler) (gm : list vec)
    (ts : list R) (x : vec) : Z :=
  let x' := transform ss x in
  let cluster_label := predict minikm x' in
  if Rgt_dec (distance gm x' cluster_label) (at_cluster ts cluster_label 0)
  then (-1)%Z else cluster_label.

(** Lines 290-299 of [predict_and_visualize] for one pixel: for the cluster
    [a] in [range(clustern)] the pixel was predicted into,
    [np.where(distance >= triple_std[a], -1, a)]. *)
Definition final_label (minikm : KMeans) (ss : Scaler) (gm : list vec)
    (ts : list R) (clustern : nat) (x : vec) : Z :=
  let x' := transform ss x in
  let a := predict minikm x' in
  if ((0 <=? a)%Z && (a <? Z.of_nat clustern)%Z)%bool then
    if Rge_dec (distance gm x' a) (at_cluster ts a 0) then (-1)%Z else a
  else a.

End Stats.

(** ** [calculate_pft] *)

(** [file_paths_B] is the list of the NonTarget files, each the rows
    [data2['pbps'][mask2]] of its foreground pixels; the Target counts are
    those of [minikm.labels_].  The reads [groups_mean[cluster_label]] and
    [triple_std[cluster_label]] of lines 218-219 are those of
    [Stats.label_fit], where a label that is no index reads a default value:
    the [IndexError] numpy raises there is not part of this definition, and
    the statements on when the function returns assume that every predicted
    label is an index of both arrays. *)
Definition calculate_pft (file_paths_B : list (list Stats.vec))
    (minikm : Stats.KMeans) (ss : Stats.Scaler) (groups_mean : list Stats.vec)
    (triple_std : list R) (clustern : nat)
  : outcome (list Z * list (Z * Q) * Q) :=
  let counter_A := Template.Counter (Stats.labels_ minikm) in
  let counter_B :=
    foldl (fun c file =>
             Template.Counter_update c
               (map (Stats.label_fit minikm ss groups_mean triple_std) file))
          ∅ file_paths_B in
  Template.select counter_A counter_B clustern.

(** ** The ranking the template is specified by *)

Module TemplateSpec.
Import Template.
(** The proportion of Target pixels among the counted pixels of cluster [i]. *)
Definition proportion (num_A num_B : gmap Z nat) (i : Z) : Q :=
  Z.of_nat (item num_A i) # Pos.of_nat (item num_A i + item num_B i).

(** [x] ranks before [y]: a larger proportion first, the smaller cluster id
    first among equal proportions. *)
Definition ranks_before (x y : Z * Q) : Prop :=
  (snd y < snd x)%Q \/ ((snd x == snd y)%Q /\ (fst x < fst y)%Z).
End TemplateSpec.


(** ** The counts the template is built from *)

Section Counts.
Context (file_paths_B : list (list Stats.vec)) (minikm : Stats.KMeans)
        (ss : Stats.Scaler) (groups_mean : list Stats.vec) (triple_std : list R).

(** The labels of all NonTarget pixels, outliers marked [-1]. *)
Definition labels_B : list Z :=
  concat (map (map (Stats.label_fit minikm ss groups_mean triple_std)) file_paths_B).

(** [countT k]: the Target pixels counted for cluster [k]; [countN k]: the
    NonTarget pixels counted for it. *)
Definition countT (k : Z) : nat := count_occ Z.eq_dec (Stats.labels_ minikm) k.
Definition countN (k : Z) : nat := count_occ Z.eq_dec labels_B k.
End Counts.

(** [ceil(K * 0.85)], the size the specification gives the Template. *)
Definition retention_ceil (clustern : nat) : nat := (clustern * 85 + 99) / 100.

(** ** Images: boolean masks, connected components, morphology *)

Module Image.

#[local] Open Scope Z_scope.

(** A two-dimensional numpy array as the list of its rows. *)
Definition grid (A : Type) : Type := list (list A).
Definition mask : Type := grid bool.

Definition shape {A : Type} (g : grid A) : nat * nat :=
  (length g, length (hd [] g)).

(** Reading a cell; [d] stands for what lies outside the array. *)
Definition get {A : Type} (d : A) (g : grid A) (r c : Z) : A :=
  if ((r <? 0) || (c <? 0))%bool then d
  else nth (Z.to_nat c) (nth (Z.to_nat r) g []) d.

Definition tabulate {A : Type} (H W : nat) (f : Z -> Z -> A) : grid A :=
  map (fun r => map (fun c => f (Z.of_nat r) (Z.of_nat c)) (seq 0 W)) (seq 0 H).

(** The cells of an [H] x [W] array. *)
Definition inside (H W : nat) (r c : Z) : bool :=
  ((0 <=? r) && (r <? Z.of_nat H) && (0 <=? c) && (c <? Z.of_nat W))%bool.

(** Masks read [False] outside (scipy's [border_value=0]). *)
Definition on (m : mask) (r c : Z) : bool := get false m r c.

Definition pointwise (f : Z -> Z -> bool) (m : mask) : mask :=
  tabulate (fst (shape m)) (snd (shape m)) f.

(** [~a], [a & b], [a | b], [np.zeros_like(a)] *)
Definition lnot (a : mask) : mask := pointwise (fun r c => negb (on a r c)) a.
Definition land (a b : mask) : mask :=
  pointwise (fun r c => on a r c && on b r c)%bool a.
Definition lor (a b : mask) : mask :=
  pointwise (fun r c => on a r c || on b r c)%bool a.
Definition zeros_like (a : mask) : mask := pointwise (fun _ _ => false) a.

(** [np.sum] of a boolean array. *)
Definition row_count (row : list bool) : nat :=
  length (List.filter (fun b => b) row).

Definition count (m : mask) : nat :=
  fold_right (fun row n => (row_count row + n)%nat) 0%nat m.

(** [a] is contained in [b]. *)
Definition subset (a b : mask) : Prop :=
  forall r c, on a r c = true -> on b r c = true.

(** [m] is an array in full: every row as long as the first. *)
Definition canonical (m : mask) : Prop := m = pointwise (on m) m.

(** The neighbours of a pixel: [connectivity] 1 is the cross (4 neighbours),
    2 the full square (8 neighbours). *)
Definition neighbours (connectivity : nat) : list (Z * Z) :=
  match connectivity with
  | 1%nat => [(-1, 0); (0, -1); (0, 1); (1, 0)]
  | _ => [(-1, -1); (-1, 0); (-1, 1); (0, -1); (0, 1); (1, -1); (1, 0); (1, 1)]
  end.

(** One step of flood fill inside [m]: the pixels of [m] that are in [s] or
    next to a pixel of [s]. *)
Definition grow (conn : nat) (m s : mask) : mask :=
  pointwise (fun r c =>
    if on m r c
    then (on s r c ||
          existsb (fun d => on s (r + fst d) (c + snd d)) (neighbours conn))%bool
    else false) m.

Definition seed (m : mask) (r0 c0 : Z) : mask :=
  pointwise (fun r c => ((r =? r0) && (c =? c0))%bool && on m r c)%bool m.

(** [n] steps of flood fill from pixel [(r0, c0)]. *)
Definition flood (conn : nat) (m : mask) (r0 c0 : Z) (n : nat) : mask :=
  Nat.iter n (grow conn m) (seed m r0 c0).

(** The connected component of [m] that holds pixel [(r0, c0)]: the flood fill
    from it, run for as many steps as the array has cells. *)
Definition component (conn : nat) (m : mask) (r0 c0 : Z) : mask :=
  flood conn m r0 c0 (fst (shape m) * snd (shape m)).

(** [skimage.morphology.remove_small_objects(ar, min_size)] on a boolean
    array: label the components with connectivity 1, clear those with fewer
    than [min_size] pixels. *)
Definition remove_small_objects (ar : mask) (min_size : nat) : mask :=
  pointwise (fun r c =>
    if on ar r c then negb (count (component 1 ar r c) <? min_size)%nat
    else false) ar.

(** [skimage.morphology.remove_small_holes(ar, area_threshold)]: remove the
    small objects of the inverse, invert again. *)
Definition remove_small_holes (ar : mask) (area_threshold : nat) : mask :=
  lnot (remove_small_objects (lnot ar) area_threshold).

(** [np.isin(labels, pft)] *)
Definition isin (labels : grid Z) (pft : list Z) : mask :=
  tabulate (fst (shape labels)) (snd (shape labels))
    (fun r c => existsb (Z.eqb (get (-1) labels r c)) pft).

(** Lines 306-308. *)
Definition clean (m : mask) : mask :=
  remove_small_holes (remove_small_objects m 50) 500.

Definition highlight_mask (labels : grid Z) (pft : list Z) : mask :=
  clean (isin labels pft).

(** The cells of an [H] x [W] array in raster order. *)
Definition cells (H W : nat) : list (Z * Z) :=
  flat_map (fun r => map (fun c => (Z.of_nat r, Z.of_nat c)) (seq 0 W)) (seq 0 H).

Definition first_pixel (m : mask) : option (Z * Z) :=
  List.find (fun p => on m (fst p) (snd p)) (cells (fst (shape m)) (snd (shape m))).

Definition is_first (m : mask) (p : Z * Z) : bool :=
  match first_pixel m with
  | Some q => ((fst q =? fst p) && (snd q =? snd p))%bool
  | None => false
  end.

(** [measure.regionprops(measure.label(m))]: the connected components of [m]
    (full connectivity, the default of [measure.label] in two dimensions), in
    the order of their first pixel; [region.area] is [count] of the
    component and [labeled_regions == region.label] the component itself. *)
Definition regions (m : mask) : list mask :=
  flat_map (fun p =>
    if on m (fst p) (snd p) then
      let comp := component 2 m (fst p) (snd p) in
      if is_first comp p then [comp] else []
    else []) (cells (fst (shape m)) (snd (shape m))).

(** Line 319:
    [region.area > 0 and (highlight_in_region / region.area) >= 0.3]. *)
Definition positive (highlight_in_region area : nat) : bool :=
  if (0 <? area)%nat
  then Qle_bool (3 # 10) (Z.of_nat highlight_in_region # Pos.of_nat area)
  else false.

Definition decide_region (highlight region_mask : mask) : bool :=
  positive (count (land highlight region_mask)) (count region_mask).

(** Lines 315-320. *)
Definition final_decision_mask (highlight target_region_mask : mask) : mask :=
  fold_left (fun acc region_mask =>
               if decide_region highlight region_mask
               then lor acc region_mask else acc)
            (regions target_region_mask) (zeros_like highlight).

(** [scipy.ndimage.generate_binary_structure(2, connectivity)] *)
Definition generate_binary_structure (connectivity : nat) : mask :=
  tabulate 3 3 (fun i j => Z.abs (i - 1) + Z.abs (j - 1) <=? Z.of_nat connectivity).

(** [np.pad(a, pad_width=w, mode='constant', constant_values=v)] *)
Definition pad (a : mask) (w : nat) (v : bool) : mask :=
  tabulate (fst (shape a) + 2 * w) (snd (shape a) + 2 * w)
    (fun i j =>
       let i' := i - Z.of_nat w in
       let j' := j - Z.of_nat w in
       if ((0 <=? i') && (i' <? Z.of_nat (fst (shape a))) &&
           (0 <=? j') && (j' <? Z.of_nat (snd (shape a))))%bool
       then on a i' j' else v).

(** [np.ones((h, w))] as a structuring element. *)
Definition ones (h w : nat) : mask := tabulate h w (fun _ _ => true).

(** The offsets, from its centre, of the cells of a structuring element. *)
Definition offsets (structure : mask) : list (Z * Z) :=
  let ci := Z.of_nat (fst (shape structure) / 2) in
  let cj := Z.of_nat (snd (shape structure) / 2) in
  map (fun p => (fst p - ci, snd p - cj))
      (List.filter (fun p => on structure (fst p) (snd p))
         (cells (fst (shape structure)) (snd (shape structure)))).

(** [scipy.ndimage.binary_erosion], [binary_dilation] and [binary_closing]
    with the default [border_value=0], one iteration. *)
Definition binary_erosion (input structure : mask) : mask :=
  pointwise (fun r c =>
    forallb (fun d => on input (r + fst d) (c + snd d)) (offsets structure)) input.

Definition binary_dilation (input structure : mask) : mask :=
  pointwise (fun r c =>
    existsb (fun d => on input (r - fst d) (c - snd d)) (offsets structure)) input.

Definition binary_closing (input structure : mask) : mask :=
  binary_erosion (binary_dilation input structure) structure.

Definition merge_structure_size : nat := 4.
Definition contour_thickness : nat := 4.

(** One round of lines 339-342, on [(base_eroded, thick_contour)]. *)
Definition contour_step (st : mask * mask) : mask * mask :=
  let eroded := binary_erosion (fst st) (ones 3 3) in
  let layer_contour := land (fst st) (lnot eroded) in
  (eroded, lor (snd st) layer_contour).

(** Lines 327-345. *)
Definition contour (result_plot : mask) : mask :=
  if (0 <? count result_plot)%nat then
    let merge_structure :=
      pad (generate_binary_structure 2) (merge_structure_size / 2) true in
    let large_regions := binary_closing result_plot merge_structure in
    snd (Nat.iter contour_thickness contour_step
           (large_regions, zeros_like large_regions))
  else result_plot.

(** The array with every cell set. *)
Definition full (H W : nat) : mask := tabulate H W (fun _ _ => true).

(** *** Solid squares *)

(** The [H] x [W] mask of the rows [r1 <= r < r2] and columns
    [c1 <= c < c2]. *)
Definition box (H W : nat) (r1 r2 c1 c2 : Z) : mask :=
  tabulate H W (fun r c => ((r1 <=? r) && (r <? r2) && (c1 <=? c) && (c <? c2))%bool).

(** The solid square of side [s] with top left pixel [(r0, c0)]. *)
Definition square (H W : nat) (r0 c0 s : Z) : mask :=
  box H W r0 (r0 + s) c0 (c0 + s).

(** The depth of a pixel of that square: 1 on its boundary, one more with
    each step inward. *)
Definition depth (r0 c0 s r c : Z) : Z :=
  1 + Z.min (Z.min (r - r0) (r0 + s - 1 - r)) (Z.min (c - c0) (c0 + s - 1 - c)).

End Image.

(** ** [predict_and_visualize] *)

(** One test sample: the rows of [pbps.mat] as an [H] x [W] grid of feature
    vectors, and the array of [mask.mat]. *)
Record sample : Type := {
  data_test : Image.grid Stats.vec;
  mask_mat : Image.grid Z
}.

(** What one round of the loop computes before plotting. *)
Record detection : Type := {
  decisions : list (Image.mask * bool);
  result_plot : Image.mask;
  contour_mask : Image.mask
}.

Definition shape_eqb (a b : nat * nat) : bool :=
  (fst a =? fst b)%nat && (snd a =? snd b)%nat.

(** Lines 295-298 read [groups_mean[a]] and [triple_std[a]] for every [a] of
    [range(clustern)], whatever the pixels are: both arrays need [clustern]
    entries. *)
Definition statistics_cover (groups_mean : list Stats.vec) (triple_std : list R)
    (clustern : nat) : bool :=
  (clustern <=? length groups_mean)%nat && (clustern <=? length triple_std)%nat.

(** Lines 286-345 for one test path.  [IndexError] is raised by the loop of
    lines 295-299 when the statistics have fewer than [clustern] entries, and
    by boolean indexing with a mask of another shape (line 303). *)
Definition detect (minikm : Stats.KMeans) (ss : Stats.Scaler)
    (groups_mean : list Stats.vec) (triple_std : list R) (pft : list Z)
    (clustern : nat) (ft : sample) : outcome detection :=
  let H := fst (Image.shape (data_test ft)) in
  let W := snd (Image.shape (data_test ft)) in
  let region_0_mask_test : Image.mask :=
    Image.tabulate (fst (Image.shape (mask_mat ft))) (snd (Image.shape (mask_mat ft)))
      (fun r c => Z.eqb (Image.get 0%Z (mask_mat ft) r c) 0) in
  let final_labels : Image.grid Z :=
    map (map (Stats.final_label minikm ss groups_mean triple_std clustern))
        (data_test ft) in
  if negb (statistics_cover groups_mean triple_std clustern)
  then Raised IndexError
  else if negb (shape_eqb (Image.shape region_0_mask_test) (H, W))
  then Raised IndexError
  else
    let pred_rst_temp_copy : Image.grid Z :=
      Image.tabulate H W (fun r c =>
        if Image.on region_0_mask_test r c then (-1)%Z
        else Image.get (-1)%Z final_labels r c) in
    let highlight_mask := Image.highlight_mask pred_rst_temp_copy pft in
    let target_region_mask := Image.lnot region_0_mask_test in
    let regions := Image.regions target_region_mask in
    let final_decision_mask :=
      Image.final_decision_mask highlight_mask target_region_mask in
    Returned {|
      decisions :=
        map (fun region_mask =>
               (region_mask, Image.decide_region highlight_mask region_mask))
            regions;
      result_plot := final_decision_mask;
      contour_mask := Image.contour final_decision_mask
    |}.

(** The loop over [test_paths]: an exception ends it. *)
Definition predict_and_visualize (test_paths : list sample)
    (minikm : Stats.KMeans) (ss : Stats.Scaler) (groups_mean : list Stats.vec)
    (triple_std : list R) (pft : list Z) (clustern : nat)
  : outcome (list detection) :=
  foldl (fun acc ft =>
           ds ← acc;
           d ← detect minikm ss groups_mean triple_std pft clustern ft;
           Returned (ds ++ [d]))
        (Returned []) test_paths.

(** *** The arrays of [detect], by name *)

(** [region_0_mask_test], the foreground mask [region_0_mask_test == 0] and
    [pred_rst_temp_copy] of one test sample. *)
Definition background_mask (ft : sample) : Image.mask :=
  Image.tabulate (fst (Image.shape (mask_mat ft))) (snd (Image.shape (mask_mat ft)))
    (fun r c => Z.eqb (Image.get 0%Z (mask_mat ft) r c) 0).

Definition foreground_mask (ft : sample) : Image.mask :=
  Image.lnot (background_mask ft).

Definition pixel_labels (minikm : Stats.KMeans) (ss : Stats.Scaler)
    (groups_mean : list Stats.vec) (triple_std : list R) (clustern : nat)
    (ft : sample) : Image.grid Z :=
  Image.tabulate (fst (Image.shape (data_test ft))) (snd (Image.shape (data_test ft)))
    (fun r c =>
       if Image.on (background_mask ft) r c then (-1)%Z
       else Image.get (-1)%Z
              (map (map (Stats.final_label minikm ss groups_mean triple_std clustern))
                   (data_test ft)) r c).

(** ** Loading: [load_microalgae_data] and [extract_features] *)

Module Loader.

(** The exceptions of the two loading functions; [Earlier] holds those of
    the functions above.  Reading a directory or a file is taken to succeed. *)
Inductive load_exn : Type :=
| ValueError
| UnboundLocalError
| KeyError
| Earlier (e : exn).

Inductive loaded (A : Type) : Type :=
| Loaded (a : A)
| Failed (e : load_exn).
Arguments Loaded {A} a.
Arguments Failed {A} e.

#[export] Instance loaded_ret : MRet loaded := fun A a => Loaded a.
#[export] Instance loaded_bind : MBind loaded := fun A B f x =>
  match x with
  | Loaded a => f a
  | Failed e => Failed e
  end.

(** Python's [l[start:stop]] on integers: a negative index counts from the
    end, and both are clipped to the list.  [l[:stop]] is [slice l 0 stop]. *)
Definition slice_index (len : nat) (i : Z) : nat :=
  Z.to_nat (if (i <? 0)%Z then Z.max 0 (i + Z.of_nat len) else Z.min i (Z.of_nat len)).

Definition slice {A : Type} (l : list A) (start stop : Z) : list A :=
  take (slice_index (length l) stop - slice_index (length l) start)
       (drop (slice_index (length l) start) l).

(** *** [load_microalgae_data] *)

Section Directory.

(** [os.listdir], and the sort key [int(x.split('/')[-1])] of line 74 on one
    name: [None] is the [ValueError] of [int]. *)
Variable listdir : string -> list string.
Variable sort_key : string -> option Z.

Fixpoint insert_key (x : Z * string) (l : list (Z * string)) : list (Z * string) :=
  match l with
  | [] => [x]
  | y :: l' => if (fst x <? fst y)%Z then x :: y :: l' else y :: insert_key x l'
  end.

(** [fl1.sort(key=...)]: every key is computed first, then the names are
    sorted by key, ascending, names of one key in their order. *)
Definition sort (fl1 : list string) : loaded (list string) :=
  keys ← mapM (fun x => match sort_key x with
                        | Some k => Loaded (k, x)
                        | None => Failed ValueError
                        end) fl1;
  Loaded (map snd (foldl (fun acc x => insert_key x acc) [] keys)).

(** Lines 70-77: the list [fl_]. *)
Definition listing (infile_paths : list string) : loaded (list string) :=
  foldl (fun acc file1 =>
           fl_ ← acc;
           fl1 ← sort (listdir file1);
           Loaded (fl_ ++ map (fun file => file1 +:+ "/" +:+ file) fl1))
        (Loaded []) infile_paths.

(** Lines 70-85. *)
Definition load_microalgae_data (infile_paths : list string) (samples_per_class : Z)
  : loaded (list string) :=
  fl_ ← listing infile_paths;
  Loaded (slice fl_ 0 samples_per_class ++ slice fl_ 31 (31 + samples_per_class)).

End Directory.

(** *** [extract_features] *)

(** What [loadmat] reads under one path: the arrays of [pbps.mat] and
    [mask.mat], and the size of the last axis of [pbps]. *)
Record mat_files : Type := {
  arrays : sample;
  channels : nat
}.

(** A two-dimensional array of features: its rows and the length of a row. *)
Record features : Type := {
  rows : list Stats.vec;
  width : nat
}.

(** The pixels whose mask value is 1, row by row. *)
Definition selected (f : mat_files) : list Stats.vec :=
  map (fun p => Image.get [] (data_test (arrays f)) (fst p) (snd p))
      (List.filter (fun p => Z.eqb (Image.get 0%Z (mask_mat (arrays f)) (fst p) (snd p)) 1)
              (Image.cells (fst (Image.shape (data_test (arrays f))))
                           (snd (Image.shape (data_test (arrays f)))))).

(** The mask has the shape of the image. *)
Definition mask_fits (f : mat_files) : bool :=
  shape_eqb (Image.shape (mask_mat (arrays f)))
            (fst (Image.shape (data_test (arrays f))),
             snd (Image.shape (data_test (arrays f)))).

(** [data['pbps'][mask['mask'] == 1]] of line 109; [IndexError] when the mask
    has another shape than the image. *)
Definition boolean_index (f : mat_files) : loaded features :=
  if negb (mask_fits f) then Failed (Earlier IndexError)
  else Loaded {| rows := selected f; width := channels f |}.

(** [numpy.concatenate] of two arrays along the first axis. *)
Definition concatenate (a b : features) : loaded features :=
  if (width a =? width b)%nat
  then Loaded {| rows := rows a ++ rows b; width := width a |}
  else Failed ValueError.

(** The locals of [extract_features]; [data] and [mask] are unbound until
    the loop has run once. *)
Record extract_state : Type := {
  num : nat;
  xx : gmap nat (nat * features);
  mask_all : gmap nat (Image.grid Z);
  data : option (Image.grid Stats.vec);
  mask : option (Image.grid Z)
}.

(** Lines 106-111. *)
Definition extract_step (st : extract_state) (file_path : mat_files)
  : loaded extract_state :=
  selected ← boolean_index file_path;
  Loaded {| num := num st + 1;
            xx := <[num st := (num st, selected)]> (xx st);
            mask_all := <[num st := mask_mat (arrays file_path)]> (mask_all st);
            data := Some (data_test (arrays file_path));
            mask := Some (mask_mat (arrays file_path)) |}.

(** [del x] of a local. *)
Definition del {A : Type} (x : option A) : loaded unit :=
  match x with
  | Some _ => Loaded tt
  | None => Failed UnboundLocalError
  end.

(** Lines 101-130. *)
Definition extract_features (file_paths : list mat_files) (num_samples : Z)
  : loaded (features * gmap nat (Image.grid Z)) :=
  st ← foldl (fun acc file_path => st ← acc; extract_step st file_path)
             (Loaded {| num := 0; xx := ∅; mask_all := ∅; data := None; mask := None |})
             (slice file_paths 0 num_samples);
  _ ← del (data st);
  _ ← del (mask st);
  xx_pbp ← mapM (fun i => match xx st !! i with
                          | Some v => Loaded (snd v)
                          | None => Failed KeyError
                          end) (seq 0 (num st));
  temp ← match xx_pbp !! 0 with
         | Some a => Loaded a
         | None => Failed (Earlier IndexError)
         end;
  temp ← foldl (fun acc i =>
                  temp ← acc;
                  next ← match xx_pbp !! (i + 1) with
                         | Some a => Loaded a
                         | None => Failed (Earlier IndexError)
                         end;
                  concatenate temp next)
               (Loaded temp) (seq 0 (num st - 1));
  Loaded (temp, mask_all st).

End Loader.

(** ** Inputs of the examples *)

Module Examples.

#[local] Open Scope R_scope.

(** Fitted models over one-dimensional, already normalised rows: every row
    is predicted into cluster 0. *)
Definition km_const (labels : list Z) : Stats.KMeans :=
  {| Stats.labels_ := labels; Stats.predict := fun _ => 0%Z |}.
Definition ss_id : Stats.Scaler := {| Stats.transform := fun v => v |}.

(** Five normalised training rows of one cluster: mean 0, standard
    deviation 1. *)
Definition xx_train : list Stats.vec := [[-1/2]; [-1/2]; [-1/2]; [-1/2]; [2]].
Definition km_train : Stats.KMeans := km_const [0; 0; 0; 0; 0]%Z.

(** Three clusters on the line, with means 0, 1 and 2; the two Target
    training pixels are in cluster 0, the NonTarget file has one pixel at the
    mean of cluster 1 and one at the mean of cluster 2. *)
Definition km_three : Stats.KMeans :=
  {| Stats.labels_ := [0; 0]%Z;
     Stats.predict := fun v =>
       match v with
       | [x] => if Rlt_dec x (1/2) then 0%Z
                else if Rlt_dec x (3/2) then 1%Z else 2%Z
       | _ => 0%Z
       end |}.
Definition means_three : list Stats.vec := [[0]; [1]; [2]].
Definition thresholds_three : list R := [1; 1; 1].
Definition file_B : list Stats.vec := [[1]; [2]].

(** A 23 x 23 sample whose foreground is the single pixel (10, 10), labelled
    with cluster 0. *)
Definition target23 : Image.mask :=
  Image.tabulate 23 23 (fun r c => (r =? 10)%Z && (c =? 10)%Z).
Definition labels23 : Image.grid Z :=
  Image.tabulate 23 23
    (fun r c => if ((r =? 10)%Z && (c =? 10)%Z)%bool then 0%Z else (-1)%Z).

(** A 2 x 2 sample of one-channel pixels, all background. *)
Definition ft_background : sample :=
  {| data_test := [[[0]; [0]]; [[0]; [0]]];
     mask_mat := Image.tabulate 2 2 (fun _ _ => 0%Z) |}.

(** The statistics of one cluster with mean 0 and threshold 1. *)
Definition means_one : list Stats.vec := [[0]].
Definition thresholds_one : list R := [1].

(** A 1 x 1 sample whose only pixel is foreground. *)
Definition ft_one_pixel : sample :=
  {| data_test := [[[0]]]; mask_mat := [[1%Z]] |}.

(** Two directories: [A] with the 31 names 0 ... 30, [B] with 11, 10 and 9;
    a third, [C], holds a name that is no number. *)
Definition listdir_AB (d : string) : list string :=
  if String.eqb d "A" then ["0"; "1"; "2"; "3"; "4"; "5"; "6"; "7"; "8"; "9"; "10"; "11"; "12"; "13"; "14"; "15"; "16"; "17"; "18"; "19"; "20"; "21"; "22"; "23"; "24"; "25"; "26"; "27"; "28"; "29"; "30"]
  else if String.eqb d "B" then ["11"; "10"; "9"]
  else if String.eqb d "C" then ["1"; "x"]
  else [].

(** [int] on the strings of decimal digits. *)
Fixpoint digits (s : string) (acc : Z) : option Z :=
  match s with
  | EmptyString => Some acc
  | String a s' =>
      let n := Z.of_nat (Ascii.nat_of_ascii a) in
      if ((48 <=? n) && (n <=? 57))%Z then digits s' (10 * acc + (n - 48))%Z
      else None
  end.

Definition int_digits (s : string) : option Z :=
  match s with
  | EmptyString => None
  | _ => digits s 0%Z
  end.

(** Two files of one pixel each, with one and with two channels, and a file
    whose mask has another shape than its image. *)
Definition file_one : Loader.mat_files :=
  {| Loader.arrays := ft_one_pixel; Loader.channels := 1 |}.
Definition file_two : Loader.mat_files :=
  {| Loader.arrays := {| data_test := [[[0; 0]]]; mask_mat := [[1%Z]] |};
     Loader.channels := 2 |}.
Definition file_bad_mask : Loader.mat_files :=
  {| Loader.arrays := {| data_test := [[[0]]]; mask_mat := [[1%Z; 1%Z]] |};
     Loader.channels := 1 |}.

End Examples.

(** * Facts about the template builder *)

Module TemplateFacts.
Import Template TemplateSpec.

Lemma item_insert (d : gmap Z nat) (i j : Z) (n : nat) :
  item (<[i := n]> d) j = if decide (i = j) then n else item d j.
Proof.
  unfold item. rewrite lookup_insert. by case_decide.
Qed.

Lemma item_Counter_update (l : list Z) (c : gmap Z nat) (x : Z) :
  item (Counter_update c l) x = item c x + count_occ Z.eq_dec l x.
Proof.
  revert c. induction l as [|a l IH]; intros c; simpl.
  - lia.
  - unfold Counter_update in *. simpl. rewrite IH, item_insert.
    fold (item c a). destruct (Z.eq_dec a x), (decide (a = x)); subst; try done; lia.
Qed.

Lemma item_Counter (l : list Z) (x : Z) :
  item (Counter l) x = count_occ Z.eq_dec l x.
Proof. unfold Counter. rewrite item_Counter_update. unfold item. by rewrite lookup_empty. Qed.

Lemma elem_of_range (n : nat) (i : Z) :
  i ∈ range n <-> (0 <= i < Z.of_nat n)%Z.
Proof.
  rewrite list_elem_of_In. unfold range. rewrite in_map_iff. split.
  - intros (k & <- & Hk%in_seq). lia.
  - intros Hi. exists (Z.to_nat i). split; [lia|]. apply in_seq. lia.
Qed.

(** A dictionary filled key by key holds, at each of these keys, the count. *)
Lemma lookup_fill_loop (counter : gmap Z nat) (ids : list Z) (d : gmap Z nat) (i : Z) :
  foldl (fun d label =>
           match counter !! label with
           | Some n => <[label := n]> d
           | None => d
           end) d ids !! i
  = if decide (i ∈ ids) then
      match counter !! i with Some n => Some n | None => d !! i end
    else d !! i.
Proof.
  revert d. induction ids as [|a ids IH]; intros d; cbn [foldl].
  - rewrite decide_False; [done|]. by intros ?%elem_of_nil.
  - rewrite IH. destruct (decide (i ∈ ids)) as [Hin|Hin].
    + rewrite decide_True by (by right). destruct (counter !! i) eqn:Hi; [done|].
      destruct (counter !! a) eqn:Ha; [|done].
      rewrite lookup_insert_ne; [done|congruence].
    + destruct (decide (a = i)) as [->|Hne].
      * rewrite decide_True by (by left). destruct (counter !! i); [|done].
        by rewrite lookup_insert_eq.
      * rewrite decide_False by (by intros [?|?]%elem_of_cons).
        destruct (counter !! a); [|done]. by rewrite lookup_insert_ne.
Qed.

Lemma lookup_zeros_loop (ids : list Z) (d : gmap Z nat) (i : Z) :
  foldl (fun d i => <[i := 0]> d) d ids !! i
  = if decide (i ∈ ids) then Some 0 else d !! i.
Proof.
  revert d. induction ids as [|a ids IH]; intros d; cbn [foldl].
  - rewrite decide_False; [done|]. by intros ?%elem_of_nil.
  - rewrite IH. destruct (decide (i ∈ ids)) as [Hin|Hin].
    + by rewrite decide_True by (by right).
    + destruct (decide (a = i)) as [->|Hne].
      * rewrite decide_True by (by left). by rewrite lookup_insert_eq.
      * rewrite decide_False by (by intros [?|?]%elem_of_cons). by rewrite lookup_insert_ne.
Qed.

Lemma lookup_fill (counter : gmap Z nat) (clustern : nat) (i : Z) :
  fill counter clustern !! i
  = if decide (i ∈ range clustern) then Some (item counter i) else None.
Proof.
  unfold item, fill. rewrite lookup_fill_loop. unfold zeros.
  rewrite lookup_zeros_loop. rewrite lookup_empty.
  destruct (decide (i ∈ range clustern)); [|done].
  by destruct (counter !! i).
Qed.

(** The filled dictionary depends on the counter through the counts of the
    cluster ids in range only. *)
Lemma fill_ext (c1 c2 : gmap Z nat) (clustern : nat) :
  (forall k, k ∈ range clustern -> item c1 k = item c2 k) ->
  fill c1 clustern = fill c2 clustern.
Proof.
  intros Heq. apply map_eq. intros i. rewrite !lookup_fill.
  case_decide; [|done]. by rewrite Heq.
Qed.

(** [num[i]] is the counter's count for a cluster id in range, and zero both
    for a missing key and for an id the counter never saw. *)
Lemma item_fill (counter : gmap Z nat) (clustern : nat) (i : Z) :
  item (fill counter clustern) i
  = if decide (i ∈ range clustern) then item counter i else 0.
Proof.
  unfold item, fill. rewrite lookup_fill_loop. unfold zeros.
  rewrite lookup_zeros_loop. rewrite lookup_empty.
  destruct (decide (i ∈ range clustern)); [|done].
  by destruct (counter !! i).
Qed.


Lemma py_div_returned (a b : nat) (q : Q) :
  py_div a b = Returned q -> 0 < b /\ q = (Z.of_nat a # Pos.of_nat b).
Proof. destruct b; simpl; [done|]. intros [= <-]. split; [lia|done]. Qed.

Lemma py_div_zero (a : nat) : py_div a 0 = Raised ZeroDivisionError.
Proof. done. Qed.

Lemma py_div_pos (a b : nat) :
  0 < b -> py_div a b = Returned (Z.of_nat a # Pos.of_nat b).
Proof. destruct b; [lia|done]. Qed.

Lemma props_loop_returned (num_A num_B : gmap Z nat) (ids : list Z) (st st' : props_state) :
  props_loop num_A num_B ids st = Returned st' ->
  prop_rst_num st' = prop_rst_num st ++ map (fun i => (i, proportion num_A num_B i)) ids
  /\ Forall (fun i => 0 < item num_A i + item num_B i) ids
  /\ total_AB st <= total_AB st'
  /\ (ids <> [] -> 0 < total_AB st').
Proof.
  revert st. induction ids as [|i ids IH]; intros st; simpl.
  - intros [= <-]. rewrite app_nil_r. repeat split; [constructor|lia|done].
  - unfold props_step.
    destruct (py_div (item num_A i) (item num_A i + item num_B i)) as [p|e] eqn:Hdiv;
      simpl; [|done].
    apply py_div_returned in Hdiv as [Hpos ->].
    intros (Hp & Hall & Hle & _)%IH. simpl in *.
    rewrite Hp, <- app_assoc. repeat split; [by constructor|lia|intros _; lia].
Qed.

Lemma props_loop_raises (num_A num_B : gmap Z nat) (ids : list Z) (st : props_state) (k : Z) :
  k ∈ ids -> item num_A k + item num_B k = 0 ->
  props_loop num_A num_B ids st = Raised ZeroDivisionError.
Proof.
  intros Hin Hk. revert st. induction ids as [|i ids IH]; intros st.
  - by apply elem_of_nil in Hin.
  - simpl. unfold props_step.
    destruct (py_div (item num_A i) (item num_A i + item num_B i)) as [p|e] eqn:Hdiv; simpl.
    + apply elem_of_cons in Hin as [->|Hin]; [|by apply IH].
      rewrite Hk in Hdiv. done.
    + destruct (item num_A i + item num_B i); simpl in Hdiv; congruence.
Qed.

Lemma props_loop_returns (num_A num_B : gmap Z nat) (ids : list Z) (st : props_state) :
  Forall (fun i => 0 < item num_A i + item num_B i) ids ->
  exists st', props_loop num_A num_B ids st = Returned st'.
Proof.
  intros Hall. revert st. induction Hall as [|i ids Hi Hall IH]; intros st; simpl.
  - by eexists.
  - unfold props_step. rewrite py_div_pos by done. simpl. apply IH.
Qed.

(** What [select] returns, when it returns. *)
Lemma select_returned (counter_A counter_B : gmap Z nat) (clustern : nat)
    (pft : list Z) (props : list (Z * Q)) (contrast : Q) :
  select counter_A counter_B clustern = Returned (pft, props, contrast) ->
  props = map (fun i => (i, proportion (fill counter_A clustern) (fill counter_B clustern) i))
              (range clustern)
  /\ pft = map fst (firstn (top_percent clustern) (sorted_desc props))
  /\ Forall (fun i => 0 < item (fill counter_A clustern) i + item (fill counter_B clustern) i)
            (range clustern).
Proof.
  unfold select.
  destruct (props_loop _ _ _ _) as [st|e] eqn:Hloop; simpl; [|done].
  destruct (py_div _ _) as [q|e] eqn:Hdiv; simpl; [|done].
  intros [= <- <- <-].
  apply props_loop_returned in Hloop as (Hp & Hall & _). simpl in Hp.
  by rewrite Hp.
Qed.

(** [select] raises as soon as one cluster in range has no counted pixel. *)
Lemma select_raises (counter_A counter_B : gmap Z nat) (clustern : nat) (k : Z) :
  k ∈ range clustern ->
  item (fill counter_A clustern) k + item (fill counter_B clustern) k = 0 ->
  select counter_A counter_B clustern = Raised ZeroDivisionError.
Proof.
  intros Hin Hk. unfold select. by erewrite props_loop_raises.
Qed.

(** ... and returns when every cluster has one and there is a cluster. *)
Lemma select_returns (counter_A counter_B : gmap Z nat) (clustern : nat) :
  0 < clustern ->
  Forall (fun i => 0 < item (fill counter_A clustern) i + item (fill counter_B clustern) i)
         (range clustern) ->
  exists r, select counter_A counter_B clustern = Returned r.
Proof.
  intros HK Hall. unfold select.
  destruct (props_loop_returns _ _ _ {| prop_rst_num := []; total_A := 0; total_AB := 0 |} Hall)
    as [st Hst].
  rewrite Hst. simpl.
  apply props_loop_returned in Hst as (_ & _ & _ & Htot).
  rewrite py_div_pos; [by eexists|].
  apply Htot. destruct clustern; [lia|done].
Qed.

(** *** The stable descending sort *)

Lemma insert_desc_perm (x : Z * Q) (l : list (Z * Q)) :
  Permutation (insert_desc x l) (x :: l).
Proof.
  induction l as [|y l IH]; simpl; [done|].
  destruct (Qle_bool (snd y) (snd x)); [done|].
  rewrite IH. apply perm_swap.
Qed.

Lemma sorted_desc_perm (l : list (Z * Q)) : Permutation (sorted_desc l) l.
Proof.
  induction l as [|x l IH]; simpl; [done|].
  rewrite insert_desc_perm. by constructor.
Qed.

Lemma sorted_desc_length (l : list (Z * Q)) : length (sorted_desc l) = length l.
Proof. apply Permutation_length, sorted_desc_perm. Qed.

Lemma ranks_before_trans (x y z : Z * Q) :
  ranks_before x y -> ranks_before y z -> ranks_before x z.
Proof.
  unfold ranks_before. intros [H1|[H1 H1']] [H2|[H2 H2']].
  - left. Lqa.lra.
  - left. Lqa.lra.
  - left. Lqa.lra.
  - right. split; [Lqa.lra|lia].
Qed.

Lemma ranks_before_asym (x y : Z * Q) :
  ranks_before x y -> ranks_before y x -> False.
Proof.
  unfold ranks_before. intros [H1|[H1 H1']] [H2|[H2 H2']]; try Lqa.lra. lia.
Qed.

Lemma insert_desc_sorted (x : Z * Q) (l : list (Z * Q)) :
  Forall (fun y => (fst x < fst y)%Z) l ->
  StronglySorted ranks_before l ->
  StronglySorted ranks_before (insert_desc x l).
Proof.
  intros Hid Hs. induction Hs as [|y l Hs IH Hy]; simpl.
  - repeat constructor.
  - apply Forall_cons in Hid as [Hxy Hid].
    destruct (Qle_bool (snd y) (snd x)) eqn:Hle.
    + apply Qle_bool_iff in Hle.
      assert (ranks_before x y) as Hr.
      { unfold ranks_before. destruct (Qlt_le_dec (snd y) (snd x)); [by left|].
        right. split; [Lqa.lra|done]. }
      constructor; [by constructor|]. constructor; [done|].
      eapply Forall_impl; [exact Hy|]. intros z. by apply ranks_before_trans.
    + assert (ranks_before y x) as Hr.
      { left. destruct (Qlt_le_dec (snd x) (snd y)) as [|Hc]; [done|].
        apply Qle_bool_iff in Hc. congruence. }
      constructor; [by apply IH|].
      rewrite insert_desc_perm. by constructor.
Qed.

(** On items listed by ascending cluster id the stable sort ranks by
    proportion, then by id. *)
Lemma sorted_desc_sorted (l : list (Z * Q)) :
  StronglySorted (fun x y => (fst x < fst y)%Z) l ->
  StronglySorted ranks_before (sorted_desc l).
Proof.
  induction 1 as [|x l Hs IH Hx]; simpl; [constructor|].
  apply insert_desc_sorted; [|done].
  by rewrite sorted_desc_perm.
Qed.

(** A ranking is unique. *)
Lemma ranking_unique (l1 l2 : list (Z * Q)) :
  Permutation l1 l2 ->
  StronglySorted ranks_before l1 -> StronglySorted ranks_before l2 -> l1 = l2.
Proof.
  intros Hp Hs1. revert l2 Hp. induction Hs1 as [|a l1 Hs1 IH Ha]; intros l2 Hp Hs2.
  - by apply Permutation_nil in Hp.
  - destruct Hs2 as [|b l2 Hs2 Hb].
    + by apply Permutation_sym, Permutation_nil in Hp.
    + assert (a = b) as ->.
      { assert (In a (b :: l2)) as [->|Ha2]
          by (eapply Permutation_in; [exact Hp|by left]); [done|].
        assert (In b (a :: l1)) as [->|Hb1]
          by (eapply Permutation_in; [symmetry; exact Hp|by left]); [done|].
        rewrite Forall_forall in Ha, Hb.
        apply list_elem_of_In in Ha2, Hb1.
        destruct (ranks_before_asym a b); auto. }
      f_equal. apply IH; [|done]. by apply Permutation_cons_inv in Hp.
Qed.

Lemma range_sorted (n : nat) : StronglySorted Z.lt (range n).
Proof.
  unfold range. generalize 0. induction n as [|n IH]; intros s; simpl; constructor.
  - apply IH.
  - apply Forall_forall. intros x Hx%list_elem_of_In%in_map_iff.
    destruct Hx as (k & <- & Hk%in_seq). lia.
Qed.

Lemma items_sorted (f : Z -> Q) (ids : list Z) :
  StronglySorted Z.lt ids ->
  StronglySorted (fun x y : Z * Q => (fst x < fst y)%Z) (map (fun i => (i, f i)) ids).
Proof.
  induction 1 as [|i ids Hs IH Hi]; simpl; constructor; [done|].
  apply Forall_forall. intros x Hx%list_elem_of_In%in_map_iff.
  destruct Hx as (k & <- & Hk). rewrite Forall_forall in Hi.
  apply Hi. by apply list_elem_of_In.
Qed.

Lemma top_percent_le (clustern : nat) : top_percent clustern <= clustern.
Proof. unfold top_percent. apply Nat.Div0.div_le_upper_bound. lia. Qed.

End TemplateFacts.

(** * [calculate_pft]: counts, failure, size and order of the Template *)

Module PftFacts.
Import Template TemplateSpec TemplateFacts Examples.

Section WithInputs.
Context (file_paths_B : list (list Stats.vec)) (minikm : Stats.KMeans)
        (ss : Stats.Scaler) (groups_mean : list Stats.vec) (triple_std : list R).

#[local] Abbreviation label := (Stats.label_fit minikm ss groups_mean triple_std).
#[local] Abbreviation cT := (countT minikm).
#[local] Abbreviation cN := (countN file_paths_B minikm ss groups_mean triple_std).

Lemma item_counter_B (files : list (list Stats.vec)) (c : gmap Z nat) (k : Z) :
  item (foldl (fun c file => Counter_update c (map label file)) c files) k
  = item c k + count_occ Z.eq_dec (concat (map (map label) files)) k.
Proof.
  revert c. induction files as [|file files IH]; intros c; simpl; [lia|].
  rewrite IH, item_Counter_update, count_occ_app. lia.
Qed.

Lemma Counter_update_app (c : gmap Z nat) (l1 l2 : list Z) :
  Counter_update c (l1 ++ l2) = Counter_update (Counter_update c l1) l2.
Proof. unfold Counter_update. apply foldl_app. Qed.

(** [calculate_pft] selects from the counter of the Target labels and the
    counter of all NonTarget labels. *)
Lemma calculate_pft_select (clustern : nat) :
  calculate_pft file_paths_B minikm ss groups_mean triple_std clustern
  = select (Counter (Stats.labels_ minikm))
           (Counter (labels_B file_paths_B minikm ss groups_mean triple_std))
           clustern.
Proof.
  unfold calculate_pft, labels_B, Counter. f_equal.
  generalize (∅ : gmap Z nat). induction file_paths_B as [|file files IH]; intros c.
  - done.
  - simpl. by rewrite IH, Counter_update_app.
Qed.

(** [num_A[k]] and [num_B[k]] are [countT k] and [countN k]. *)
Lemma num_A_countT (clustern : nat) (k : Z) :
  k ∈ range clustern ->
  item (fill (Counter (Stats.labels_ minikm)) clustern) k = cT k.
Proof.
  intros Hk. rewrite item_fill, decide_True by done. apply item_Counter.
Qed.

Lemma num_B_countN (clustern : nat) (k : Z) :
  k ∈ range clustern ->
  item (fill (foldl (fun c file => Counter_update c (map label file)) ∅ file_paths_B)
             clustern) k = cN k.
Proof.
  intros Hk. rewrite item_fill, decide_True by done.
  rewrite item_counter_B. unfold item. by rewrite lookup_empty.
Qed.

Lemma calculate_pft_returned (clustern : nat) (pft : list Z) (props : list (Z * Q))
    (contrast : Q) :
  calculate_pft file_paths_B minikm ss groups_mean triple_std clustern
    = Returned (pft, props, contrast) ->
  props = map (fun k => (k, Z.of_nat (cT k) # Pos.of_nat (cT k + cN k)))
              (range clustern)
  /\ pft = map fst (firstn (top_percent clustern) (sorted_desc props))
  /\ Forall (fun k => 0 < cT k + cN k) (range clustern).
Proof.
  unfold calculate_pft. intros (Hp & Hpft & Hall)%select_returned.
  split; [|split; [done|]].
  - rewrite Hp. apply map_ext_in. intros k Hk%list_elem_of_In.
    unfold proportion. by rewrite num_A_countT, num_B_countN.
  - eapply Forall_impl; [exact Hall|]. intros k Hk. cbv beta in Hk.
    destruct (decide (k ∈ range clustern)) as [Hin|Hout].
    + by rewrite num_A_countT, num_B_countN in Hk.
    + rewrite !item_fill, !decide_False in Hk by done. lia.
Qed.

Lemma calculate_pft_length (clustern : nat) (pft : list Z) (props : list (Z * Q))
    (contrast : Q) :
  calculate_pft file_paths_B minikm ss groups_mean triple_std clustern
    = Returned (pft, props, contrast) ->
  length pft = top_percent clustern.
Proof.
  intros (Hp & -> & _)%calculate_pft_returned.
  rewrite length_map, length_firstn, sorted_desc_length, Hp, length_map.
  unfold range. rewrite length_map, length_seq.
  pose proof (top_percent_le clustern). lia.
Qed.

End WithInputs.

(** [calculate_pft] is a function of the per-cluster counts alone. *)
Lemma calculate_pft_counts_only
    (files1 files2 : list (list Stats.vec)) (km1 km2 : Stats.KMeans)
    (ss1 ss2 : Stats.Scaler) (gm1 gm2 : list Stats.vec) (ts1 ts2 : list R)
    (clustern : nat) :
  (forall k, k ∈ range clustern ->
     countT km1 k = countT km2 k
     /\ countN files1 km1 ss1 gm1 ts1 k = countN files2 km2 ss2 gm2 ts2 k) ->
  calculate_pft files1 km1 ss1 gm1 ts1 clustern
  = calculate_pft files2 km2 ss2 gm2 ts2 clustern.
Proof.
  intros Hsame. unfold calculate_pft, select.
  set (cB1 := foldl _ ∅ files1). set (cB2 := foldl _ ∅ files2).
  assert (fill (Counter (Stats.labels_ km1)) clustern
          = fill (Counter (Stats.labels_ km2)) clustern) as ->.
  { apply fill_ext. intros k Hk. rewrite !item_Counter. apply Hsame, Hk. }
  assert (fill cB1 clustern = fill cB2 clustern) as ->; [|done].
  apply fill_ext. intros k Hk. unfold cB1, cB2. rewrite !item_counter_B.
  f_equal. apply Hsame, Hk.
Qed.

(** C1.  The claim: a cluster with no counted pixel is left out of the ranking
    and [calculate_pft] completes.  The code: line 243 divides by
    [num_A[i] + num_B[i]] for every cluster, so [calculate_pft] raises
    [ZeroDivisionError] whenever some cluster in range has
    [countT k + countN k = 0]. *)
Theorem calculate_pft_empty_cluster_raises
    (file_paths_B : list (list Stats.vec)) (minikm : Stats.KMeans)
    (ss : Stats.Scaler) (groups_mean : list Stats.vec) (triple_std : list R)
    (clustern : nat) (k : Z) :
  (0 <= k < Z.of_nat clustern)%Z ->
  countT minikm k + countN file_paths_B minikm ss groups_mean triple_std k = 0 ->
  calculate_pft file_paths_B minikm ss groups_mean triple_std clustern
    = Raised ZeroDivisionError.
Proof.
  intros Hk%elem_of_range Hzero. unfold calculate_pft.
  apply select_raises with k; [done|].
  by rewrite num_A_countT, num_B_countN.
Qed.

(** C3, as the code has it.  Whenever [calculate_pft] returns, the Template
    holds exactly [floor(clustern * 0.85)] cluster ids: line 251 truncates
    with [int]. *)
Theorem template_size_floor
    (file_paths_B : list (list Stats.vec)) (minikm : Stats.KMeans)
    (ss : Stats.Scaler) (groups_mean : list Stats.vec) (triple_std : list R)
    (clustern : nat) (pft : list Z) (props : list (Z * Q)) (contrast : Q) :
  calculate_pft file_paths_B minikm ss groups_mean triple_std clustern
    = Returned (pft, props, contrast) ->
  length pft = clustern * 85 / 100
  /\ 100 * length pft <= 85 * clustern < 100 * (length pft + 1).
Proof.
  intros Hlen%calculate_pft_length. rewrite Hlen. unfold top_percent.
  split; [done|].
  pose proof (Nat.div_mod_eq (clustern * 85) 100).
  pose proof (Nat.mod_upper_bound (clustern * 85) 100). lia.
Qed.

(** C6.  When [calculate_pft] returns, [prop_rst_num] lists each cluster with
    its proportion [countT k / (countT k + countN k)], and the Template is the
    first [top_percent clustern] ids of the ranking of these items by
    descending proportion and, among equal proportions, ascending cluster id:
    such a ranking exists, whatever list ranks the items this way gives the
    same ordered Template, and so does every run on inputs with the same
    counts. *)
Theorem template_is_ranking_prefix
    (file_paths_B : list (list Stats.vec)) (minikm : Stats.KMeans)
    (ss : Stats.Scaler) (groups_mean : list Stats.vec) (triple_std : list R)
    (clustern : nat) (pft : list Z) (props : list (Z * Q)) (contrast : Q) :
  calculate_pft file_paths_B minikm ss groups_mean triple_std clustern
    = Returned (pft, props, contrast) ->
  props = map (fun k =>
                 (k, Z.of_nat (countT minikm k)
                     # Pos.of_nat (countT minikm k
                          + countN file_paths_B minikm ss groups_mean triple_std k)))
              (range clustern)
  /\ (exists ranked,
        Permutation ranked props /\ StronglySorted ranks_before ranked)
  /\ (forall ranked,
        Permutation ranked props -> StronglySorted ranks_before ranked ->
        pft = map fst (firstn (top_percent clustern) ranked))
  /\ (forall file_paths_B' minikm' ss' groups_mean' triple_std',
        (forall k, k ∈ range clustern ->
           countT minikm' k = countT minikm k
           /\ countN file_paths_B' minikm' ss' groups_mean' triple_std' k
              = countN file_paths_B minikm ss groups_mean triple_std k) ->
        calculate_pft file_paths_B' minikm' ss' groups_mean' triple_std' clustern
        = Returned (pft, props, contrast)).
Proof.
  intros Hrun.
  destruct (calculate_pft_returned _ _ _ _ _ _ _ _ _ Hrun) as (Hp & Hpft & _).
  assert (StronglySorted ranks_before (sorted_desc props)) as Hs.
  { apply sorted_desc_sorted. rewrite Hp. apply items_sorted, range_sorted. }
  split; [done|]. split; [|split].
  - exists (sorted_desc props). split; [apply sorted_desc_perm|done].
  - intros ranked Hperm Hranked.
    rewrite Hpft. do 2 f_equal. apply ranking_unique; [|done..].
    by rewrite sorted_desc_perm, Hperm.
  - intros files' km' ss' gm' ts' Hsame. rewrite <- Hrun.
    by apply calculate_pft_counts_only.
Qed.

(** Two clusters, both training pixels in cluster 0, no NonTarget pixel:
    cluster 1 has no member. *)
Lemma calculate_pft_empty_cluster_raises_witness :
  calculate_pft [] (km_const [0; 0]%Z) ss_id [] [] 2 = Raised ZeroDivisionError.
Proof.
  apply (calculate_pft_empty_cluster_raises [] (km_const [0; 0]%Z) ss_id [] [] 2 1%Z).
  - lia.
  - reflexivity.
Defined.

(** 512 clusters with one training pixel each. *)
Lemma calculate_pft_512 :
  exists pft props contrast,
    calculate_pft [] (km_const (range 512)) ss_id [] [] 512
    = Returned (pft, props, contrast).
Proof. eexists _, _, _. vm_compute. reflexivity. Qed.

(** C3, as stated, fails: with 512 clusters, one training pixel in each, the
    Template has 435 ids, and [ceil(512 * 0.85)] is 436. *)
Lemma template_size_not_ceil :
  exists pft props contrast,
    calculate_pft [] (km_const (range 512)) ss_id [] [] 512
      = Returned (pft, props, contrast)
    /\ length pft = 435 /\ retention_ceil 512 = 436.
Proof.
  destruct calculate_pft_512 as (pft & props & contrast & Hrun).
  exists pft, props, contrast.
  split; [done|]. split; [|done].
  by rewrite (calculate_pft_length _ _ _ _ _ _ _ _ _ Hrun).
Qed.

(** Three clusters with one training pixel each: two ids are kept. *)
Lemma template_size_floor_witness :
  length [0; 1]%Z = 3 * 85 / 100
  /\ 100 * length [0; 1]%Z <= 85 * 3 < 100 * (length [0; 1]%Z + 1).
Proof.
  apply (template_size_floor [] (km_const [0; 1; 2]%Z) ss_id [] [] 3 [0; 1]%Z
           [(0, 1 # 1); (1, 1 # 1); (2, 1 # 1)]%Z (3 # 3)).
  vm_compute. reflexivity.
Defined.

End PftFacts.

(** * The outlier gate on the two paths *)

Module StatsFacts.
Import Stats PftFacts Examples.

#[local] Open Scope R_scope.

Lemma sum_sq_nonneg (v : vec) : 0 <= sum_sq v.
Proof.
  unfold sum_sq. induction v as [|x v IH]; simpl; [lra|].
  pose proof (Rle_0_sqr x) as Hx. unfold Rsqr in Hx. lra.
Qed.

(** The threshold of line 172 is [sqrt(3 * sum_i std[i]^2)]. *)
Lemma triple_std_formula (gs : list vec) (k : nat) :
  (k < length gs)%nat ->
  nth k (triple_std gs) 0 = sqrt (3 * sum_sq (nth k gs [])).
Proof.
  revert k. induction gs as [|s gs IH]; intros [|k] Hk; simpl in *; try lia.
  - symmetry. apply sqrt_mult; [lra | apply sum_sq_nonneg].
  - apply IH. lia.
Qed.

(** The template path flags a pixel iff its distance is strictly beyond the
    threshold; the inference path iff it is at or beyond it. *)
Lemma label_fit_outlier (minikm : KMeans) (ss : Scaler) (gm : list vec)
    (ts : list R) (x : vec) :
  predict minikm (transform ss x) <> (-1)%Z ->
  label_fit minikm ss gm ts x = (-1)%Z
  <-> distance gm (transform ss x) (predict minikm (transform ss x))
      > at_cluster ts (predict minikm (transform ss x)) 0.
Proof.
  intros Hne. unfold label_fit. destruct (Rgt_dec _ _); split; done.
Qed.

Lemma final_label_outlier (minikm : KMeans) (ss : Scaler) (gm : list vec)
    (ts : list R) (clustern : nat) (x : vec) :
  (0 <= predict minikm (transform ss x) < Z.of_nat clustern)%Z ->
  final_label minikm ss gm ts clustern x = (-1)%Z
  <-> distance gm (transform ss x) (predict minikm (transform ss x))
      >= at_cluster ts (predict minikm (transform ss x)) 0.
Proof.
  intros Hin. unfold final_label.
  replace ((0 <=? _)%Z && (_ <? _)%Z)%bool with true
    by (symmetry; apply andb_true_iff; split; [apply Z.leb_le|apply Z.ltb_lt]; lia).
  destruct (Rge_dec _ _); split; try done. lia.
Qed.

(** C2.  The claim: on both paths a vector is an Outlier iff its distance
    strictly exceeds the threshold.  The code: line 219 tests [>], line 298
    tests [>=]; a vector whose distance equals the threshold keeps its
    cluster when the template is built and is an Outlier at inference. *)
Theorem outlier_gate_differs_at_threshold (minikm : KMeans) (ss : Scaler)
    (gm : list vec) (ts : list R) (clustern : nat) (x : vec) :
  (0 <= predict minikm (transform ss x) < Z.of_nat clustern)%Z ->
  distance gm (transform ss x) (predict minikm (transform ss x))
    = at_cluster ts (predict minikm (transform ss x)) 0 ->
  label_fit minikm ss gm ts x = predict minikm (transform ss x)
  /\ final_label minikm ss gm ts clustern x = (-1)%Z.
Proof.
  intros Hin Heq. split.
  - unfold label_fit. destruct (Rgt_dec _ _) as [Hgt|]; [|done]. lra.
  - apply final_label_outlier; [done|]. lra.
Qed.

(** A cluster whose training members coincide has standard deviation 0, so
    threshold 0; a pixel at its mean is at distance 0. *)
Lemma outlier_gate_differs_at_threshold_witness :
  label_fit (km_const [0%Z]) ss_id [[0]] (triple_std [[0]]) [0] = 0%Z
  /\ final_label (km_const [0%Z]) ss_id [[0]] (triple_std [[0]]) 1 [0] = (-1)%Z.
Proof.
  apply (outlier_gate_differs_at_threshold (km_const [0%Z]) ss_id [[0]]
           (triple_std [[0]]) 1 [0]).
  - simpl. lia.
  - unfold distance, norm, triple_std, at_cluster. simpl. unfold sum_sq. simpl.
    replace ((0 - 0) * (0 - 0) + 0) with 0 by lra.
    replace (0 * 0 + 0) with 0 by lra.
    rewrite sqrt_0. lra.
Defined.

(** *** Target pixels are counted without the gate *)

Lemma mean_train : mean [-1/2; -1/2; -1/2; -1/2; 2] = 0.
Proof.
  unfold mean. replace (INR (length _)) with 5 by (simpl; lra). simpl. lra.
Qed.

Lemma std_train : std [-1/2; -1/2; -1/2; -1/2; 2] = 1.
Proof.
  unfold std. rewrite mean_train. unfold mean.
  replace (INR (length _)) with 5 by (simpl; lra). simpl.
  rewrite <- sqrt_1. f_equal. lra.
Qed.

Lemma groups_mean_train : groups_mean 1 xx_train km_train 1 = [[0]].
Proof.
  unfold groups_mean, mean_axis0. simpl. by rewrite mean_train.
Qed.

Lemma groups_std_train : groups_std 1 xx_train km_train 1 = [[1]].
Proof.
  unfold groups_std, std_axis0. simpl. by rewrite std_train.
Qed.

Lemma sqrt3_lt_2 : sqrt 3 < 2.
Proof.
  replace 2 with (sqrt (2 * 2)) by (apply sqrt_square; lra).
  apply sqrt_lt_1; lra.
Qed.

(** C4.  The claim: a Target pixel that fails the outlier test is left out of
    [countT].  The code: [counter_A] counts [minikm.labels_] as they are
    (lines 198-199), while the NonTarget labels pass the test of lines
    216-220.  Here the fifth training row lies beyond the threshold of its
    cluster, the NonTarget path would label it [-1], and cluster 0 is counted
    with all five Target pixels. *)
Theorem target_outlier_is_counted :
  let gm := groups_mean 1 xx_train km_train 1 in
  let ts := triple_std (groups_std 1 xx_train km_train 1) in
  distance gm [2] 0 > at_cluster ts 0%Z 0
  /\ label_fit km_train ss_id gm ts [2] = (-1)%Z
  /\ countT km_train 0 = 5%nat
  /\ calculate_pft [] km_train ss_id gm ts 1
     = Returned ([], [(0%Z, 5 # 5)], 5 # 5).
Proof.
  intros gm ts. subst gm ts. rewrite groups_mean_train, groups_std_train.
  assert (distance [[0]] [2] 0 > at_cluster (triple_std [[1]]) 0%Z 0) as Hout.
  { unfold distance, norm, triple_std, at_cluster. simpl. unfold sum_sq. simpl.
    replace ((2 - 0) * (2 - 0) + 0) with (2 * 2) by lra.
    replace (1 * 1 + 0) with 1 by lra.
    rewrite sqrt_1, sqrt_square by lra. pose proof sqrt3_lt_2. lra. }
  split; [done|]. split; [|split; [done|]].
  - apply label_fit_outlier; [done|]. exact Hout.
  - change (calculate_pft [] km_train ss_id [[0]] (triple_std [[1]]) 1)
      with (Template.select (Template.Counter [0; 0; 0; 0; 0]%Z) ∅ 1).
    vm_compute. reflexivity.
Qed.

End StatsFacts.

(** * A Template with a cluster of proportion zero *)

Module ZeroProportion.
Import Stats Template TemplateSpec PftFacts Examples.

Lemma labels_B_three :
  labels_B [file_B] km_three ss_id means_three thresholds_three = [1; 2]%Z.
Proof.
  unfold labels_B, file_B. cbn [map concat app]. unfold label_fit. cbn.
  destruct (Rlt_dec 1 (1/2)) as [H|_]; [lra|].
  destruct (Rlt_dec 1 (3/2)) as [_|H]; [|lra].
  destruct (Rlt_dec 2 (1/2)) as [H|_]; [lra|].
  destruct (Rlt_dec 2 (3/2)) as [H|_]; [lra|].
  unfold distance, norm, sum_sq, at_cluster.
  change (Z.to_nat 1) with 1. change (Z.to_nat 2) with 2. cbn.
  replace ((1 - 1) * (1 - 1) + 0)%R with 0%R by lra.
  replace ((2 - 2) * (2 - 2) + 0)%R with 0%R by lra.
  rewrite sqrt_0.
  destruct (Rgt_dec 0 1) as [H|_]; [lra|]. done.
Qed.

Lemma calculate_pft_three :
  calculate_pft [file_B] km_three ss_id means_three thresholds_three 3
  = Returned ([0; 1]%Z, [(0, 2 # 2); (1, 0 # 1); (2, 0 # 1)]%Z, 2 # 4).
Proof.
  rewrite calculate_pft_select, labels_B_three. cbn [labels_ km_three].
  vm_compute. reflexivity.
Qed.

(** C10.  [calculate_pft] keeps the first [top_percent clustern] clusters of
    the ranking whatever their proportions: here cluster 1 has no Target
    pixel and one NonTarget pixel that passed the outlier test, its
    proportion is 0, and it is in the Template, which has the fixed size
    [top_percent 3 = 2]; cluster 2, of the same proportion, is not: only the
    position in the ranking decides. *)
Theorem template_admits_zero_proportion :
  exists file_paths_B minikm ss groups_mean triple_std clustern pft props contrast k,
    calculate_pft file_paths_B minikm ss groups_mean triple_std clustern
      = Returned (pft, props, contrast)
    /\ In k pft
    /\ countT minikm k = 0
    /\ 0 < countN file_paths_B minikm ss groups_mean triple_std k
    /\ In (k, 0 # 1) props
    /\ length pft = top_percent clustern
    /\ (exists j, In (j, 0 # 1) props /\ ~ In j pft).
Proof.
  exists [file_B], km_three, ss_id, means_three, thresholds_three, 3.
  eexists _, _, _, 1%Z. split; [apply calculate_pft_three|].
  unfold countN. rewrite labels_B_three.
  repeat split; simpl; auto.
  exists 2%Z. split; [auto|]. intros [H|[H|[]]]; lia.
Qed.

(** The Template of three clusters with one Target pixel each. *)
Lemma template_is_ranking_prefix_witness :
  exists ranked,
    Permutation ranked [(0, 1 # 1); (1, 1 # 1); (2, 1 # 1)]%Z
    /\ StronglySorted ranks_before ranked.
Proof.
  apply (template_is_ranking_prefix [] (km_const [0; 1; 2]%Z) ss_id [] [] 3
           [0; 1]%Z [(0, 1 # 1); (1, 1 # 1); (2, 1 # 1)]%Z (3 # 3)).
  vm_compute. reflexivity.
Defined.

End ZeroProportion.

(** * Arrays: reading, shapes, counting *)

Module GridFacts.
Import Image.

#[local] Open Scope Z_scope.

Lemma inside_iff (H W : nat) (r c : Z) :
  inside H W r c = true <-> 0 <= r < Z.of_nat H /\ 0 <= c < Z.of_nat W.
Proof. unfold inside. rewrite !andb_true_iff, !Z.leb_le, !Z.ltb_lt. lia. Qed.

Lemma nth_tabulate_row {A : Type} (d : A) (W : nat) (g : nat -> A) (c : nat) :
  nth c (map g (seq 0 W)) d = if (c <? W)%nat then g c else d.
Proof.
  destruct (Nat.ltb_spec c W) as [Hc|Hc].
  - rewrite (nth_indep _ d (g 0%nat)) by (by rewrite length_map, length_seq).
    rewrite map_nth, seq_nth by done. done.
  - apply nth_overflow. by rewrite length_map, length_seq.
Qed.

Lemma get_tabulate {A : Type} (d : A) (H W : nat) (f : Z -> Z -> A) (r c : Z) :
  get d (tabulate H W f) r c = if inside H W r c then f r c else d.
Proof.
  unfold get, tabulate, inside.
  destruct (Z.ltb_spec r 0) as [Hr|Hr]; simpl.
  { by replace (0 <=? r) with false by (symmetry; apply Z.leb_gt; lia). }
  destruct (Z.ltb_spec c 0) as [Hc|Hc]; simpl.
  { replace (0 <=? c) with false by (symmetry; apply Z.leb_gt; lia).
    by rewrite andb_false_r. }
  replace (0 <=? r) with true by (symmetry; apply Z.leb_le; lia).
  replace (0 <=? c) with true by (symmetry; apply Z.leb_le; lia).
  rewrite (nth_tabulate_row []).
  destruct (Nat.ltb_spec (Z.to_nat r) H) as [HrH|HrH].
  - replace (r <? Z.of_nat H) with true by (symmetry; apply Z.ltb_lt; lia).
    rewrite nth_tabulate_row. simpl.
    destruct (Nat.ltb_spec (Z.to_nat c) W) as [HcW|HcW].
    + replace (c <? Z.of_nat W) with true by (symmetry; apply Z.ltb_lt; lia).
      by rewrite !Z2Nat.id by lia.
    + by replace (c <? Z.of_nat W) with false by (symmetry; apply Z.ltb_ge; lia).
  - replace (r <? Z.of_nat H) with false by (symmetry; apply Z.ltb_ge; lia).
    simpl. by destruct (Z.to_nat c).
Qed.

Lemma on_tabulate (H W : nat) (f : Z -> Z -> bool) (r c : Z) :
  on (tabulate H W f) r c = (inside H W r c && f r c)%bool.
Proof. unfold on. rewrite get_tabulate. by destruct (inside H W r c). Qed.

Lemma on_pointwise (f : Z -> Z -> bool) (m : mask) (r c : Z) :
  on (pointwise f m) r c
  = (inside (fst (shape m)) (snd (shape m)) r c && f r c)%bool.
Proof. apply on_tabulate. Qed.

Lemma tabulate_ext {A : Type} (H W : nat) (f g : Z -> Z -> A) :
  (forall r c, inside H W r c = true -> f r c = g r c) ->
  tabulate H W f = tabulate H W g.
Proof.
  intros Hfg. unfold tabulate. apply map_ext_in. intros r Hr%in_seq.
  apply map_ext_in. intros c Hc%in_seq. apply Hfg, inside_iff. lia.
Qed.

Lemma shape_tabulate {A : Type} (H W : nat) (f : Z -> Z -> A) :
  (0 < H)%nat -> shape (tabulate H W f) = (H, W).
Proof.
  intros HH. unfold shape, tabulate. rewrite length_map, length_seq.
  destruct H as [|H]; [lia|]. simpl. by rewrite length_map, length_seq.
Qed.

Lemma shape_pointwise (f : Z -> Z -> bool) (m : mask) :
  shape (pointwise f m) = shape m.
Proof.
  unfold pointwise. destruct m as [|row m]; [done|].
  rewrite shape_tabulate; [done|simpl; lia].
Qed.

(** A mask that reads [False] inside an array is outside it everywhere. *)
Lemma on_outside (f : Z -> Z -> bool) (m : mask) (r c : Z) :
  inside (fst (shape m)) (snd (shape m)) r c = false -> on (pointwise f m) r c = false.
Proof. intros Hout. by rewrite on_pointwise, Hout. Qed.

(** *** Counting *)

Lemma count_cons (row : list bool) (m : mask) :
  count (row :: m) = (row_count row + count m)%nat.
Proof. done. Qed.

Lemma row_count_map_le {A : Type} (f g : A -> bool) (l : list A) :
  (forall x, In x l -> f x = true -> g x = true) ->
  (row_count (map f l) <= row_count (map g l))%nat.
Proof.
  unfold row_count. induction l as [|x l IH]; intros Hfg; simpl; [lia|].
  assert (length (List.filter (fun b => b) (map f l))
          <= length (List.filter (fun b => b) (map g l)))%nat as Hle
    by (apply IH; intros y Hy; apply Hfg; by right).
  destruct (f x) eqn:Hf.
  - rewrite (Hfg x) by (by left || done). simpl. lia.
  - destruct (g x); simpl; lia.
Qed.

Lemma row_count_map_pos {A : Type} (f : A -> bool) (l : list A) (x : A) :
  In x l -> f x = true -> (0 < row_count (map f l))%nat.
Proof.
  unfold row_count. induction l as [|y l IH]; intros Hin Hx; [done|]. simpl.
  destruct Hin as [->|Hin].
  - rewrite Hx. simpl. lia.
  - destruct (f y); simpl; [lia|by apply IH].
Qed.

Lemma row_count_const_true {A : Type} (l : list A) :
  row_count (map (fun _ => true) l) = length l.
Proof. unfold row_count. induction l; simpl; [done|]. by f_equal. Qed.

Lemma row_count_const_false {A : Type} (l : list A) :
  row_count (map (fun _ => false) l) = 0%nat.
Proof. unfold row_count. by induction l. Qed.

Lemma count_map_le {A : Type} (F G : A -> list bool) (l : list A) :
  (forall x, In x l -> (row_count (F x) <= row_count (G x))%nat) ->
  (count (map F l) <= count (map G l))%nat.
Proof.
  induction l as [|x l IH]; intros HFG; [done|].
  rewrite !map_cons, !count_cons.
  pose proof (HFG x (or_introl eq_refl)).
  assert (count (map F l) <= count (map G l))%nat
    by (apply IH; intros y Hy; apply HFG; by right).
  lia.
Qed.

Lemma count_tabulate_le (H W : nat) (f g : Z -> Z -> bool) :
  (forall r c, inside H W r c = true -> f r c = true -> g r c = true) ->
  (count (tabulate H W f) <= count (tabulate H W g))%nat.
Proof.
  intros Hfg. unfold tabulate. apply count_map_le. intros r Hr%in_seq.
  apply row_count_map_le. intros c Hc%in_seq. apply Hfg, inside_iff. lia.
Qed.

Lemma count_tabulate_pos (H W : nat) (f : Z -> Z -> bool) (r c : Z) :
  inside H W r c = true -> f r c = true -> (0 < count (tabulate H W f))%nat.
Proof.
  intros Hin%inside_iff Hf. unfold tabulate.
  assert (In (Z.to_nat r) (seq 0 H)) as Hr by (apply in_seq; lia).
  revert Hr. generalize (seq 0 H). intros rows. induction rows as [|r' rows IH]; [done|].
  intros [->|Hr]; rewrite map_cons, count_cons.
  - enough (0 < row_count (map (fun c0 : nat => f (Z.of_nat (Z.to_nat r)) (Z.of_nat c0))
                               (seq 0 W)))%nat by lia.
    apply row_count_map_pos with (Z.to_nat c); [apply in_seq; lia|].
    by rewrite !Z2Nat.id by lia.
  - specialize (IH Hr). lia.
Qed.

Lemma count_tabulate_true (H W : nat) :
  count (tabulate H W (fun _ _ => true)) = (H * W)%nat.
Proof.
  unfold tabulate. rewrite <- (length_seq H 0) at 2.
  generalize (seq 0 H). intros rows. induction rows as [|r rows IH]; [done|].
  rewrite map_cons, count_cons, IH.
  rewrite row_count_const_true, length_seq. simpl. lia.
Qed.

Lemma count_tabulate_false (H W : nat) (f : Z -> Z -> bool) :
  (forall r c, inside H W r c = true -> f r c = false) ->
  count (tabulate H W f) = 0%nat.
Proof.
  intros Hf.
  rewrite (tabulate_ext H W f (fun _ _ => false)) by done.
  unfold tabulate. generalize (seq 0 H). intros rows.
  induction rows as [|r rows IH]; [done|].
  rewrite map_cons, count_cons, IH.
  by rewrite row_count_const_false.
Qed.

Lemma canonical_tabulate (H W : nat) (f : Z -> Z -> bool) :
  canonical (tabulate H W f).
Proof.
  unfold canonical, pointwise. destruct H as [|H]; [done|].
  rewrite shape_tabulate by lia. simpl fst. simpl snd.
  apply tabulate_ext. intros r c Hin. by rewrite on_tabulate, Hin.
Qed.

Lemma canonical_pointwise (f : Z -> Z -> bool) (m : mask) : canonical (pointwise f m).
Proof. apply canonical_tabulate. Qed.

(** Of two arrays of one shape the smaller has the smaller count. *)
Lemma count_subset (a b : mask) :
  canonical a -> canonical b -> shape a = shape b -> subset a b ->
  (count a <= count b)%nat.
Proof.
  intros Ha Hb Hshape Hsub. rewrite Ha, Hb. unfold pointwise. rewrite Hshape.
  apply count_tabulate_le. intros r c _. apply Hsub.
Qed.

Lemma count_pos (a : mask) (r c : Z) :
  canonical a -> on a r c = true -> (0 < count a)%nat.
Proof.
  intros Ha Hon. rewrite Ha. rewrite Ha, on_pointwise in Hon.
  apply andb_true_iff in Hon as [Hin Hon].
  by apply count_tabulate_pos with r c.
Qed.

End GridFacts.

(** * Connected components and the cleaning of the highlight mask *)

Module ComponentFacts.
Import Image GridFacts.

#[local] Open Scope Z_scope.

Lemma subset_refl (a : mask) : subset a a.
Proof. by intros r c. Qed.

Lemma on_grow (conn : nat) (m s : mask) (r c : Z) :
  on (grow conn m s) r c
  = (inside (fst (shape m)) (snd (shape m)) r c &&
     (if on m r c
      then on s r c || existsb (fun d => on s (r + fst d) (c + snd d)) (neighbours conn)
      else false))%bool.
Proof. apply on_pointwise. Qed.

Lemma shape_grow (conn : nat) (m s : mask) : shape (grow conn m s) = shape m.
Proof. apply shape_pointwise. Qed.

Lemma shape_seed (m : mask) (r0 c0 : Z) : shape (seed m r0 c0) = shape m.
Proof. apply shape_pointwise. Qed.

Lemma flood_0 (conn : nat) (m : mask) (r0 c0 : Z) :
  flood conn m r0 c0 0 = seed m r0 c0.
Proof. done. Qed.

Lemma flood_S (conn : nat) (m : mask) (r0 c0 : Z) (n : nat) :
  flood conn m r0 c0 (S n) = grow conn m (flood conn m r0 c0 n).
Proof. done. Qed.

Lemma shape_flood (conn : nat) (m : mask) (r0 c0 : Z) (n : nat) :
  shape (flood conn m r0 c0 n) = shape m.
Proof. destruct n; [apply shape_seed|apply shape_grow]. Qed.

Lemma shape_component (conn : nat) (m : mask) (r0 c0 : Z) :
  shape (component conn m r0 c0) = shape m.
Proof. apply shape_flood. Qed.

Lemma canonical_flood (conn : nat) (m : mask) (r0 c0 : Z) (n : nat) :
  canonical (flood conn m r0 c0 n).
Proof. destruct n; apply canonical_pointwise. Qed.

Lemma canonical_component (conn : nat) (m : mask) (r0 c0 : Z) :
  canonical (component conn m r0 c0).
Proof. apply canonical_flood. Qed.

(** The flood fill grows with the mask it runs in. *)
Lemma grow_mono (conn : nat) (m1 m2 s1 s2 : mask) :
  shape m1 = shape m2 -> subset m1 m2 -> subset s1 s2 ->
  subset (grow conn m1 s1) (grow conn m2 s2).
Proof.
  intros Hshape Hm Hs r c. rewrite !on_grow, Hshape.
  intros [Hin Hon]%andb_true_iff. rewrite Hin. simpl.
  destruct (on m1 r c) eqn:Hm1; [|done]. rewrite (Hm r c Hm1).
  apply orb_true_iff in Hon as [Hon|Hon]; apply orb_true_iff.
  - left. by apply Hs.
  - right. apply existsb_exists in Hon as (d & Hd & Hon).
    apply existsb_exists. exists d. split; [done|]. by apply Hs.
Qed.

Lemma seed_mono (m1 m2 : mask) (r0 c0 : Z) :
  shape m1 = shape m2 -> subset m1 m2 -> subset (seed m1 r0 c0) (seed m2 r0 c0).
Proof.
  intros Hshape Hm r c. unfold seed. rewrite !on_pointwise, Hshape.
  intros [Hin [Heq Hon]%andb_true_iff]%andb_true_iff.
  by rewrite Hin, Heq, (Hm r c Hon).
Qed.

Lemma flood_mono (conn : nat) (m1 m2 : mask) (r0 c0 : Z) (n : nat) :
  shape m1 = shape m2 -> subset m1 m2 ->
  subset (flood conn m1 r0 c0 n) (flood conn m2 r0 c0 n).
Proof.
  intros Hshape Hm. induction n as [|n IH].
  - by apply seed_mono.
  - rewrite !flood_S. by apply grow_mono.
Qed.

Lemma component_mono (conn : nat) (m1 m2 : mask) (r0 c0 : Z) :
  shape m1 = shape m2 -> subset m1 m2 ->
  subset (component conn m1 r0 c0) (component conn m2 r0 c0).
Proof.
  intros Hshape Hm. unfold component. rewrite Hshape. by apply flood_mono.
Qed.

Lemma component_count_mono (conn : nat) (m1 m2 : mask) (r0 c0 : Z) :
  shape m1 = shape m2 -> subset m1 m2 ->
  (count (component conn m1 r0 c0) <= count (component conn m2 r0 c0))%nat.
Proof.
  intros Hshape Hm. apply count_subset.
  - apply canonical_component.
  - apply canonical_component.
  - by rewrite !shape_component.
  - by apply component_mono.
Qed.

(** A component lies in its mask and holds the pixel it grew from. *)
Lemma flood_subset (conn : nat) (m : mask) (r0 c0 : Z) (n : nat) :
  subset (flood conn m r0 c0 n) m.
Proof.
  intros r c. destruct n.
  - rewrite flood_0. unfold seed. rewrite on_pointwise.
    intros [_ [_ H]%andb_true_iff]%andb_true_iff. done.
  - rewrite flood_S, on_grow. intros [_ H]%andb_true_iff. by destruct (on m r c).
Qed.

Lemma component_subset (conn : nat) (m : mask) (r0 c0 : Z) :
  subset (component conn m r0 c0) m.
Proof. apply flood_subset. Qed.

Lemma flood_seed (conn : nat) (m : mask) (r0 c0 : Z) (n : nat) :
  inside (fst (shape m)) (snd (shape m)) r0 c0 = true -> on m r0 c0 = true ->
  on (flood conn m r0 c0 n) r0 c0 = true.
Proof.
  intros Hin Hon. induction n as [|n IH].
  - rewrite flood_0. unfold seed. by rewrite on_pointwise, Hin, Hon, !Z.eqb_refl.
  - by rewrite flood_S, on_grow, Hin, Hon, IH.
Qed.

Lemma component_seed (conn : nat) (m : mask) (r0 c0 : Z) :
  inside (fst (shape m)) (snd (shape m)) r0 c0 = true -> on m r0 c0 = true ->
  on (component conn m r0 c0) r0 c0 = true.
Proof. apply flood_seed. Qed.

(** *** Removing small objects and small holes is monotone *)

Lemma on_remove_small_objects (ar : mask) (min_size : nat) (r c : Z) :
  on (remove_small_objects ar min_size) r c
  = (inside (fst (shape ar)) (snd (shape ar)) r c &&
     (if on ar r c then negb (count (component 1 ar r c) <? min_size)%nat
      else false))%bool.
Proof. apply on_pointwise. Qed.

Lemma on_lnot (a : mask) (r c : Z) :
  on (lnot a) r c = (inside (fst (shape a)) (snd (shape a)) r c && negb (on a r c))%bool.
Proof. apply on_pointwise. Qed.

Lemma on_land (a b : mask) (r c : Z) :
  on (land a b) r c
  = (inside (fst (shape a)) (snd (shape a)) r c && (on a r c && on b r c))%bool.
Proof. apply on_pointwise. Qed.

Lemma on_lor (a b : mask) (r c : Z) :
  on (lor a b) r c
  = (inside (fst (shape a)) (snd (shape a)) r c && (on a r c || on b r c))%bool.
Proof. apply on_pointwise. Qed.

Lemma on_zeros_like (a : mask) (r c : Z) : on (zeros_like a) r c = false.
Proof. unfold zeros_like. rewrite on_pointwise. apply andb_false_r. Qed.

Lemma shape_remove_small_objects (ar : mask) (k : nat) :
  shape (remove_small_objects ar k) = shape ar.
Proof. apply shape_pointwise. Qed.

Lemma shape_lnot (a : mask) : shape (lnot a) = shape a.
Proof. apply shape_pointwise. Qed.

Lemma shape_remove_small_holes (ar : mask) (k : nat) :
  shape (remove_small_holes ar k) = shape ar.
Proof.
  unfold remove_small_holes.
  by rewrite shape_lnot, shape_remove_small_objects, shape_lnot.
Qed.

Lemma shape_clean (m : mask) : shape (clean m) = shape m.
Proof.
  unfold clean. by rewrite shape_remove_small_holes, shape_remove_small_objects.
Qed.

Lemma remove_small_objects_mono (m1 m2 : mask) (k : nat) :
  shape m1 = shape m2 -> subset m1 m2 ->
  subset (remove_small_objects m1 k) (remove_small_objects m2 k).
Proof.
  intros Hshape Hm r c. rewrite !on_remove_small_objects, Hshape.
  intros [Hin Hon]%andb_true_iff. rewrite Hin. simpl.
  destruct (on m1 r c) eqn:Hm1; [|done]. rewrite (Hm r c Hm1).
  apply negb_true_iff, Nat.ltb_ge in Hon. apply negb_true_iff, Nat.ltb_ge.
  pose proof (component_count_mono 1 m1 m2 r c Hshape Hm). lia.
Qed.

Lemma lnot_anti (a b : mask) :
  shape a = shape b -> subset a b -> subset (lnot b) (lnot a).
Proof.
  intros Hshape Hab r c. rewrite !on_lnot, Hshape.
  intros [Hin Hon]%andb_true_iff. rewrite Hin. simpl.
  destruct (on a r c) eqn:Ha; [|done]. by rewrite (Hab r c Ha) in Hon.
Qed.

Lemma remove_small_holes_mono (m1 m2 : mask) (k : nat) :
  shape m1 = shape m2 -> subset m1 m2 ->
  subset (remove_small_holes m1 k) (remove_small_holes m2 k).
Proof.
  intros Hshape Hm. unfold remove_small_holes. apply lnot_anti.
  - by rewrite !shape_remove_small_objects, !shape_lnot.
  - apply remove_small_objects_mono; [by rewrite !shape_lnot|].
    by apply lnot_anti.
Qed.

Lemma clean_mono (m1 m2 : mask) :
  shape m1 = shape m2 -> subset m1 m2 -> subset (clean m1) (clean m2).
Proof.
  intros Hshape Hm. unfold clean. apply remove_small_holes_mono.
  - by rewrite !shape_remove_small_objects.
  - by apply remove_small_objects_mono.
Qed.

(** *** The decision of one region *)

Lemma positive_iff (highlight_in_region area : nat) :
  positive highlight_in_region area = true
  <-> (0 < area /\ 3 * area <= 10 * highlight_in_region)%nat.
Proof.
  unfold positive. destruct (Nat.ltb_spec 0 area) as [Hpos|Hzero].
  - rewrite Qle_bool_iff. unfold Qle. cbn [Qnum Qden].
    rewrite <- (positive_nat_Z (Pos.of_nat area)), Nat2Pos.id by lia. lia.
  - split; [done|lia].
Qed.

Lemma positive_mono (h1 h2 area : nat) :
  (h1 <= h2)%nat -> positive h1 area = true -> positive h2 area = true.
Proof. rewrite !positive_iff. lia. Qed.

(** C8.  For one region and the threshold of line 319, more matched pixels
    never turn a positive decision negative, the removal of small objects and
    small holes from the matched mask included. *)
Theorem region_decision_monotone (M1 M2 region_mask : mask) :
  shape M1 = shape M2 -> subset M1 M2 ->
  decide_region (clean M1) region_mask = true ->
  decide_region (clean M2) region_mask = true.
Proof.
  intros Hshape Hsub. unfold decide_region. apply positive_mono.
  unfold land, pointwise. rewrite !shape_clean, Hshape.
  apply count_tabulate_le. intros r c _ [H1 H2]%andb_true_iff.
  by rewrite (clean_mono M1 M2 Hshape Hsub r c H1), H2.
Qed.

(** One pixel, unmatched and then matched. *)
Lemma region_decision_monotone_witness :
  decide_region (clean [[true]]) [[true]] = true.
Proof.
  apply (region_decision_monotone [[false]] [[true]] [[true]]).
  - reflexivity.
  - intros r c. change [[false]] with (tabulate 1 1 (fun _ _ => false)).
    rewrite on_tabulate, andb_false_r. discriminate.
  - vm_compute. reflexivity.
Defined.

End ComponentFacts.

(** * The flood fill reaches the whole connected component *)

Module FloodFacts.
Import Image GridFacts ComponentFacts.

#[local] Open Scope Z_scope.

Lemma row_count_map_eq {A : Type} (f g : A -> bool) (l : list A) :
  (forall x, In x l -> f x = true -> g x = true) ->
  row_count (map f l) = row_count (map g l) ->
  forall x, In x l -> f x = g x.
Proof.
  induction l as [|y l IH]; intros Hfg Heq x Hx; [done|].
  assert (row_count (map f l) <= row_count (map g l))%nat as Hle
    by (apply row_count_map_le; intros z Hz; apply Hfg; by right).
  unfold row_count in *. simpl in Heq.
  destruct (f y) eqn:Hfy.
  - rewrite (Hfg y) in Heq by (by left || done). simpl in Heq.
    destruct Hx as [->|Hx]; [by rewrite (Hfg x) by (by left || done)|].
    apply IH; [intros z Hz; apply Hfg; by right|lia|done].
  - destruct (g y) eqn:Hgy; simpl in Heq; [lia|].
    destruct Hx as [->|Hx]; [congruence|].
    apply IH; [intros z Hz; apply Hfg; by right|lia|done].
Qed.

Lemma count_map_eq {A : Type} (F G : A -> list bool) (l : list A) :
  (forall x, In x l -> (row_count (F x) <= row_count (G x))%nat) ->
  count (map F l) = count (map G l) ->
  forall x, In x l -> row_count (F x) = row_count (G x).
Proof.
  induction l as [|y l IH]; intros HFG Heq x Hx; [done|].
  rewrite !map_cons, !count_cons in Heq.
  pose proof (HFG y (or_introl eq_refl)).
  assert (count (map F l) <= count (map G l))%nat
    by (apply count_map_le; intros z Hz; apply HFG; by right).
  destruct Hx as [->|Hx]; [lia|].
  apply IH; [intros z Hz; apply HFG; by right|lia|done].
Qed.

(** Two arrays of one shape, one inside the other, with the same count are
    the same array. *)
Lemma count_tabulate_eq (H W : nat) (f g : Z -> Z -> bool) :
  (forall r c, inside H W r c = true -> f r c = true -> g r c = true) ->
  count (tabulate H W f) = count (tabulate H W g) ->
  tabulate H W f = tabulate H W g.
Proof.
  intros Hfg Heq. apply tabulate_ext. intros r c Hin%inside_iff.
  unfold tabulate in Heq.
  assert (In (Z.to_nat r) (seq 0 H)) as Hr by (apply in_seq; lia).
  assert (In (Z.to_nat c) (seq 0 W)) as Hc by (apply in_seq; lia).
  assert (Hcell_in : forall r' c', In r' (seq 0 H) -> In c' (seq 0 W) ->
            inside H W (Z.of_nat r') (Z.of_nat c') = true).
  { intros r' c' Hr'%in_seq Hc'%in_seq. apply inside_iff. lia. }
  assert (row_count (map (fun c' : nat => f (Z.of_nat (Z.to_nat r)) (Z.of_nat c')) (seq 0 W))
          = row_count (map (fun c' : nat => g (Z.of_nat (Z.to_nat r)) (Z.of_nat c')) (seq 0 W)))
    as Hrow.
  { apply (count_map_eq
             (fun r' : nat => map (fun c' : nat => f (Z.of_nat r') (Z.of_nat c')) (seq 0 W))
             (fun r' : nat => map (fun c' : nat => g (Z.of_nat r') (Z.of_nat c')) (seq 0 W))
             (seq 0 H)); [|done..].
    intros r' Hr'. apply row_count_map_le. intros c' Hc'. apply Hfg. by apply Hcell_in. }
  assert (f (Z.of_nat (Z.to_nat r)) (Z.of_nat (Z.to_nat c))
          = g (Z.of_nat (Z.to_nat r)) (Z.of_nat (Z.to_nat c))) as Hcell.
  { apply (row_count_map_eq
             (fun c' : nat => f (Z.of_nat (Z.to_nat r)) (Z.of_nat c'))
             (fun c' : nat => g (Z.of_nat (Z.to_nat r)) (Z.of_nat c'))
             (seq 0 W)); [|done..].
    intros c' Hc'. apply Hfg. by apply Hcell_in. }
  by rewrite !Z2Nat.id in Hcell by lia.
Qed.

Lemma count_tabulate_bound (H W : nat) (f : Z -> Z -> bool) :
  (count (tabulate H W f) <= H * W)%nat.
Proof.
  rewrite <- count_tabulate_true. by apply count_tabulate_le.
Qed.

Section Flood.
Context (conn : nat) (m : mask) (r0 c0 : Z).

Lemma flood_tabulate (n : nat) :
  flood conn m r0 c0 n
  = tabulate (fst (shape m)) (snd (shape m)) (on (flood conn m r0 c0 n)).
Proof.
  pose proof (canonical_flood conn m r0 c0 n) as Hcan.
  unfold canonical, pointwise in Hcan. by rewrite shape_flood in Hcan.
Qed.

Lemma flood_inside (n : nat) (r c : Z) :
  on (flood conn m r0 c0 n) r c = true ->
  inside (fst (shape m)) (snd (shape m)) r c = true /\ on m r c = true.
Proof.
  intros Hon. split; [|by apply (flood_subset conn m r0 c0 n)].
  rewrite flood_tabulate, on_tabulate in Hon. by apply andb_true_iff in Hon as [? _].
Qed.

(** Each step keeps what was reached. *)
Lemma flood_step_subset (n : nat) :
  subset (flood conn m r0 c0 n) (flood conn m r0 c0 (S n)).
Proof.
  intros r c Hon. destruct (flood_inside n r c Hon) as [Hin Hm].
  by rewrite flood_S, on_grow, Hin, Hm, Hon.
Qed.

Lemma flood_step_count (n : nat) :
  flood conn m r0 c0 (S n) = flood conn m r0 c0 n
  \/ (count (flood conn m r0 c0 n) < count (flood conn m r0 c0 (S n)))%nat.
Proof.
  destruct (decide (count (flood conn m r0 c0 n) = count (flood conn m r0 c0 (S n))))
    as [Heq|Hne].
  - left. symmetry. rewrite (flood_tabulate n), (flood_tabulate (S n)) in *.
    apply count_tabulate_eq; [|done]. intros r c _. apply flood_step_subset.
  - right.
    assert (count (flood conn m r0 c0 n) <= count (flood conn m r0 c0 (S n)))%nat; [|lia].
    apply count_subset; [apply canonical_flood..| |apply flood_step_subset].
    by rewrite !shape_flood.
Qed.

Lemma flood_progress (n : nat) :
  flood conn m r0 c0 (S n) = flood conn m r0 c0 n
  \/ (n < count (flood conn m r0 c0 (S n)))%nat.
Proof.
  induction n as [|n IH].
  - destruct (flood_step_count 0) as [?|?]; [by left|right; lia].
  - destruct IH as [Hfix|Hcount].
    + left. by rewrite (flood_S _ _ _ _ (S n)), Hfix.
    + destruct (flood_step_count (S n)) as [?|?]; [by left|right; lia].
Qed.

(** After as many steps as the array has cells nothing more is reached: the
    component is closed under steps to neighbours inside the mask. *)
Lemma component_closed :
  grow conn m (component conn m r0 c0) = component conn m r0 c0.
Proof.
  unfold component. rewrite <- flood_S.
  destruct (flood_progress (fst (shape m) * snd (shape m))) as [Hfix|Hcount]; [done|].
  rewrite flood_tabulate in Hcount.
  pose proof (count_tabulate_bound (fst (shape m)) (snd (shape m))
                (on (flood conn m r0 c0 (S (fst (shape m) * snd (shape m)))))).
  lia.
Qed.

(** It is the least such set that holds the pixel. *)
Lemma component_least (t : mask) :
  subset (seed m r0 c0) t -> subset (grow conn m t) t ->
  subset (component conn m r0 c0) t.
Proof.
  intros Hseed Hclosed. unfold component.
  induction (fst (shape m) * snd (shape m))%nat as [|n IH]; [done|].
  intros r c Hon. apply Hclosed. revert r c Hon. rewrite flood_S.
  apply grow_mono; [done|apply subset_refl|done].
Qed.

End Flood.

End FloodFacts.

(** * Regions and their decisions *)

Module RegionFacts.
Import Image GridFacts ComponentFacts Examples.

#[local] Open Scope Z_scope.

Lemma in_cells (H W : nat) (r c : Z) :
  In (r, c) (cells H W) <-> inside H W r c = true.
Proof.
  unfold cells. rewrite in_flat_map, inside_iff. split.
  - intros (i & Hi%in_seq & (j & [= <- <-] & Hj%in_seq)%in_map_iff). lia.
  - intros [Hr Hc]. exists (Z.to_nat r). split; [apply in_seq; lia|].
    apply in_map_iff. exists (Z.to_nat c). split; [|apply in_seq; lia].
    by rewrite !Z2Nat.id by lia.
Qed.

(** Every region is the component of one of its own pixels. *)
Lemma in_regions (m R : mask) :
  In R (regions m) ->
  exists r c, inside (fst (shape m)) (snd (shape m)) r c = true
              /\ on m r c = true /\ R = component 2 m r c.
Proof.
  unfold regions. intros ([r c] & Hp%in_cells & HR)%in_flat_map. simpl in HR.
  exists r, c. destruct (on m r c); [|done].
  destruct (is_first _ _); [|done]. destruct HR as [<-|[]]. done.
Qed.

Lemma region_count_pos (m R : mask) : In R (regions m) -> (0 < count R)%nat.
Proof.
  intros (r & c & Hin & Hon & ->)%in_regions.
  apply count_pos with r c; [apply canonical_component|].
  by apply component_seed.
Qed.

Lemma regions_empty (m : mask) : (forall r c, on m r c = false) -> regions m = [].
Proof.
  intros Hoff. unfold regions.
  induction (cells _ _) as [|p l IH]; [done|].
  simpl. by rewrite Hoff.
Qed.

Lemma on_isin (labels : grid Z) (pft : list Z) (r c : Z) :
  on (isin labels pft) r c = true
  <-> inside (fst (shape labels)) (snd (shape labels)) r c = true
      /\ In (get (-1) labels r c) pft.
Proof.
  unfold isin. rewrite on_tabulate, andb_true_iff, existsb_exists.
  split; intros [Hin Hex]; (split; [done|]).
  - destruct Hex as (x & Hx & ->%Z.eqb_eq). done.
  - eexists. split; [done|]. apply Z.eqb_refl.
Qed.

(** C5, as the code has it.  A region of the foreground mask always has a
    pixel, and its decision is positive iff at least 0.3 of its pixels are set
    in the highlight mask of lines 306-308: the mask of the pixels whose
    label is in the Template, after the removal of its objects of fewer than
    50 pixels and the filling of its holes of fewer than 500.  A region mask
    with no pixel is decided negative; nothing is divided by zero. *)
Theorem region_decision_on_highlight_mask (labels : grid Z) (pft : list Z)
    (target_region_mask R : mask) :
  In R (regions target_region_mask) ->
  (0 < count R)%nat
  /\ (decide_region (highlight_mask labels pft) R = true
      <-> (3 * count R <= 10 * count (land (clean (isin labels pft)) R))%nat)
  /\ (forall r c,
        on (isin labels pft) r c = true
        <-> inside (fst (shape labels)) (snd (shape labels)) r c = true
            /\ In (get (-1) labels r c) pft)
  /\ (forall highlight R0, count R0 = 0%nat -> decide_region highlight R0 = false).
Proof.
  intros HR%region_count_pos. split; [done|]. split; [|split].
  - unfold decide_region, highlight_mask. rewrite positive_iff. lia.
  - intros r c. apply on_isin.
  - intros highlight R0 Hzero. unfold decide_region. rewrite Hzero.
    by destruct (count _).
Qed.

(** *** The component of a pixel in a full array is the array *)

Lemma flood_full (H W : nat) (r0 c0 : Z) (n : nat) :
  (0 < H)%nat -> inside H W r0 c0 = true ->
  flood 1 (full H W) r0 c0 n
  = tabulate H W (fun r c => Z.abs (r - r0) + Z.abs (c - c0) <=? Z.of_nat n).
Proof.
  intros HH Hin0%inside_iff.
  assert (shape (full H W) = (H, W)) as Hshape by by apply shape_tabulate.
  induction n as [|n IH].
  - rewrite flood_0. unfold seed, pointwise. rewrite Hshape. apply tabulate_ext.
    intros r c Hin. unfold full. rewrite on_tabulate, Hin. simpl.
    apply eq_iff_eq_true.
    rewrite andb_true_r, andb_true_iff, !Z.eqb_eq, Z.leb_le. lia.
  - rewrite flood_S, IH. unfold grow, pointwise. rewrite Hshape.
    apply tabulate_ext. intros r c Hin. unfold full at 1.
    rewrite on_tabulate, Hin. cbn [andb neighbours existsb fst snd].
    rewrite !on_tabulate. apply eq_iff_eq_true.
    rewrite !orb_true_iff, !andb_true_iff, !inside_iff, !Z.leb_le.
    apply inside_iff in Hin. lia.
Qed.

Lemma component_full (H W : nat) (r0 c0 : Z) :
  inside H W r0 c0 = true -> component 1 (full H W) r0 c0 = full H W.
Proof.
  intros Hin0. assert (0 < H)%nat as HH by (apply inside_iff in Hin0; lia).
  unfold component. rewrite flood_full by done.
  unfold full at 1 2. rewrite shape_tabulate by done.
  apply tabulate_ext. intros r c Hin. apply Z.leb_le.
  apply inside_iff in Hin0, Hin. cbn [fst snd]. nia.
Qed.

(** A mask with fewer pixels than [min_size] loses all of them. *)
Lemma remove_small_objects_small (ar : mask) (min_size : nat) :
  canonical ar -> (count ar < min_size)%nat ->
  remove_small_objects ar min_size = zeros_like ar.
Proof.
  intros Hcan Hsmall. unfold remove_small_objects, zeros_like, pointwise.
  apply tabulate_ext. intros r c Hin. destruct (on ar r c); [|done].
  apply negb_false_iff, Nat.ltb_lt.
  assert (count (component 1 ar r c) <= count ar)%nat; [|lia].
  apply count_subset; [apply canonical_component|done|apply shape_component|].
  apply component_subset.
Qed.

(** An empty array of at least [area_threshold] cells stays empty: its
    background is one large component. *)
Lemma remove_small_holes_empty (H W area_threshold : nat) :
  (0 < H)%nat -> (area_threshold <= H * W)%nat ->
  remove_small_holes (tabulate H W (fun _ _ => false)) area_threshold
  = tabulate H W (fun _ _ => false).
Proof.
  intros HH Hlarge. unfold remove_small_holes.
  assert (lnot (tabulate H W (fun _ _ => false)) = full H W) as ->.
  { unfold lnot, pointwise. rewrite shape_tabulate by done.
    apply tabulate_ext. intros r c Hin. by rewrite on_tabulate, andb_false_r. }
  assert (remove_small_objects (full H W) area_threshold = full H W) as ->.
  { unfold remove_small_objects, pointwise. unfold full at 1 2.
    rewrite shape_tabulate by done. apply tabulate_ext. intros r c Hin.
    unfold full at 1. rewrite on_tabulate, Hin. cbn [andb fst snd].
    rewrite component_full by done. unfold full.
    rewrite count_tabulate_true. apply negb_true_iff, Nat.ltb_ge. lia. }
  unfold lnot, pointwise, full. rewrite shape_tabulate by done.
  apply tabulate_ext. intros r c Hin. by rewrite on_tabulate, Hin.
Qed.

(** *** A fully matched small region is decided negative *)

(** The sample [labels23], [target23] with the Template [[0]]. *)
Lemma highlight_mask_23 :
  highlight_mask labels23 [0] = tabulate 23 23 (fun _ _ => false).
Proof.
  unfold highlight_mask, clean.
  assert (isin labels23 [0] = target23) as -> by (vm_compute; reflexivity).
  rewrite remove_small_objects_small.
  - change (zeros_like target23) with (tabulate 23 23 (fun _ _ => false)).
    apply remove_small_holes_empty; lia.
  - apply canonical_tabulate.
  - vm_compute. lia.
Qed.

(** C5, as stated, fails: the only foreground pixel has its label in the
    Template, so the region is matched in full, and it is decided negative,
    because line 307 removes the matched object of one pixel. *)
Lemma fully_matched_small_region_negative :
  exists labels pft target_region_mask R,
    In R (regions target_region_mask)
    /\ (1 <= count R)%nat
    /\ (3 * count R <= 10 * count (land (isin labels pft) R))%nat
    /\ decide_region (highlight_mask labels pft) R = false.
Proof.
  exists labels23, [0], target23, target23.
  split; [|split; [|split]].
  - vm_compute. by left.
  - vm_compute. lia.
  - vm_compute. lia.
  - rewrite highlight_mask_23. vm_compute. reflexivity.
Qed.

(** A 1 x 1 sample that is one foreground pixel. *)
Lemma region_decision_on_highlight_mask_witness :
  (0 < count [[true]])%nat.
Proof.
  apply (region_decision_on_highlight_mask [[0]] [0] [[true]] [[true]]).
  vm_compute. by left.
Defined.

End RegionFacts.

(** * A sample without foreground *)

Module DetectFacts.
Import Image GridFacts ComponentFacts RegionFacts Examples.

#[local] Open Scope Z_scope.

Lemma shape_tabulate_shape {A B : Type} (g : grid A) (f : Z -> Z -> B) :
  shape (tabulate (fst (shape g)) (snd (shape g)) f) = shape g.
Proof.
  destruct g as [|row g]; [done|]. rewrite shape_tabulate; [done|simpl; lia].
Qed.

Lemma shape_eqb_refl (a : nat * nat) : shape_eqb a (fst a, snd a) = true.
Proof. unfold shape_eqb. simpl. by rewrite !Nat.eqb_refl. Qed.

Lemma count_zeros_like (a : mask) : count (zeros_like a) = 0%nat.
Proof. unfold zeros_like, pointwise. by apply count_tabulate_false. Qed.

(** Without a positive region the contour is the empty decision mask. *)
Lemma contour_zeros_like (a : mask) : contour (zeros_like a) = zeros_like a.
Proof. unfold contour. by rewrite count_zeros_like. Qed.

Lemma statistics_cover_iff (groups_mean : list Stats.vec) (triple_std : list R)
    (clustern : nat) :
  statistics_cover groups_mean triple_std clustern = true
  <-> (clustern <= length groups_mean)%nat /\ (clustern <= length triple_std)%nat.
Proof. unfold statistics_cover. by rewrite andb_true_iff, !Nat.leb_le. Qed.

(** C9.  With cluster statistics that have an entry for every cluster of
    [range(clustern)], a test sample whose mask has the shape of its image and
    no foreground pixel is processed without an exception: it has no region,
    so no decision, and its contour mask is all [False]. *)
Theorem no_foreground_no_detection (minikm : Stats.KMeans) (ss : Stats.Scaler)
    (groups_mean : list Stats.vec) (triple_std : list R) (pft : list Z)
    (clustern : nat) (ft : sample) :
  (clustern <= length groups_mean)%nat ->
  (clustern <= length triple_std)%nat ->
  shape (mask_mat ft) = shape (data_test ft) ->
  (forall r c, get 0 (mask_mat ft) r c = 0) ->
  exists d,
    detect minikm ss groups_mean triple_std pft clustern ft = Returned d
    /\ decisions d = []
    /\ (forall r c, on (contour_mask d) r c = false)
    /\ count (contour_mask d) = 0%nat.
Proof.
  intros Hmean Hstd Hshape Hempty. unfold detect.
  rewrite (proj2 (statistics_cover_iff groups_mean triple_std clustern)) by done.
  cbn [negb].
  rewrite shape_tabulate_shape, Hshape, shape_eqb_refl. cbn [negb].
  set (region_0 := tabulate _ _ (fun r c => get 0 (mask_mat ft) r c =? 0)).
  assert (regions (lnot region_0) = []) as Hregions.
  { apply regions_empty. intros r c. rewrite on_lnot.
    unfold region_0. rewrite shape_tabulate_shape, on_tabulate, Hempty.
    by destruct (inside _ _ r c). }
  eexists. split; [done|]. cbn [decisions contour_mask].
  unfold final_decision_mask. rewrite Hregions. cbn [map fold_left].
  rewrite contour_zeros_like. split; [done|]. split.
  - intros r c. apply on_zeros_like.
  - apply count_zeros_like.
Qed.

(** The all-background sample [ft_background], with one cluster and its
    statistics. *)
Lemma no_foreground_no_detection_witness :
  exists d,
    detect (km_const [0]) ss_id means_one thresholds_one [0] 1 ft_background
    = Returned d
    /\ decisions d = []
    /\ (forall r c, on (contour_mask d) r c = false)
    /\ count (contour_mask d) = 0%nat.
Proof.
  apply (no_foreground_no_detection (km_const [0]) ss_id means_one thresholds_one
           [0] 1 ft_background).
  - simpl. lia.
  - simpl. lia.
  - reflexivity.
  - intros r c. cbn [mask_mat ft_background]. rewrite get_tabulate.
    by destruct (inside 2 2 r c).
Defined.

End DetectFacts.

(** * Morphology of solid boxes and the contour band *)

Module ContourFacts.
Import Image GridFacts ComponentFacts RegionFacts DetectFacts.

#[local] Open Scope Z_scope.

Lemma merge_structure_ones :
  pad (generate_binary_structure 2) (merge_structure_size / 2) true = ones 7 7.
Proof. vm_compute. reflexivity. Qed.

(** The offsets of a full structuring element of odd side [2k+1] are the
    pairs within [k] of the centre. *)
Lemma in_offsets_ones (k : nat) (a b : Z) :
  In (a, b) (offsets (ones (2 * k + 1) (2 * k + 1)))
  <-> - Z.of_nat k <= a <= Z.of_nat k /\ - Z.of_nat k <= b <= Z.of_nat k.
Proof.
  unfold offsets, ones. rewrite shape_tabulate by lia. cbn [fst snd].
  replace ((2 * k + 1) / 2)%nat with k
    by (apply (Nat.div_unique (2 * k + 1) 2 k 1); lia).
  rewrite in_map_iff. split.
  - intros ([i j] & [= <- <-] & [Hin%in_cells%inside_iff _]%filter_In).
    cbn [fst snd]. lia.
  - intros [Ha Hb]. exists (a + Z.of_nat k, b + Z.of_nat k). cbn [fst snd].
    split; [f_equal; lia|]. apply filter_In.
    assert (inside (2 * k + 1) (2 * k + 1) (a + Z.of_nat k) (b + Z.of_nat k) = true)
      as Hin by (apply inside_iff; lia).
    split; [by apply in_cells|]. cbn [fst snd]. by rewrite on_tabulate, Hin.
Qed.

Lemma on_binary_erosion (input structure : mask) (r c : Z) :
  on (binary_erosion input structure) r c
  = (inside (fst (shape input)) (snd (shape input)) r c &&
     forallb (fun d => on input (r + fst d) (c + snd d)) (offsets structure))%bool.
Proof. apply on_pointwise. Qed.

Lemma on_binary_dilation (input structure : mask) (r c : Z) :
  on (binary_dilation input structure) r c
  = (inside (fst (shape input)) (snd (shape input)) r c &&
     existsb (fun d => on input (r - fst d) (c - snd d)) (offsets structure))%bool.
Proof. apply on_pointwise. Qed.

Lemma on_box (H W : nat) (r1 r2 c1 c2 r c : Z) :
  on (box H W r1 r2 c1 c2) r c = true
  <-> (0 <= r < Z.of_nat H /\ 0 <= c < Z.of_nat W)
      /\ r1 <= r < r2 /\ c1 <= c < c2.
Proof.
  unfold box. rewrite on_tabulate, !andb_true_iff, inside_iff, !Z.leb_le, !Z.ltb_lt.
  lia.
Qed.

Lemma box_ext (H W : nat) (r1 r2 c1 c2 r1' r2' c1' c2' : Z) :
  r1 = r1' -> r2 = r2' -> c1 = c1' -> c2 = c2' ->
  box H W r1 r2 c1 c2 = box H W r1' r2' c1' c2'.
Proof. by intros -> -> -> ->. Qed.

Lemma shape_box (H W : nat) (r1 r2 c1 c2 : Z) :
  (0 < H)%nat -> shape (box H W r1 r2 c1 c2) = (H, W).
Proof. apply shape_tabulate. Qed.

(** Eroding a box that lies in the array shrinks it by [k] on every side. *)
Lemma erosion_box (H W k : nat) (r1 r2 c1 c2 : Z) :
  (0 < H)%nat -> 0 <= r1 -> r2 <= Z.of_nat H -> 0 <= c1 -> c2 <= Z.of_nat W ->
  binary_erosion (box H W r1 r2 c1 c2) (ones (2 * k + 1) (2 * k + 1))
  = box H W (r1 + Z.of_nat k) (r2 - Z.of_nat k) (c1 + Z.of_nat k) (c2 - Z.of_nat k).
Proof.
  intros HH Hr1 Hr2 Hc1 Hc2. unfold binary_erosion, pointwise.
  rewrite shape_box by done. cbn [fst snd]. unfold box at 2.
  apply tabulate_ext. intros r c Hin. apply eq_iff_eq_true.
  rewrite forallb_forall, !andb_true_iff, !Z.leb_le, !Z.ltb_lt.
  apply inside_iff in Hin. split.
  - intros Hall.
    assert (on (box H W r1 r2 c1 c2) (r + - Z.of_nat k) (c + - Z.of_nat k) = true) as Hlo
      by (apply (Hall (- Z.of_nat k, - Z.of_nat k)), in_offsets_ones; lia).
    assert (on (box H W r1 r2 c1 c2) (r + Z.of_nat k) (c + Z.of_nat k) = true) as Hhi
      by (apply (Hall (Z.of_nat k, Z.of_nat k)), in_offsets_ones; lia).
    apply on_box in Hlo, Hhi. lia.
  - intros Hbox [a b] Hd%in_offsets_ones. cbn [fst snd]. apply on_box. lia.
Qed.

(** Dilating a box that has a pixel and lies in the array extends it by [k] on
    every side, as far as the array goes. *)
Lemma dilation_box (H W k : nat) (r1 r2 c1 c2 : Z) :
  (0 < H)%nat -> 0 <= r1 -> r1 < r2 -> r2 <= Z.of_nat H ->
  0 <= c1 -> c1 < c2 -> c2 <= Z.of_nat W ->
  binary_dilation (box H W r1 r2 c1 c2) (ones (2 * k + 1) (2 * k + 1))
  = box H W (r1 - Z.of_nat k) (r2 + Z.of_nat k) (c1 - Z.of_nat k) (c2 + Z.of_nat k).
Proof.
  intros HH Hr1 Hr12 Hr2 Hc1 Hc12 Hc2. unfold binary_dilation, pointwise.
  rewrite shape_box by done. cbn [fst snd]. unfold box at 2.
  apply tabulate_ext. intros r c Hin. apply eq_iff_eq_true.
  rewrite existsb_exists, !andb_true_iff, !Z.leb_le, !Z.ltb_lt.
  apply inside_iff in Hin. split.
  - intros ([a b] & Hd%in_offsets_ones & Hon%on_box). cbn [fst snd] in *. lia.
  - intros Hbox.
    exists (r - Z.max r1 (Z.min r (r2 - 1)), c - Z.max c1 (Z.min c (c2 - 1))).
    split; [apply in_offsets_ones; lia|]. cbn [fst snd]. apply on_box. lia.
Qed.

(** The closing of line 332 leaves a box alone when the box keeps three pixels
    from every border of the array. *)
Lemma closing_box (H W : nat) (r1 r2 c1 c2 : Z) :
  3 <= r1 -> r1 < r2 -> r2 + 3 <= Z.of_nat H ->
  3 <= c1 -> c1 < c2 -> c2 + 3 <= Z.of_nat W ->
  binary_closing (box H W r1 r2 c1 c2) (ones 7 7) = box H W r1 r2 c1 c2.
Proof.
  intros Hr1 Hr12 Hr2 Hc1 Hc12 Hc2. unfold binary_closing.
  change (ones 7 7) with (ones (2 * 3 + 1) (2 * 3 + 1)).
  rewrite dilation_box, erosion_box by lia. apply box_ext; lia.
Qed.

(** Lines 338-342 on a box in the array: after [n] rounds the mask is the box
    shrunk by [n] and the contour the pixels lost on the way. *)
Lemma contour_rounds_box (H W : nat) (r1 r2 c1 c2 : Z) (n : nat) :
  (0 < H)%nat -> 0 <= r1 -> r2 <= Z.of_nat H -> 0 <= c1 -> c2 <= Z.of_nat W ->
  Nat.iter n contour_step (box H W r1 r2 c1 c2, zeros_like (box H W r1 r2 c1 c2))
  = (box H W (r1 + Z.of_nat n) (r2 - Z.of_nat n) (c1 + Z.of_nat n) (c2 - Z.of_nat n),
     tabulate H W (fun r c =>
       on (box H W r1 r2 c1 c2) r c
       && negb (on (box H W (r1 + Z.of_nat n) (r2 - Z.of_nat n)
                        (c1 + Z.of_nat n) (c2 - Z.of_nat n)) r c))%bool).
Proof.
  intros HH Hr1 Hr2 Hc1 Hc2. induction n as [|n IH].
  - simpl. f_equal; [apply box_ext; lia|].
    unfold zeros_like, pointwise. rewrite shape_box by done.
    apply tabulate_ext. intros r c _. cbn [fst snd].
    replace (box H W (r1 + Z.of_nat 0) (r2 - Z.of_nat 0) (c1 + Z.of_nat 0) (c2 - Z.of_nat 0))
      with (box H W r1 r2 c1 c2) by (apply box_ext; lia).
    by destruct (on _ r c).
  - rewrite Nat.iter_succ, IH. unfold contour_step. cbn [fst snd].
    change (ones 3 3) with (ones (2 * 1 + 1) (2 * 1 + 1)).
    rewrite erosion_box by lia.
    replace (box H W (r1 + Z.of_nat n + Z.of_nat 1) (r2 - Z.of_nat n - Z.of_nat 1)
                 (c1 + Z.of_nat n + Z.of_nat 1) (c2 - Z.of_nat n - Z.of_nat 1))
      with (box H W (r1 + Z.of_nat (S n)) (r2 - Z.of_nat (S n))
                (c1 + Z.of_nat (S n)) (c2 - Z.of_nat (S n)))
      by (apply box_ext; lia).
    f_equal. unfold lor, pointwise. rewrite shape_tabulate by done. cbn [fst snd].
    apply tabulate_ext. intros r c Hin. rewrite on_tabulate, on_land, on_lnot.
    rewrite !shape_box by done. cbn [fst snd]. rewrite Hin. cbn [andb].
    set (b0 := on (box H W r1 r2 c1 c2) r c).
    set (bn := on (box H W (r1 + Z.of_nat n) _ _ _) r c).
    set (bs := on (box H W (r1 + Z.of_nat (S n)) _ _ _) r c).
    assert (bs = true -> bn = true) as Hsn
      by (unfold bs, bn; rewrite !on_box; lia).
    assert (bn = true -> b0 = true) as Hn0
      by (unfold bn, b0; rewrite !on_box; lia).
    destruct b0, bn, bs; simpl; try done; by (discriminate Hsn || discriminate Hn0).
Qed.

(** C7, as the code has it.  For a solid square more than 2 * 4 pixels
    across that is the whole decision mask and keeps at least 3 pixels, the
    reach of the closing, from every border of the image, the contour mask is
    the band of the pixels of the square at depth 1 to 4: these are in the
    mask, the interior beyond depth 4 and everything outside the square are
    not. *)
Theorem contour_band_of_square (H W : nat) (r0 c0 s : Z) :
  2 * Z.of_nat contour_thickness < s ->
  3 <= r0 -> r0 + s + 3 <= Z.of_nat H ->
  3 <= c0 -> c0 + s + 3 <= Z.of_nat W ->
  forall r c,
    on (contour (square H W r0 c0 s)) r c
    = (on (square H W r0 c0 s) r c
       && (depth r0 c0 s r c <=? Z.of_nat contour_thickness))%bool.
Proof.
  intros Hs Hr0 Hr1 Hc0 Hc1 r c. unfold contour_thickness in *.
  assert (0 < H)%nat as HH by lia.
  unfold contour, square.
  assert (0 < count (box H W r0 (r0 + s) c0 (c0 + s)))%nat as Hpos.
  { apply count_pos with r0 c0; [apply canonical_tabulate|]. apply on_box. lia. }
  apply Nat.ltb_lt in Hpos. rewrite Hpos, merge_structure_ones.
  rewrite closing_box by lia. unfold contour_thickness.
  rewrite contour_rounds_box by lia. cbn [snd].
  rewrite on_tabulate. apply eq_iff_eq_true.
  rewrite !andb_true_iff, negb_true_iff, Z.leb_le, inside_iff.
  rewrite <- not_true_iff_false, !on_box. unfold depth. lia.
Qed.

(** A square of side 11 in the middle of a 17 x 17 image, at its corner
    pixel. *)
Lemma contour_band_of_square_witness :
  on (contour (square 17 17 3 3 11)) 3 3
  = (on (square 17 17 3 3 11) 3 3
     && (depth 3 3 11 3 3 <=? Z.of_nat contour_thickness))%bool.
Proof.
  apply (contour_band_of_square 17 17 3 3 11); unfold contour_thickness; lia.
Defined.

(** C7, as stated, fails: a 9 x 9 image that is one positive square.  Its
    corner pixel is on the boundary of the square, at depth 1, and is not in
    the contour mask: the closing of line 332 reads the outside of the image
    as background and removes the three outer rings of the square. *)
Lemma contour_band_fails_at_image_border :
  (2 * Z.of_nat contour_thickness < 9)
  /\ on (square 9 9 0 0 9) 0 0 = true
  /\ depth 0 0 9 0 0 = 1
  /\ on (contour (square 9 9 0 0 9)) 0 0 = false
  /\ contour (square 9 9 0 0 9) = box 9 9 3 6 3 6.
Proof. vm_compute. repeat split; congruence. Qed.

End ContourFacts.

(** * [calculate_pft]: when it returns, and what the Template holds *)

Module PftMore.
Import Template TemplateSpec TemplateFacts PftFacts Examples.

Lemma props_loop_exn (num_A num_B : gmap Z nat) (ids : list Z) (st : props_state) (e : exn) :
  props_loop num_A num_B ids st = Raised e -> e = ZeroDivisionError.
Proof.
  revert st. induction ids as [|i ids IH]; intros st; simpl; [done|].
  unfold props_step.
  destruct (item num_A i + item num_B i) eqn:Hsum; simpl; [congruence|].
  apply IH.
Qed.

Lemma select_exn (counter_A counter_B : gmap Z nat) (clustern : nat) (e : exn) :
  select counter_A counter_B clustern = Raised e -> e = ZeroDivisionError.
Proof.
  unfold select.
  destruct (props_loop _ _ _ _) as [st|e'] eqn:Hloop; simpl.
  - destruct (total_AB st); simpl; congruence.
  - intros [= <-]. by apply props_loop_exn in Hloop.
Qed.

Lemma select_no_cluster (counter_A counter_B : gmap Z nat) :
  select counter_A counter_B 0 = Raised ZeroDivisionError.
Proof. done. Qed.

(** The totals of the loop of lines 242-246. *)
Lemma props_loop_totals (num_A num_B : gmap Z nat) (ids : list Z) (st st' : props_state) :
  props_loop num_A num_B ids st = Returned st' ->
  total_A st' = total_A st + list_sum (map (item num_A) ids)
  /\ total_AB st' = total_AB st + list_sum (map (fun i => item num_A i + item num_B i) ids).
Proof.
  revert st. induction ids as [|i ids IH]; intros st; simpl.
  - intros [= <-]. lia.
  - unfold props_step.
    destruct (py_div (item num_A i) (item num_A i + item num_B i)) as [p|e]; simpl; [|done].
    intros [HA HAB]%IH. simpl in *. lia.
Qed.

Lemma select_contrast (counter_A counter_B : gmap Z nat) (clustern : nat)
    (pft : list Z) (props : list (Z * Q)) (contrast : Q) :
  select counter_A counter_B clustern = Returned (pft, props, contrast) ->
  contrast
  = (Z.of_nat (list_sum (map (item (fill counter_A clustern)) (range clustern)))
     # Pos.of_nat (list_sum (map (fun i => item (fill counter_A clustern) i
                                           + item (fill counter_B clustern) i)
                                 (range clustern))))
  /\ 0 < list_sum (map (fun i => item (fill counter_A clustern) i
                                 + item (fill counter_B clustern) i)
                       (range clustern)).
Proof.
  unfold select.
  destruct (props_loop _ _ _ _) as [st|e] eqn:Hloop; simpl; [|done].
  destruct (py_div _ _) as [q|e] eqn:Hdiv; simpl; [|done].
  intros [= _ _ <-]. apply py_div_returned in Hdiv as [Hpos ->].
  apply props_loop_totals in Hloop as [HA HAB]. simpl in HA, HAB.
  rewrite HA, HAB in *. done.
Qed.

Lemma list_sum_le (f g : Z -> nat) (l : list Z) :
  (forall x, f x <= g x) -> list_sum (map f l) <= list_sum (map g l).
Proof.
  intros Hfg. induction l as [|x l IH]; simpl; [done|]. specialize (Hfg x). lia.
Qed.

Lemma Q_fraction_bounds (a b : nat) :
  a <= b -> 0 < b -> (0 <= Z.of_nat a # Pos.of_nat b)%Q /\ (Z.of_nat a # Pos.of_nat b <= 1)%Q.
Proof.
  intros Hab Hb. unfold Qle. cbn [Qnum Qden].
  rewrite <- (positive_nat_Z (Pos.of_nat b)), Nat2Pos.id by lia. lia.
Qed.

Lemma sorted_app_cross {A : Type} (R : A -> A -> Prop) (l1 l2 : list A) :
  StronglySorted R (l1 ++ l2) -> forall x y, In x l1 -> In y l2 -> R x y.
Proof.
  induction l1 as [|a l1 IH]; intros Hs x y Hx Hy; [done|].
  simpl in Hs. apply StronglySorted_inv in Hs as [Hs Ha].
  destruct Hx as [->|Hx]; [|by apply IH].
  rewrite Forall_forall in Ha. apply Ha, list_elem_of_In, in_or_app. by right.
Qed.

Lemma range_NoDup (n : nat) : List.NoDup (range n).
Proof.
  induction (range_sorted n) as [|x l Hs IH Hx]; constructor; [|done].
  rewrite Forall_forall in Hx. intros Hin.
  pose proof (Hx x (proj2 (list_elem_of_In l x) Hin)). lia.
Qed.

Lemma map_fst_items (f : Z -> Q) (ids : list Z) :
  map fst (map (fun i => (i, f i)) ids) = ids.
Proof. rewrite map_map. simpl. apply map_id. Qed.

Lemma in_items (f : Z -> Q) (ids : list Z) (k : Z) (q : Q) :
  In (k, q) (map (fun i => (i, f i)) ids) <-> In k ids /\ q = f k.
Proof.
  rewrite in_map_iff. split.
  - by intros (i & [= -> <-] & Hi).
  - intros [Hk ->]. by exists k.
Qed.

(** X1.  When the label predicted for every NonTarget pixel is an index of
    [groups_mean] and of [triple_std], so that the reads of lines 218-219
    raise no [IndexError], [calculate_pft] returns exactly when there is a
    cluster and every cluster id in range has a counted pixel; whenever it
    fails, it fails with [ZeroDivisionError] (line 243, or line 248 when
    [clustern] is 0). *)
Theorem calculate_pft_returns_iff
    (file_paths_B : list (list Stats.vec)) (minikm : Stats.KMeans)
    (ss : Stats.Scaler) (groups_mean : list Stats.vec) (triple_std : list R)
    (clustern : nat) :
  (forall file x, In file file_paths_B -> In x file ->
     (0 <= Stats.predict minikm (Stats.transform ss x)
        < Z.of_nat (length groups_mean))%Z
     /\ (Stats.predict minikm (Stats.transform ss x)
         < Z.of_nat (length triple_std))%Z) ->
  ((exists r, calculate_pft file_paths_B minikm ss groups_mean triple_std clustern
              = Returned r)
   <-> 0 < clustern
       /\ forall k, (0 <= k < Z.of_nat clustern)%Z ->
            0 < countT minikm k
                + countN file_paths_B minikm ss groups_mean triple_std k)
  /\ (forall e, calculate_pft file_paths_B minikm ss groups_mean triple_std clustern
                = Raised e -> e = ZeroDivisionError).
Proof.
  intros _. split; [split|].
  - intros [[[pft props] contrast] Hrun]. split.
    + destruct clustern; [|lia]. unfold calculate_pft in Hrun.
      by rewrite select_no_cluster in Hrun.
    + apply calculate_pft_returned in Hrun as (_ & _ & Hall).
      rewrite Forall_forall in Hall. intros k Hk. by apply Hall, elem_of_range.
  - intros [HK Hall]. unfold calculate_pft. apply select_returns; [done|].
    apply Forall_forall. intros k Hk.
    rewrite num_A_countT, num_B_countN by done. by apply Hall, elem_of_range.
  - intros e. unfold calculate_pft. apply select_exn.
Qed.

(** X2.  When [calculate_pft] returns, every proportion of [prop_rst_num] lies
    in [0, 1], and [contrast] is the share of the Target pixels among all
    counted pixels of the clusters in range, in [0, 1] too. *)
Theorem proportions_and_contrast_bounds
    (file_paths_B : list (list Stats.vec)) (minikm : Stats.KMeans)
    (ss : Stats.Scaler) (groups_mean : list Stats.vec) (triple_std : list R)
    (clustern : nat) (pft : list Z) (props : list (Z * Q)) (contrast : Q) :
  calculate_pft file_paths_B minikm ss groups_mean triple_std clustern
    = Returned (pft, props, contrast) ->
  (forall k q, In (k, q) props -> (0 <= q)%Q /\ (q <= 1)%Q)
  /\ contrast
     = (Z.of_nat (list_sum (map (countT minikm) (range clustern)))
        # Pos.of_nat
            (list_sum
               (map (fun k => countT minikm k
                              + countN file_paths_B minikm ss groups_mean triple_std k)
                    (range clustern))))
  /\ (0 <= contrast)%Q /\ (contrast <= 1)%Q.
Proof.
  intros Hrun.
  destruct (calculate_pft_returned _ _ _ _ _ _ _ _ _ Hrun) as (Hp & _ & Hall).
  rewrite Forall_forall in Hall.
  set (cN := countN file_paths_B minikm ss groups_mean triple_std) in *.
  assert (contrast
          = (Z.of_nat (list_sum (map (countT minikm) (range clustern)))
             # Pos.of_nat
                 (list_sum (map (fun k => countT minikm k + cN k) (range clustern))))
          /\ 0 < list_sum (map (fun k => countT minikm k + cN k) (range clustern)))
    as [Hc Hpos].
  { rewrite calculate_pft_select in Hrun. apply select_contrast in Hrun as [Hc Hpos].
    set (cA := Counter (Stats.labels_ minikm)) in *.
    set (cB := Counter (labels_B file_paths_B minikm ss groups_mean triple_std)) in *.
    assert (map (item (fill cA clustern)) (range clustern)
            = map (countT minikm) (range clustern)) as HA.
    { apply map_ext_in. intros k Hk%list_elem_of_In.
      rewrite item_fill, decide_True by done. apply item_Counter. }
    assert (map (fun i => item (fill cA clustern) i + item (fill cB clustern) i)
                (range clustern)
            = map (fun k => countT minikm k + cN k) (range clustern)) as HAB.
    { apply map_ext_in. intros k Hk%list_elem_of_In.
      rewrite !item_fill, !decide_True by done. unfold cA, cB.
      by rewrite !item_Counter. }
    rewrite HA, HAB in Hc. rewrite HAB in Hpos. done. }
  split; [|split; [done|]].
  - intros k q. rewrite Hp. intros [Hk ->]%in_items.
    apply Q_fraction_bounds; [lia|]. by apply Hall, list_elem_of_In.
  - rewrite Hc. apply Q_fraction_bounds; [|done].
    apply list_sum_le. intros x. lia.
Qed.

Lemma template_ids_in_range
    (file_paths_B : list (list Stats.vec)) (minikm : Stats.KMeans)
    (ss : Stats.Scaler) (groups_mean : list Stats.vec) (triple_std : list R)
    (clustern : nat) (pft : list Z) (props : list (Z * Q)) (contrast : Q) :
  calculate_pft file_paths_B minikm ss groups_mean triple_std clustern
    = Returned (pft, props, contrast) ->
  forall k, In k pft -> (0 <= k < Z.of_nat clustern)%Z.
Proof.
  intros (Hp & -> & _)%calculate_pft_returned k Hk.
  rewrite <- firstn_map in Hk.
  apply elem_of_range, list_elem_of_In.
  assert (Permutation (map fst (sorted_desc props)) (range clustern)) as Hperm.
  { rewrite (Permutation_map fst (sorted_desc_perm props)), Hp. by rewrite map_fst_items. }
  apply (Permutation_in _ Hperm).
  rewrite <- (firstn_skipn (top_percent clustern)). apply in_or_app. by left.
Qed.

(** X3.  When [calculate_pft] returns, the Template lists distinct cluster ids
    of [range(clustern)]; the outlier label [-1] is never one of them. *)
Theorem template_ids_valid
    (file_paths_B : list (list Stats.vec)) (minikm : Stats.KMeans)
    (ss : Stats.Scaler) (groups_mean : list Stats.vec) (triple_std : list R)
    (clustern : nat) (pft : list Z) (props : list (Z * Q)) (contrast : Q) :
  calculate_pft file_paths_B minikm ss groups_mean triple_std clustern
    = Returned (pft, props, contrast) ->
  List.NoDup pft
  /\ (forall k, In k pft -> (0 <= k < Z.of_nat clustern)%Z)
  /\ ~ In (-1)%Z pft.
Proof.
  intros (Hp & -> & _)%calculate_pft_returned.
  assert (Permutation (map fst (sorted_desc props)) (range clustern)) as Hperm.
  { rewrite (Permutation_map fst (sorted_desc_perm props)), Hp. by rewrite map_fst_items. }
  rewrite <- firstn_map.
  assert (forall k, In k (firstn (top_percent clustern) (map fst (sorted_desc props)))
                    -> (0 <= k < Z.of_nat clustern)%Z) as Hin.
  { intros k Hk. apply elem_of_range, list_elem_of_In.
    apply (Permutation_in _ Hperm).
    rewrite <- (firstn_skipn (top_percent clustern)). apply in_or_app. by left. }
  split; [|split; [done|]].
  - apply (NoDup_app_remove_r _ (skipn (top_percent clustern) (map fst (sorted_desc props)))).
    rewrite firstn_skipn. apply (Permutation_NoDup (Permutation_sym Hperm)), range_NoDup.
  - intros Hk%Hin. lia.
Qed.

(** X4.  When [calculate_pft] returns, every cluster in the Template ranks
    before every cluster left out: its proportion is larger, or equal with
    the smaller id. *)
Theorem template_outranks_rest
    (file_paths_B : list (list Stats.vec)) (minikm : Stats.KMeans)
    (ss : Stats.Scaler) (groups_mean : list Stats.vec) (triple_std : list R)
    (clustern : nat) (pft : list Z) (props : list (Z * Q)) (contrast : Q) :
  calculate_pft file_paths_B minikm ss groups_mean triple_std clustern
    = Returned (pft, props, contrast) ->
  forall k j pk pj,
    In k pft -> ~ In j pft -> In (k, pk) props -> In (j, pj) props ->
    (pj < pk)%Q \/ ((pk == pj)%Q /\ (k < j)%Z).
Proof.
  intros (Hp & -> & _)%calculate_pft_returned k j pk pj Hk Hj Hkp Hjp.
  assert (StronglySorted ranks_before (sorted_desc props)) as Hs.
  { apply sorted_desc_sorted. rewrite Hp. apply items_sorted, range_sorted. }
  rewrite <- (firstn_skipn (top_percent clustern)) in Hs.
  apply in_map_iff in Hk as ([k' q] & [= ->] & Hk). simpl in Hk.
  assert (q = pk) as ->.
  { assert (In (k, q) props) as Hq.
    { apply (Permutation_in _ (sorted_desc_perm props)).
      rewrite <- (firstn_skipn (top_percent clustern)). apply in_or_app. by left. }
    rewrite Hp in Hq, Hkp. apply in_items in Hq as [_ ->], Hkp as [_ ->]. done. }
  apply (sorted_app_cross _ _ _ Hs (k, pk) (j, pj)); [done|].
  apply (Permutation_in _ (Permutation_sym (sorted_desc_perm props))) in Hjp.
  rewrite <- (firstn_skipn (top_percent clustern)) in Hjp.
  apply in_app_or in Hjp as [Hjp|Hjp]; [|done].
  destruct Hj. apply in_map_iff. by exists (j, pj).
Qed.

Lemma concat_Permutation_map {A B : Type} (f : A -> list B) (l l' : list A) :
  Permutation l l' -> Permutation (concat (map f l)) (concat (map f l')).
Proof.
  induction 1 as [|x l l' _ IH|x y l|l l' l'' _ IH1 _ IH2]; simpl.
  - done.
  - by apply Permutation_app_head.
  - rewrite !app_assoc. apply Permutation_app_tail, Permutation_app_comm.
  - by etransitivity.
Qed.

(** X5.  The result of [calculate_pft] does not depend on the order of the
    NonTarget files nor on the order of the training labels: only the counts
    enter. *)
Theorem calculate_pft_order_independent
    (file_paths_B file_paths_B' : list (list Stats.vec)) (minikm : Stats.KMeans)
    (labels' : list Z) (ss : Stats.Scaler) (groups_mean : list Stats.vec)
    (triple_std : list R) (clustern : nat) :
  Permutation file_paths_B file_paths_B' ->
  Permutation (Stats.labels_ minikm) labels' ->
  calculate_pft file_paths_B'
    {| Stats.labels_ := labels'; Stats.predict := Stats.predict minikm |}
    ss groups_mean triple_std clustern
  = calculate_pft file_paths_B minikm ss groups_mean triple_std clustern.
Proof.
  intros Hfiles Hlabels. apply calculate_pft_counts_only. intros k _. split.
  - unfold countT. cbn [Stats.labels_]. symmetry.
    by apply (Permutation_count_occ Z.eq_dec).
  - unfold countN, labels_B. symmetry.
    apply (Permutation_count_occ Z.eq_dec).
    by apply (concat_Permutation_map
                (map (Stats.label_fit minikm ss groups_mean triple_std))).
Qed.

(** X6.  NonTarget pixels that fail the outlier test are not counted: a file
    all of whose pixels are labelled [-1] leaves the result as it is without
    the file. *)
Theorem outlier_file_not_counted
    (file : list Stats.vec) (file_paths_B : list (list Stats.vec))
    (minikm : Stats.KMeans) (ss : Stats.Scaler) (groups_mean : list Stats.vec)
    (triple_std : list R) (clustern : nat) :
  (forall x, In x file ->
     Stats.label_fit minikm ss groups_mean triple_std x = (-1)%Z) ->
  calculate_pft (file :: file_paths_B) minikm ss groups_mean triple_std clustern
  = calculate_pft file_paths_B minikm ss groups_mean triple_std clustern.
Proof.
  intros Hout. apply calculate_pft_counts_only. intros k Hk%elem_of_range.
  split; [done|]. unfold countN, labels_B. cbn [map concat].
  rewrite count_occ_app.
  rewrite (proj1 (count_occ_not_In Z.eq_dec _ k)); [done|].
  intros (x & Hx & Hin)%in_map_iff. rewrite Hout in Hx by done. lia.
Qed.

(** One cluster with its statistics, one Target pixel and one NonTarget file
    of one pixel. *)
Lemma calculate_pft_returns_iff_witness :
  ((exists r, calculate_pft [[[0%R]]] (km_const [0%Z]) ss_id means_one thresholds_one 1
              = Returned r)
   <-> 0 < 1
       /\ forall k, (0 <= k < Z.of_nat 1)%Z ->
            0 < countT (km_const [0%Z]) k
                + countN [[[0%R]]] (km_const [0%Z]) ss_id means_one thresholds_one k)
  /\ (forall e, calculate_pft [[[0%R]]] (km_const [0%Z]) ss_id means_one thresholds_one 1
                = Raised e -> e = ZeroDivisionError).
Proof.
  apply (calculate_pft_returns_iff [[[0%R]]] (km_const [0%Z]) ss_id means_one
           thresholds_one 1).
  intros file x _ _. simpl. lia.
Defined.

(** Three clusters with one training pixel each. *)
Lemma proportions_and_contrast_bounds_witness :
  (0 <= 3 # 3)%Q /\ (3 # 3 <= 1)%Q.
Proof.
  refine (proj2 (proj2 (proportions_and_contrast_bounds
                          [] (km_const [0; 1; 2]%Z) ss_id [] [] 3 [0; 1]%Z
                          [(0, 1 # 1); (1, 1 # 1); (2, 1 # 1)]%Z (3 # 3) _))).
  vm_compute. reflexivity.
Defined.

Lemma template_ids_valid_witness : List.NoDup [0; 1]%Z.
Proof.
  refine (proj1 (template_ids_valid [] (km_const [0; 1; 2]%Z) ss_id [] [] 3 [0; 1]%Z
                   [(0, 1 # 1); (1, 1 # 1); (2, 1 # 1)]%Z (3 # 3) _)).
  vm_compute. reflexivity.
Defined.

Lemma template_outranks_rest_witness :
  (1 # 1 < 1 # 1)%Q \/ ((1 # 1 == 1 # 1)%Q /\ (0 < 2)%Z).
Proof.
  apply (template_outranks_rest [] (km_const [0; 1; 2]%Z) ss_id [] [] 3 [0; 1]%Z
           [(0, 1 # 1); (1, 1 # 1); (2, 1 # 1)]%Z (3 # 3)).
  - vm_compute. reflexivity.
  - simpl. auto.
  - simpl. intros [H|[H|[]]]; discriminate.
  - simpl. auto.
  - simpl. auto.
Defined.

(** Two training pixels in two clusters, listed in either order. *)
Lemma calculate_pft_order_independent_witness :
  calculate_pft []
    {| Stats.labels_ := [1; 0]%Z; Stats.predict := Stats.predict (km_const [0; 1]%Z) |}
    ss_id [] [] 2
  = calculate_pft [] (km_const [0; 1]%Z) ss_id [] [] 2.
Proof.
  apply (calculate_pft_order_independent [] [] (km_const [0; 1]%Z) [1; 0]%Z).
  - constructor.
  - apply perm_swap.
Defined.

(** A NonTarget file of one pixel at distance 2 from a mean of threshold 1. *)
Lemma outlier_file_not_counted_witness :
  calculate_pft [[[2%R]]] (km_const [0%Z]) ss_id [[0%R]] [1%R] 1
  = calculate_pft [] (km_const [0%Z]) ss_id [[0%R]] [1%R] 1.
Proof.
  apply (outlier_file_not_counted [[2%R]] [] (km_const [0%Z]) ss_id [[0%R]] [1%R] 1).
  intros x [<-|[]]. apply StatsFacts.label_fit_outlier; [done|].
  unfold Stats.distance, Stats.norm, Stats.at_cluster. simpl. unfold Stats.sum_sq. simpl.
  replace ((2 - 0) * (2 - 0) + 0)%R with (2 * 2)%R by lra.
  rewrite sqrt_square by lra. lra.
Defined.

End PftMore.

(** * Cluster statistics: thresholds, vectors at a mean, clusters of one *)

Module StatsMore.
Import Stats StatsFacts Examples.

#[local] Open Scope R_scope.

Lemma at_cluster_range {A : Type} (F : Z -> A) (n k : nat) (d : A) :
  (k < n)%nat -> at_cluster (map F (Template.range n)) (Z.of_nat k) d = F (Z.of_nat k).
Proof.
  intros Hk. unfold at_cluster, Template.range. rewrite Nat2Z.id, map_map.
  rewrite (nth_indep _ d (F (Z.of_nat 0))) by (by rewrite length_map, length_seq).
  rewrite (map_nth (fun i => F (Z.of_nat i))), seq_nth by done. done.
Qed.

Lemma at_cluster_triple_std (gs : list vec) (k : Z) :
  at_cluster (triple_std gs) k 0 = 0
  \/ at_cluster (triple_std gs) k 0 = sqrt 3 * sqrt (sum_sq (at_cluster gs k [])).
Proof.
  unfold at_cluster, triple_std. generalize (Z.to_nat k). intros i.
  revert i. induction gs as [|s gs IH]; intros [|i]; simpl; auto.
Qed.

Lemma threshold_nonneg (gs : list vec) (k : Z) : 0 <= at_cluster (triple_std gs) k 0.
Proof.
  destruct (at_cluster_triple_std gs k) as [->| ->]; [lra|].
  apply Rmult_le_pos; apply sqrt_pos.
Qed.

Lemma sum_sq_vsub_self (v : vec) : sum_sq (vsub v v) = 0.
Proof.
  unfold sum_sq, vsub. induction v as [|x v IH]; simpl; [done|].
  rewrite IH. lra.
Qed.

Lemma distance_to_itself (gm : list vec) (k : Z) :
  distance gm (at_cluster gm k []) k = 0.
Proof. unfold distance, norm. rewrite sum_sq_vsub_self. apply sqrt_0. Qed.

Lemma threshold_formula (d : nat) (xx_final : list vec) (minikm : KMeans)
    (n_clusters k : nat) :
  (k < n_clusters)%nat ->
  at_cluster (triple_std (groups_std d xx_final minikm n_clusters)) (Z.of_nat k) 0
  = sqrt (3 * sum_sq (std_axis0 d (members xx_final (labels_ minikm) (Z.of_nat k)))).
Proof.
  intros Hk. unfold triple_std, groups_std. rewrite map_map, at_cluster_range by done.
  symmetry. apply sqrt_mult; [lra|apply sum_sq_nonneg].
Qed.

Lemma at_mean_gate (minikm : KMeans) (ss : Scaler) (gm gs : list vec)
    (clustern : nat) (x : vec) :
  transform ss x = at_cluster gm (predict minikm (transform ss x)) [] ->
  (0 <= predict minikm (transform ss x) < Z.of_nat clustern)%Z ->
  label_fit minikm ss gm (triple_std gs) x = predict minikm (transform ss x)
  /\ (final_label minikm ss gm (triple_std gs) clustern x = (-1)%Z
      <-> at_cluster (triple_std gs) (predict minikm (transform ss x)) 0 = 0).
Proof.
  intros Hmean Hk.
  pose proof (threshold_nonneg gs (predict minikm (transform ss x))) as Hts.
  rewrite final_label_outlier by done. unfold label_fit.
  remember (predict minikm (transform ss x)) as k eqn:Hkdef.
  rewrite Hmean, distance_to_itself.
  split.
  - destruct (Rgt_dec _ _) as [Hgt|]; [|done]. lra.
  - split; intros; lra.
Qed.

(** X7.  [train_kmeans_model] yields one mean and one threshold per cluster;
    the threshold of cluster [k] is [sqrt(3 * sum_j std_j^2)] over the
    per-feature standard deviations of the rows labelled [k], and is never
    negative. *)
Theorem thresholds_per_cluster (d : nat) (xx_final : list vec) (minikm : KMeans)
    (n_clusters : nat) :
  length (groups_mean d xx_final minikm n_clusters) = n_clusters
  /\ length (triple_std (groups_std d xx_final minikm n_clusters)) = n_clusters
  /\ forall k, (k < n_clusters)%nat ->
       at_cluster (triple_std (groups_std d xx_final minikm n_clusters)) (Z.of_nat k) 0
       = sqrt (3 * sum_sq (std_axis0 d (members xx_final (labels_ minikm) (Z.of_nat k))))
       /\ 0 <= at_cluster (triple_std (groups_std d xx_final minikm n_clusters))
                 (Z.of_nat k) 0.
Proof.
  split; [|split].
  - unfold groups_mean, Template.range. by rewrite !length_map, length_seq.
  - unfold triple_std, groups_std, Template.range. by rewrite !length_map, length_seq.
  - intros k Hk. split; [by apply threshold_formula|apply threshold_nonneg].
Qed.

(** X8.  A vector that lies exactly at the mean of its cluster is never an
    outlier when the template is built; at inference it is labelled [-1]
    exactly when the threshold of the cluster is 0. *)
Theorem vector_at_cluster_mean (minikm : KMeans) (ss : Scaler) (gm gs : list vec)
    (clustern : nat) (x : vec) :
  transform ss x = at_cluster gm (predict minikm (transform ss x)) [] ->
  (0 <= predict minikm (transform ss x) < Z.of_nat clustern)%Z ->
  label_fit minikm ss gm (triple_std gs) x = predict minikm (transform ss x)
  /\ (final_label minikm ss gm (triple_std gs) clustern x = (-1)%Z
      <-> at_cluster (triple_std gs) (predict minikm (transform ss x)) 0 = 0).
Proof. apply at_mean_gate. Qed.

Lemma mean_one (a : R) : mean [a] = a.
Proof. unfold mean. simpl. field. Qed.

Lemma std_one (a : R) : std [a] = 0.
Proof.
  unfold std. cbn [map]. rewrite !mean_one.
  replace ((a - a) * (a - a)) with 0 by lra. apply sqrt_0.
Qed.

Lemma mean_axis0_one (v : vec) : mean_axis0 (length v) [v] = v.
Proof.
  unfold mean_axis0, column. cbn [map].
  erewrite map_ext; [|intros j; apply mean_one].
  apply nth_ext with 0 0; [by rewrite length_map, length_seq|].
  intros j Hj. rewrite length_map, length_seq in Hj.
  rewrite (nth_indep _ 0 (nth 0%nat v 0)) by (by rewrite length_map, length_seq).
  rewrite (map_nth (fun j => nth j v 0)), seq_nth by done. done.
Qed.

Lemma sum_sq_std_axis0_one (d : nat) (v : vec) : sum_sq (std_axis0 d [v]) = 0.
Proof.
  unfold std_axis0, column, sum_sq. cbn [map].
  induction (seq 0 d) as [|j l IH]; simpl; [done|].
  rewrite std_one, IH. lra.
Qed.

(** X9.  A training row that is the only member of its cluster is the mean of
    the cluster, the threshold of the cluster is 0, and the two paths
    disagree on this very row: the template path keeps it, the inference
    path labels it [-1]. *)
Theorem singleton_cluster_is_outlier_at_inference
    (xx_final : list vec) (minikm : KMeans) (ss : Scaler)
    (n_clusters clustern k : nat) (x v : vec) :
  (k < n_clusters)%nat -> (k < clustern)%nat ->
  members xx_final (labels_ minikm) (Z.of_nat k) = [v] ->
  transform ss x = v ->
  predict minikm v = Z.of_nat k ->
  let gm := groups_mean (length v) xx_final minikm n_clusters in
  let ts := triple_std (groups_std (length v) xx_final minikm n_clusters) in
  at_cluster gm (Z.of_nat k) [] = v
  /\ at_cluster ts (Z.of_nat k) 0 = 0
  /\ label_fit minikm ss gm ts x = Z.of_nat k
  /\ final_label minikm ss gm ts clustern x = (-1)%Z.
Proof.
  intros Hk HK Hmem Hx Hpred gm ts.
  assert (at_cluster gm (Z.of_nat k) [] = v) as Hgm.
  { unfold gm, groups_mean. rewrite at_cluster_range by done.
    rewrite Hmem. apply mean_axis0_one. }
  assert (at_cluster ts (Z.of_nat k) 0 = 0) as Hts.
  { unfold ts. rewrite threshold_formula by done.
    rewrite Hmem, sum_sq_std_axis0_one, Rmult_0_r. apply sqrt_0. }
  split; [done|]. split; [done|].
  destruct (at_mean_gate minikm ss gm
              (groups_std (length v) xx_final minikm n_clusters) clustern x)
    as [Hfit Hfinal].
  - by rewrite Hx, Hpred, Hgm.
  - rewrite Hx, Hpred. lia.
  - fold ts in Hfit, Hfinal. rewrite Hx, Hpred in Hfit, Hfinal.
    split; [done|]. by apply Hfinal.
Qed.

(** One cluster at 0 with standard deviation 1, and the vector [[0]]. *)
Lemma vector_at_cluster_mean_witness :
  label_fit (km_const [0%Z]) ss_id [[0]] (triple_std [[1]]) [0] = 0%Z
  /\ (final_label (km_const [0%Z]) ss_id [[0]] (triple_std [[1]]) 1 [0] = (-1)%Z
      <-> at_cluster (triple_std [[1]]) 0%Z 0 = 0).
Proof.
  apply (vector_at_cluster_mean (km_const [0%Z]) ss_id [[0]] [[1]] 1 [0]).
  - reflexivity.
  - simpl. lia.
Defined.

(** One training row [[5]], alone in cluster 0. *)
Lemma singleton_cluster_is_outlier_at_inference_witness :
  at_cluster (groups_mean 1 [[5]] (km_const [0%Z]) 1) 0%Z [] = [5]
  /\ at_cluster (triple_std (groups_std 1 [[5]] (km_const [0%Z]) 1)) 0%Z 0 = 0
  /\ label_fit (km_const [0%Z]) ss_id (groups_mean 1 [[5]] (km_const [0%Z]) 1)
       (triple_std (groups_std 1 [[5]] (km_const [0%Z]) 1)) [5] = 0%Z
  /\ final_label (km_const [0%Z]) ss_id (groups_mean 1 [[5]] (km_const [0%Z]) 1)
       (triple_std (groups_std 1 [[5]] (km_const [0%Z]) 1)) 1 [5] = (-1)%Z.
Proof.
  apply (singleton_cluster_is_outlier_at_inference
           [[5]] (km_const [0%Z]) ss_id 1 1 0 [5] [5]);
    (lia || reflexivity).
Defined.

End StatsMore.

(** * The regions partition the foreground *)

Module PartitionFacts.
Import Image GridFacts ComponentFacts FloodFacts RegionFacts DetectFacts Examples.

#[local] Open Scope Z_scope.

Lemma neighbours_sym (conn : nat) (d : Z * Z) :
  In d (neighbours conn) -> In (- fst d, - snd d) (neighbours conn).
Proof.
  destruct conn as [|[|conn]]; simpl; intros Hd;
    repeat (destruct Hd as [<-|Hd]; [simpl; tauto|]); done.
Qed.

Lemma canonical_ext (a b : mask) :
  canonical a -> canonical b -> shape a = shape b ->
  (forall r c, on a r c = on b r c) -> a = b.
Proof.
  intros Ha Hb Hshape Hon. rewrite Ha, Hb. unfold pointwise. rewrite Hshape.
  apply tabulate_ext. intros r c _. apply Hon.
Qed.

Section Components.
Context (conn : nat) (m : mask).

Lemma component_inside (r0 c0 r c : Z) :
  on (component conn m r0 c0) r c = true ->
  inside (fst (shape m)) (snd (shape m)) r c = true /\ on m r c = true.
Proof. apply flood_inside. Qed.

(** A pixel of the mask next to a pixel of a component is in the component. *)
Lemma component_step (r0 c0 r c : Z) (d : Z * Z) :
  In d (neighbours conn) ->
  on (component conn m r0 c0) (r + fst d) (c + snd d) = true ->
  inside (fst (shape m)) (snd (shape m)) r c = true -> on m r c = true ->
  on (component conn m r0 c0) r c = true.
Proof.
  intros Hd Hnext Hin Hm. rewrite <- component_closed, on_grow, Hin, Hm.
  cbn [andb]. apply orb_true_iff. right. apply existsb_exists. by exists d.
Qed.

Lemma component_of_member (r0 c0 r c : Z) :
  on (component conn m r0 c0) r c = true ->
  subset (component conn m r c) (component conn m r0 c0).
Proof.
  intros Hon. apply component_least.
  - intros r' c'. unfold seed. rewrite on_pointwise.
    intros [_ [[->%Z.eqb_eq ->%Z.eqb_eq]%andb_true_iff _]%andb_true_iff]%andb_true_iff.
    done.
  - rewrite component_closed. apply subset_refl.
Qed.

Lemma component_sym (r0 c0 r c : Z) :
  inside (fst (shape m)) (snd (shape m)) r0 c0 = true -> on m r0 c0 = true ->
  on (component conn m r0 c0) r c = true ->
  on (component conn m r c) r0 c0 = true.
Proof.
  intros Hin0 Hm0 Hon.
  set (t := pointwise (fun r' c' =>
              on (component conn m r0 c0) r' c'
              && on (component conn m r' c') r0 c0)%bool m).
  enough (subset (component conn m r0 c0) t) as Hsub.
  { specialize (Hsub r c Hon). unfold t in Hsub. rewrite on_pointwise in Hsub.
    by apply andb_true_iff in Hsub as [_ [_ ?]%andb_true_iff]. }
  apply component_least.
  - intros r' c'. unfold seed. rewrite on_pointwise.
    intros [_ [[->%Z.eqb_eq ->%Z.eqb_eq]%andb_true_iff _]%andb_true_iff]%andb_true_iff.
    unfold t. rewrite on_pointwise, Hin0. cbn [andb].
    by rewrite component_seed.
  - intros r' c'. rewrite on_grow. intros [Hin Hg]%andb_true_iff.
    destruct (on m r' c') eqn:Hm; [|done].
    apply orb_true_iff in Hg as [Ht|Hex]; [done|].
    apply existsb_exists in Hex as (d & Hd & Ht).
    unfold t in *. rewrite on_pointwise in Ht |- *.
    apply andb_true_iff in Ht as [Hinx [Hx Hp]%andb_true_iff].
    rewrite Hin. cbn [andb]. apply andb_true_iff. split.
    + by apply component_step with d.
    + apply (component_of_member r' c' (r' + fst d) (c' + snd d)); [|done].
      destruct (component_inside _ _ _ _ Hx) as [_ Hmx].
      apply component_step with (- fst d, - snd d);
        [by apply neighbours_sym| |done..].
      cbn [fst snd].
      replace (r' + fst d + - fst d) with r' by lia.
      replace (c' + snd d + - snd d) with c' by lia.
      by apply component_seed.
Qed.

(** Two pixels of one component have that same component. *)
Lemma component_eq (r0 c0 r c : Z) :
  inside (fst (shape m)) (snd (shape m)) r0 c0 = true -> on m r0 c0 = true ->
  on (component conn m r0 c0) r c = true ->
  component conn m r c = component conn m r0 c0.
Proof.
  intros Hin0 Hm0 Hon.
  destruct (component_inside _ _ _ _ Hon) as [Hin Hm].
  pose proof (component_sym _ _ _ _ Hin0 Hm0 Hon) as Hback.
  apply canonical_ext; [apply canonical_component..| |].
  - by rewrite !shape_component.
  - intros r' c'. apply eq_iff_eq_true. split.
    + by apply component_of_member.
    + by apply component_of_member.
Qed.

End Components.

Lemma first_pixel_some (a : mask) (r c : Z) :
  inside (fst (shape a)) (snd (shape a)) r c = true -> on a r c = true ->
  exists q, first_pixel a = Some q.
Proof.
  intros Hin Hon. unfold first_pixel.
  destruct (List.find _ _) as [q|] eqn:Hfind; [by exists q|].
  pose proof (find_none _ _ Hfind (r, c) (proj2 (in_cells _ _ r c) Hin)) as Hoff.
  simpl in Hoff. congruence.
Qed.

Lemma first_pixel_on (a : mask) (q : Z * Z) :
  first_pixel a = Some q ->
  inside (fst (shape a)) (snd (shape a)) (fst q) (snd q) = true
  /\ on a (fst q) (snd q) = true.
Proof.
  unfold first_pixel. intros [Hin Hon]%find_some. split; [|done].
  destruct q. by apply in_cells.
Qed.

(** Every pixel of a mask lies in exactly one of its regions. *)
Lemma region_of_pixel (m : mask) (r c : Z) :
  inside (fst (shape m)) (snd (shape m)) r c = true -> on m r c = true ->
  exists R, In R (regions m) /\ on R r c = true
            /\ forall R', In R' (regions m) -> on R' r c = true -> R' = R.
Proof.
  intros Hin Hm. exists (component 2 m r c).
  pose proof (component_seed 2 m r c Hin Hm) as Hself.
  split; [|split; [done|]].
  - destruct (first_pixel_some (component 2 m r c) r c) as [[qr qc] Hq];
      [by rewrite shape_component|done|].
    destruct (first_pixel_on _ _ Hq) as [Hqin Hqon]. cbn [fst snd] in *.
    rewrite shape_component in Hqin.
    pose proof (component_eq 2 m r c qr qc Hin Hm Hqon) as Heq.
    destruct (component_inside _ _ _ _ _ _ Hqon) as [_ Hqm].
    unfold regions. apply in_flat_map. exists (qr, qc).
    split; [by apply in_cells|]. cbn [fst snd]. rewrite Hqm, Heq.
    unfold is_first. rewrite Hq. cbn [fst snd]. rewrite !Z.eqb_refl. by left.
  - intros R' (r' & c' & Hin' & Hm' & ->)%in_regions Hon.
    symmetry. by apply component_eq.
Qed.

(** X10.  The regions of a mask partition it: every pixel of the mask lies in
    exactly one region of [regions], and a region holds pixels of the mask
    only. *)
Theorem regions_partition (m : mask) (r c : Z) :
  inside (fst (shape m)) (snd (shape m)) r c = true -> on m r c = true ->
  (exists R, In R (regions m) /\ on R r c = true
             /\ forall R', In R' (regions m) -> on R' r c = true -> R' = R)
  /\ (forall R r' c', In R (regions m) -> on R r' c' = true -> on m r' c' = true).
Proof.
  intros Hin Hm. split; [by apply region_of_pixel|].
  intros R r' c' (r0 & c0 & _ & _ & ->)%in_regions. apply component_subset.
Qed.

(** The 1 x 1 mask of one pixel. *)
Lemma regions_partition_witness :
  (exists R, In R (regions [[true]]) /\ on R 0 0 = true
             /\ forall R', In R' (regions [[true]]) -> on R' 0 0 = true -> R' = R)
  /\ (forall R r' c', In R (regions [[true]]) -> on R r' c' = true ->
                      on [[true]] r' c' = true).
Proof. apply (regions_partition [[true]] 0 0); reflexivity. Defined.

End PartitionFacts.

(** * The decision mask *)

Module DecisionFacts.
Import Image GridFacts ComponentFacts FloodFacts RegionFacts DetectFacts PartitionFacts
       Examples.

#[local] Open Scope Z_scope.

Lemma shape_lor (a b : mask) : shape (lor a b) = shape a.
Proof. apply shape_pointwise. Qed.

Lemma shape_zeros_like (a : mask) : shape (zeros_like a) = shape a.
Proof. apply shape_pointwise. Qed.

Lemma canonical_inside (a : mask) (r c : Z) :
  canonical a -> on a r c = true -> inside (fst (shape a)) (snd (shape a)) r c = true.
Proof.
  intros Ha Hon. rewrite Ha, on_pointwise in Hon. by apply andb_true_iff in Hon as [? _].
Qed.

Lemma on_decision_fold (highlight : mask) (rs : list mask) (acc : mask) (r c : Z) :
  canonical acc ->
  on (fold_left (fun acc region_mask =>
                   if decide_region highlight region_mask
                   then lor acc region_mask else acc) rs acc) r c = true
  <-> on acc r c = true
      \/ (inside (fst (shape acc)) (snd (shape acc)) r c = true
          /\ exists R, In R rs /\ decide_region highlight R = true /\ on R r c = true).
Proof.
  revert acc. induction rs as [|R rs IH]; intros acc Hcan; simpl.
  - split; [by left|]. intros [?|(_ & R & [] & _)]. done.
  - destruct (decide_region highlight R) eqn:HR.
    + rewrite IH by apply canonical_pointwise.
      rewrite shape_lor, on_lor, andb_true_iff, orb_true_iff. split.
      * intros [[Hin [Hacc|HonR]]|(Hin & R' & HR' & Hd & Hon)].
        -- by left.
        -- right. split; [done|]. exists R. auto.
        -- right. split; [done|]. exists R'. auto.
      * intros [Hacc|(Hin & R' & [<-|HR'] & Hd & Hon)].
        -- left. split; [by apply canonical_inside|by left].
        -- left. auto.
        -- right. split; [done|]. by exists R'.
    + rewrite IH by done. split.
      * intros [Hacc|(Hin & R' & HR' & Hd & Hon)]; [by left|].
        right. split; [done|]. exists R'. auto.
      * intros [Hacc|(Hin & R' & [<-|HR'] & Hd & Hon)]; [by left|congruence|].
        right. split; [done|]. by exists R'.
Qed.

(** A pixel is set in the decision mask iff it lies in a region decided
    positive. *)
Lemma on_final_decision_mask (highlight target_region_mask : mask) (r c : Z) :
  shape highlight = shape target_region_mask ->
  on (final_decision_mask highlight target_region_mask) r c = true
  <-> exists R, In R (regions target_region_mask)
                /\ decide_region highlight R = true /\ on R r c = true.
Proof.
  intros Hshape. unfold final_decision_mask.
  rewrite on_decision_fold by apply canonical_pointwise.
  rewrite on_zeros_like, shape_zeros_like. split.
  - intros [?|[_ ?]]; done.
  - intros (R & HR & Hd & Hon). right. split; [|by exists R].
    apply in_regions in HR as (r' & c' & _ & _ & ->).
    destruct (component_inside _ _ _ _ _ _ Hon) as [Hin _]. by rewrite Hshape.
Qed.

(** The decision mask marks whole regions of the foreground. *)
Lemma decision_mask_regions (highlight target_region_mask : mask) :
  shape highlight = shape target_region_mask ->
  (forall r c,
     on (final_decision_mask highlight target_region_mask) r c = true ->
     on target_region_mask r c = true)
  /\ (forall R r c,
        In R (regions target_region_mask) -> on R r c = true ->
        on (final_decision_mask highlight target_region_mask) r c
        = decide_region highlight R).
Proof.
  intros Hshape. split.
  - intros r c (R & HR & _ & Hon)%on_final_decision_mask; [|done].
    apply in_regions in HR as (r' & c' & _ & _ & ->).
    by apply (component_subset 2 target_region_mask r' c').
  - intros R r c HR Hon. apply eq_iff_eq_true.
    rewrite on_final_decision_mask by done. split.
    + intros (R' & HR' & Hd & Hon').
      assert (R' = R) as <-; [|done].
      pose proof HR as (r' & c' & _ & _ & HRdef)%in_regions.
      assert (inside (fst (shape target_region_mask)) (snd (shape target_region_mask)) r c
              = true /\ on target_region_mask r c = true) as [Hin Hm].
      { rewrite HRdef in Hon. by apply (component_inside _ _ _ _ _ _ Hon). }
      destruct (region_of_pixel target_region_mask r c Hin Hm) as (R0 & _ & _ & Huniq).
      rewrite (Huniq R HR Hon). by apply Huniq.
    + intros Hd. by exists R.
Qed.

(** X11.  The decision mask marks whole regions: a pixel of the mask is a
    pixel of the foreground, and every pixel of a region of the foreground
    carries the decision of that region. *)
Theorem region_pixels_share_decision (highlight target_region_mask : mask) :
  shape highlight = shape target_region_mask ->
  (forall r c,
     on (final_decision_mask highlight target_region_mask) r c = true ->
     on target_region_mask r c = true)
  /\ (forall R r c,
        In R (regions target_region_mask) -> on R r c = true ->
        on (final_decision_mask highlight target_region_mask) r c
        = decide_region highlight R).
Proof. apply decision_mask_regions. Qed.

(** The 1 x 1 sample of one foreground pixel. *)
Lemma region_pixels_share_decision_witness :
  on (final_decision_mask [[true]] [[true]]) 0 0 = decide_region [[true]] [[true]].
Proof.
  apply (region_pixels_share_decision [[true]] [[true]]).
  - reflexivity.
  - vm_compute. by left.
  - reflexivity.
Defined.

End DecisionFacts.

(** * [detect] and [predict_and_visualize] on whole samples *)

Module SampleFacts.
Import Image GridFacts ComponentFacts FloodFacts RegionFacts DetectFacts PartitionFacts
       DecisionFacts Examples.

#[local] Open Scope Z_scope.

Section OneSample.
Context (minikm : Stats.KMeans) (ss : Stats.Scaler) (groups_mean : list Stats.vec)
        (triple_std : list R) (pft : list Z) (clustern : nat) (ft : sample).

#[local] Abbreviation labels := (pixel_labels minikm ss groups_mean triple_std clustern ft).
#[local] Abbreviation highlight := (highlight_mask labels pft).

Lemma shape_eqb_eq (a b : nat * nat) : shape_eqb a b = true <-> a = b.
Proof.
  unfold shape_eqb. rewrite andb_true_iff, !Nat.eqb_eq. destruct a, b. simpl.
  split; [by intros [-> ->]|by intros [= -> ->]].
Qed.

Lemma shape_background_mask : shape (background_mask ft) = shape (mask_mat ft).
Proof. apply shape_tabulate_shape. Qed.

Lemma shape_foreground_mask : shape (foreground_mask ft) = shape (mask_mat ft).
Proof. unfold foreground_mask. by rewrite shape_lnot, shape_background_mask. Qed.

Lemma shape_highlight : shape highlight = shape (data_test ft).
Proof.
  unfold highlight_mask. rewrite shape_clean. unfold isin.
  rewrite shape_tabulate_shape. apply shape_tabulate_shape.
Qed.

(** What [detect] returns, and when. *)
Lemma detect_returns :
  (clustern <= length groups_mean)%nat ->
  (clustern <= length triple_std)%nat ->
  shape (mask_mat ft) = shape (data_test ft) ->
  detect minikm ss groups_mean triple_std pft clustern ft
  = Returned {|
      decisions := map (fun R => (R, decide_region highlight R))
                       (regions (foreground_mask ft));
      result_plot := final_decision_mask highlight (foreground_mask ft);
      contour_mask := contour (final_decision_mask highlight (foreground_mask ft))
    |}.
Proof.
  intros Hmean Hstd Hshape. unfold detect.
  rewrite (proj2 (statistics_cover_iff groups_mean triple_std clustern)) by done.
  fold (background_mask ft). rewrite shape_background_mask, Hshape, shape_eqb_refl.
  done.
Qed.

Lemma detect_raises :
  shape (mask_mat ft) <> shape (data_test ft) ->
  detect minikm ss groups_mean triple_std pft clustern ft = Raised IndexError.
Proof.
  intros Hshape. unfold detect.
  destruct (statistics_cover _ _ _); [|done]. cbn [negb].
  fold (background_mask ft). rewrite shape_background_mask.
  destruct (shape_eqb _ _) eqn:Heq; [|done].
  apply shape_eqb_eq in Heq. destruct Hshape. rewrite Heq. by destruct (shape _).
Qed.

(** The reads of lines 297-298 fail when a cluster of [range(clustern)] has
    no statistics. *)
Lemma detect_raises_statistics :
  (length groups_mean < clustern)%nat \/ (length triple_std < clustern)%nat ->
  detect minikm ss groups_mean triple_std pft clustern ft = Raised IndexError.
Proof.
  intros Hshort. unfold detect.
  destruct (statistics_cover _ _ _) eqn:Hcover; [|done].
  apply statistics_cover_iff in Hcover. lia.
Qed.

Lemma on_foreground_mask (r c : Z) :
  on (foreground_mask ft) r c = true
  <-> inside (fst (shape (mask_mat ft))) (snd (shape (mask_mat ft))) r c = true
      /\ get 0 (mask_mat ft) r c <> 0.
Proof.
  unfold foreground_mask. rewrite on_lnot, shape_background_mask.
  unfold background_mask. rewrite on_tabulate.
  destruct (inside _ _ r c); simpl; [|split; [done|by intros [? _]]].
  rewrite negb_true_iff, Z.eqb_neq. tauto.
Qed.

(** X12.  With statistics for every cluster of [range(clustern)] and a sample
    whose mask has the shape of its data, [detect] returns one decision per
    connected foreground region; the decision mask marks foreground pixels
    only, and every pixel of a region carries the decision recorded for the
    region. *)
Theorem detect_decisions_consistent :
  (clustern <= length groups_mean)%nat ->
  (clustern <= length triple_std)%nat ->
  shape (mask_mat ft) = shape (data_test ft) ->
  exists d,
    detect minikm ss groups_mean triple_std pft clustern ft = Returned d
    /\ map fst (decisions d) = regions (foreground_mask ft)
    /\ (forall r c, on (result_plot d) r c = true -> get 0 (mask_mat ft) r c <> 0)
    /\ (forall R b r c,
          In (R, b) (decisions d) -> on R r c = true ->
          on (result_plot d) r c = b /\ get 0 (mask_mat ft) r c <> 0).
Proof.
  intros Hmean Hstd Hshape. eexists. split; [by apply detect_returns|].
  cbn [decisions result_plot].
  assert (shape highlight = shape (foreground_mask ft)) as Hsh
    by (by rewrite shape_highlight, shape_foreground_mask).
  destruct (decision_mask_regions highlight (foreground_mask ft) Hsh)
    as [Hfg Hshare].
  split; [|split].
  - rewrite map_map. simpl. apply map_id.
  - intros r c Hon%Hfg. by apply on_foreground_mask in Hon as [_ ?].
  - intros R b r c [R' [[= <- <-] HR]]%in_map_iff Hon. split.
    + by apply Hshare.
    + pose proof HR as (r' & c' & _ & _ & ->)%in_regions.
      apply (component_subset 2 _ r' c'), on_foreground_mask in Hon. tauto.
Qed.

Lemma count_canonical_bound (a : mask) :
  canonical a -> (count a <= fst (shape a) * snd (shape a))%nat.
Proof.
  intros Ha. unfold canonical in Ha. rewrite Ha at 1. apply count_tabulate_bound.
Qed.

(** In an array of fewer than 500 cells the cleaning of lines 307-308 sets
    every cell: each component of the inverse is a small hole. *)
Lemma clean_small (M : mask) :
  (fst (shape M) * snd (shape M) < 500)%nat ->
  clean M = pointwise (fun _ _ => true) M.
Proof.
  intros Hsmall. unfold clean, remove_small_holes.
  set (X := remove_small_objects M 50).
  assert (shape X = shape M) as HX by apply shape_remove_small_objects.
  assert (remove_small_objects (lnot X) 500 = zeros_like (lnot X)) as ->.
  { unfold remove_small_objects, zeros_like, pointwise. apply tabulate_ext.
    intros r c _. destruct (on (lnot X) r c); [|done].
    apply negb_false_iff, Nat.ltb_lt.
    pose proof (count_canonical_bound _ (canonical_component 1 (lnot X) r c)) as Hb.
    rewrite shape_component, shape_lnot, HX in Hb. lia. }
  unfold lnot at 1. unfold pointwise.
  rewrite shape_zeros_like, shape_lnot, HX.
  apply tabulate_ext. intros r c _. by rewrite on_zeros_like.
Qed.

Lemma decide_region_all_set (M R : mask) :
  canonical R -> shape R = shape M -> (0 < count R)%nat ->
  decide_region (pointwise (fun _ _ => true) M) R = true.
Proof.
  intros HR Hshape Hpos. unfold decide_region.
  assert (land (pointwise (fun _ _ => true) M) R = R) as ->.
  { apply canonical_ext; [apply canonical_pointwise|done| |].
    - unfold land. by rewrite !shape_pointwise.
    - intros r c. rewrite on_land, !on_pointwise, shape_pointwise.
      destruct (on R r c) eqn:Hon; [|by rewrite !andb_false_r].
      apply canonical_inside in Hon; [|done]. rewrite Hshape in Hon.
      by rewrite Hon. }
  apply positive_iff. lia.
Qed.

(** X13.  With statistics for every cluster of [range(clustern)], in a sample
    of fewer than 500 pixels every foreground region is decided positive,
    whatever the labels and the Template: the hole filling of line 308 sets
    the whole highlight mask, and the decision mask is the foreground mask. *)
Theorem small_sample_all_positive :
  (clustern <= length groups_mean)%nat ->
  (clustern <= length triple_std)%nat ->
  shape (mask_mat ft) = shape (data_test ft) ->
  (fst (shape (data_test ft)) * snd (shape (data_test ft)) < 500)%nat ->
  exists d,
    detect minikm ss groups_mean triple_std pft clustern ft = Returned d
    /\ (forall R b, In (R, b) (decisions d) -> b = true)
    /\ (forall r c,
          on (result_plot d) r c = true
          <-> inside (fst (shape (data_test ft))) (snd (shape (data_test ft))) r c = true
              /\ get 0 (mask_mat ft) r c <> 0).
Proof.
  intros Hmean Hstd Hshape Hsmall. eexists. split; [by apply detect_returns|].
  cbn [decisions result_plot].
  assert (highlight = pointwise (fun _ _ => true) (isin labels pft)) as Hfull.
  { unfold highlight_mask. apply clean_small. unfold isin.
    rewrite !shape_tabulate_shape. unfold pixel_labels.
    by rewrite shape_tabulate_shape. }
  assert (shape (isin labels pft) = shape (foreground_mask ft)) as Hsh.
  { rewrite shape_foreground_mask, Hshape. unfold isin.
    rewrite shape_tabulate_shape. apply shape_tabulate_shape. }
  assert (forall R, In R (regions (foreground_mask ft)) -> decide_region highlight R = true)
    as Hall.
  { intros R HR. rewrite Hfull. apply decide_region_all_set.
    - apply in_regions in HR as (r & c & _ & _ & ->). apply canonical_component.
    - apply in_regions in HR as (r & c & _ & _ & ->). by rewrite shape_component.
    - by apply region_count_pos with (foreground_mask ft). }
  split.
  - intros R b [R' [[= <- <-] HR]]%in_map_iff. by apply Hall.
  - intros r c. rewrite <- Hshape, <- on_foreground_mask.
    rewrite on_final_decision_mask
      by (by rewrite shape_highlight, shape_foreground_mask). split.
    + intros (R & (r' & c' & _ & _ & ->)%in_regions & _ & Hon).
      by apply (component_subset 2 _ r' c').
    + intros Hfg.
      destruct (region_of_pixel (foreground_mask ft) r c) as (R & HR & Hon & _);
        [|done|].
      * apply on_foreground_mask in Hfg as [Hin _]. by rewrite shape_foreground_mask.
      * exists R. auto.
Qed.

End OneSample.

(** The sample [ft_one_pixel], with one cluster and its statistics; the
    Template holds the cluster. *)
Lemma detect_decisions_consistent_witness :
  exists d,
    detect (km_const [0]) ss_id means_one thresholds_one [0] 1 ft_one_pixel
    = Returned d
    /\ map fst (decisions d) = regions (foreground_mask ft_one_pixel)
    /\ (forall r c, on (result_plot d) r c = true -> get 0 (mask_mat ft_one_pixel) r c <> 0)
    /\ (forall R b r c,
          In (R, b) (decisions d) -> on R r c = true ->
          on (result_plot d) r c = b /\ get 0 (mask_mat ft_one_pixel) r c <> 0).
Proof.
  apply (detect_decisions_consistent (km_const [0]) ss_id means_one thresholds_one
           [0] 1 ft_one_pixel).
  - simpl. lia.
  - simpl. lia.
  - reflexivity.
Defined.

Lemma small_sample_all_positive_witness :
  exists d,
    detect (km_const [0]) ss_id means_one thresholds_one [] 1 ft_one_pixel
    = Returned d
    /\ (forall R b, In (R, b) (decisions d) -> b = true)
    /\ (forall r c,
          on (result_plot d) r c = true
          <-> inside (fst (shape (data_test ft_one_pixel)))
                     (snd (shape (data_test ft_one_pixel))) r c = true
              /\ get 0 (mask_mat ft_one_pixel) r c <> 0).
Proof.
  apply (small_sample_all_positive (km_const [0]) ss_id means_one thresholds_one
           [] 1 ft_one_pixel).
  - simpl. lia.
  - simpl. lia.
  - reflexivity.
  - simpl. lia.
Defined.

(** X14.  With a Template returned by [calculate_pft], a pixel of a test
    sample is matched by [np.isin] (line 306) exactly when it is a foreground
    pixel whose label after the outlier gate is in the Template; that label is
    then a cluster id of [range(clustern)]: background pixels and Outliers,
    labelled [-1], never match. *)
Theorem raw_match_is_foreground_cluster
    (file_paths_B : list (list Stats.vec)) (minikm : Stats.KMeans)
    (ss : Stats.Scaler) (groups_mean : list Stats.vec) (triple_std : list R)
    (clustern : nat) (pft : list Z) (props : list (Z * Q)) (contrast : Q)
    (ft : sample) (r c : Z) :
  calculate_pft file_paths_B minikm ss groups_mean triple_std clustern
    = Returned (pft, props, contrast) ->
  shape (mask_mat ft) = shape (data_test ft) ->
  let final_labels :=
    map (map (Stats.final_label minikm ss groups_mean triple_std clustern))
        (data_test ft) in
  (on (isin (pixel_labels minikm ss groups_mean triple_std clustern ft) pft) r c = true
   <-> inside (fst (shape (data_test ft))) (snd (shape (data_test ft))) r c = true
       /\ get 0 (mask_mat ft) r c <> 0
       /\ In (get (-1) final_labels r c) pft)
  /\ (on (isin (pixel_labels minikm ss groups_mean triple_std clustern ft) pft) r c = true ->
      0 <= get (-1) final_labels r c < Z.of_nat clustern).
Proof.
  intros Hrun Hshape final_labels.
  pose proof (PftMore.template_ids_in_range _ _ _ _ _ _ _ _ _ Hrun) as Hids.
  assert (on (isin (pixel_labels minikm ss groups_mean triple_std clustern ft) pft) r c = true
          <-> inside (fst (shape (data_test ft))) (snd (shape (data_test ft))) r c = true
              /\ get 0 (mask_mat ft) r c <> 0
              /\ In (get (-1) final_labels r c) pft) as Hiff.
  { rewrite on_isin. unfold pixel_labels. rewrite shape_tabulate_shape, get_tabulate.
    fold final_labels. unfold background_mask. rewrite on_tabulate, Hshape.
    destruct (inside _ _ r c); [|intuition discriminate]. cbn [andb].
    destruct (Z.eqb_spec (get 0 (mask_mat ft) r c) 0) as [Hz|Hnz].
    - split; [|intuition congruence]. intros [_ Hk%Hids]. lia.
    - intuition congruence. }
  split; [done|]. intros (_ & _ & Hk)%Hiff. by apply Hids.
Qed.

(** Three clusters with one training pixel each, and the sample
    [ft_one_pixel], at its pixel. *)
Lemma raw_match_is_foreground_cluster_witness :
  let final_labels :=
    map (map (Stats.final_label (km_const [0; 1; 2]) ss_id [] [] 3))
        (data_test ft_one_pixel) in
  (on (isin (pixel_labels (km_const [0; 1; 2]) ss_id [] [] 3 ft_one_pixel) [0; 1]) 0 0 = true
   <-> inside (fst (shape (data_test ft_one_pixel)))
              (snd (shape (data_test ft_one_pixel))) 0 0 = true
       /\ get 0 (mask_mat ft_one_pixel) 0 0 <> 0
       /\ In (get (-1) final_labels 0 0) [0; 1])
  /\ (on (isin (pixel_labels (km_const [0; 1; 2]) ss_id [] [] 3 ft_one_pixel) [0; 1]) 0 0 = true ->
      0 <= get (-1) final_labels 0 0 < Z.of_nat 3).
Proof.
  apply (raw_match_is_foreground_cluster [] (km_const [0; 1; 2]) ss_id [] [] 3 [0; 1]
           [(0, 1 # 1); (1, 1 # 1); (2, 1 # 1)] (3 # 3) ft_one_pixel 0 0).
  - vm_compute. reflexivity.
  - reflexivity.
Defined.

(** *** The loop over the test paths *)

Lemma loop_raised (minikm : Stats.KMeans) (ss : Stats.Scaler)
    (groups_mean : list Stats.vec) (triple_std : list R) (pft : list Z)
    (clustern : nat) (test_paths : list sample) (e : exn) :
  foldl (fun acc ft =>
           ds ← acc;
           d ← detect minikm ss groups_mean triple_std pft clustern ft;
           Returned (ds ++ [d]))
        (Raised e) test_paths = Raised e.
Proof. induction test_paths as [|ft l IH]; [done|]. exact IH. Qed.

Lemma loop_returned (minikm : Stats.KMeans) (ss : Stats.Scaler)
    (groups_mean : list Stats.vec) (triple_std : list R) (pft : list Z)
    (clustern : nat) (test_paths : list sample) (done_ : list detection) :
  (clustern <= length groups_mean)%nat ->
  (clustern <= length triple_std)%nat ->
  (Forall (fun ft => shape (mask_mat ft) = shape (data_test ft)) test_paths ->
   exists ds,
     foldl (fun acc ft =>
              ds ← acc;
              d ← detect minikm ss groups_mean triple_std pft clustern ft;
              Returned (ds ++ [d]))
           (Returned done_) test_paths = Returned (done_ ++ ds)
     /\ Forall2 (fun ft d =>
                   detect minikm ss groups_mean triple_std pft clustern ft = Returned d)
                test_paths ds)
  /\ (Exists (fun ft => shape (mask_mat ft) <> shape (data_test ft)) test_paths ->
      foldl (fun acc ft =>
               ds ← acc;
               d ← detect minikm ss groups_mean triple_std pft clustern ft;
               Returned (ds ++ [d]))
            (Returned done_) test_paths = Raised IndexError).
Proof.
  intros Hmean Hstd. revert done_. induction test_paths as [|ft l IH]; intros done_.
  - split.
    + intros _. exists []. by rewrite app_nil_r.
    + by intros ?%Exists_nil.
  - cbn [foldl].
    destruct (decide (shape (mask_mat ft) = shape (data_test ft))) as [Hok|Hbad].
    + pose proof (detect_returns minikm ss groups_mean triple_std pft clustern ft
                    Hmean Hstd Hok) as Hd.
      destruct (detect _ _ _ _ _ _ ft) as [d0|] eqn:Hdet; [|done]. cbn.
      destruct (IH (done_ ++ [d0])) as [IHok IHbad]. split.
      * intros [_ Hl]%Forall_cons. destruct (IHok Hl) as (ds & Hrun & Hall).
        exists (d0 :: ds). rewrite Hrun, <- app_assoc. split; [done|].
        by constructor.
      * intros [?|Hl]%Exists_cons; [done|]. by apply IHbad.
    + rewrite (detect_raises _ _ _ _ _ _ _ Hbad). cbn. split.
      * by intros [? _]%Forall_cons.
      * intros _. apply loop_raised.
Qed.

(** X15.  [predict_and_visualize] handles the test paths in order.  With
    statistics for every cluster of [range(clustern)], or with no test path
    at all, and the mask of every sample of the shape of its data, it returns
    the detection of each sample, in order.  As soon as one sample has a mask
    of another shape, or when there is a test path and a cluster of
    [range(clustern)] has no statistics, it raises [IndexError] and returns
    no detection at all. *)
Theorem predict_and_visualize_all_or_nothing (test_paths : list sample)
    (minikm : Stats.KMeans) (ss : Stats.Scaler) (groups_mean : list Stats.vec)
    (triple_std : list R) (pft : list Z) (clustern : nat) :
  (test_paths = []
   \/ ((clustern <= length groups_mean)%nat /\ (clustern <= length triple_std)%nat) ->
   Forall (fun ft => shape (mask_mat ft) = shape (data_test ft)) test_paths ->
   exists ds,
     predict_and_visualize test_paths minikm ss groups_mean triple_std pft clustern
       = Returned ds
     /\ Forall2 (fun ft d =>
                   detect minikm ss groups_mean triple_std pft clustern ft = Returned d)
                test_paths ds)
  /\ ((test_paths <> []
       /\ ((length groups_mean < clustern)%nat \/ (length triple_std < clustern)%nat))
      \/ Exists (fun ft => shape (mask_mat ft) <> shape (data_test ft)) test_paths ->
      predict_and_visualize test_paths minikm ss groups_mean triple_std pft clustern
        = Raised IndexError).
Proof.
  unfold predict_and_visualize. split.
  - intros [->|[Hmean Hstd]] Hall; [by exists []|].
    destruct (loop_returned minikm ss groups_mean triple_std pft clustern test_paths []
                Hmean Hstd) as [Hok _].
    destruct (Hok Hall) as (ds & Hrun & Hdet). exists ds. by rewrite Hrun.
  - destruct (decide ((clustern <= length groups_mean)%nat
                      /\ (clustern <= length triple_std)%nat)) as [[Hmean Hstd]|Hshort].
    + destruct (loop_returned minikm ss groups_mean triple_std pft clustern
                  test_paths [] Hmean Hstd) as [_ Hbad].
      intros [[_ ?]|Hex]; [lia|by apply Hbad].
    + intros Hcase. destruct test_paths as [|ft l].
      * by destruct Hcase as [[? _]|?%Exists_nil].
      * cbn [foldl]. rewrite detect_raises_statistics by lia. apply loop_raised.
Qed.

End SampleFacts.

(** * The contour of an arbitrary decision mask *)

Module ContourMore.
Import Image GridFacts ComponentFacts RegionFacts DetectFacts ContourFacts PartitionFacts
       DecisionFacts Examples.

#[local] Open Scope Z_scope.

Lemma shape_binary_erosion (input structure : mask) :
  shape (binary_erosion input structure) = shape input.
Proof. apply shape_pointwise. Qed.

Lemma shape_binary_dilation (input structure : mask) :
  shape (binary_dilation input structure) = shape input.
Proof. apply shape_pointwise. Qed.

Lemma shape_binary_closing (input structure : mask) :
  shape (binary_closing input structure) = shape input.
Proof.
  unfold binary_closing. by rewrite shape_binary_erosion, shape_binary_dilation.
Qed.

Lemma in_offsets_ones_3 (a b : Z) :
  In (a, b) (offsets (ones 3 3)) <-> -1 <= a <= 1 /\ -1 <= b <= 1.
Proof. apply (in_offsets_ones 1). Qed.

Lemma in_offsets_ones_7 (a b : Z) :
  In (a, b) (offsets (ones 7 7)) <-> -3 <= a <= 3 /\ -3 <= b <= 3.
Proof. apply (in_offsets_ones 3). Qed.

Lemma in_offsets_ones_9 (a b : Z) :
  In (a, b) (offsets (ones 9 9)) <-> -4 <= a <= 4 /\ -4 <= b <= 4.
Proof. apply (in_offsets_ones 4). Qed.

(** [n] erosions with the 3 x 3 square. *)
Lemma shape_erosions (b : mask) (n : nat) :
  shape (Nat.iter n (fun x => binary_erosion x (ones 3 3)) b) = shape b.
Proof.
  induction n as [|n IH]; [done|]. rewrite Nat.iter_succ. by rewrite shape_binary_erosion.
Qed.

Lemma canonical_erosions (b : mask) (n : nat) :
  canonical b -> canonical (Nat.iter n (fun x => binary_erosion x (ones 3 3)) b).
Proof. intros Hb. destruct n; [done|]. rewrite Nat.iter_succ. apply canonical_pointwise. Qed.

(** A pixel survives [n] erosions iff the whole square of half side [n]
    around it is in the mask. *)
Lemma on_erosions (b : mask) (n : nat) (r c : Z) :
  canonical b ->
  on (Nat.iter n (fun x => binary_erosion x (ones 3 3)) b) r c = true
  <-> forall dr dc, - Z.of_nat n <= dr <= Z.of_nat n -> - Z.of_nat n <= dc <= Z.of_nat n ->
                    on b (r + dr) (c + dc) = true.
Proof.
  intros Hb. revert r c. induction n as [|n IH]; intros r c.
  - change (Nat.iter 0 _ b) with b. split.
    + intros Hon dr dc Hdr Hdc.
      by replace (r + dr) with r by lia; replace (c + dc) with c by lia.
    + intros Hall. specialize (Hall 0 0). rewrite !Z.add_0_r in Hall. apply Hall; lia.
  - rewrite Nat.iter_succ.
    rewrite on_binary_erosion, shape_erosions, andb_true_iff, forallb_forall. split.
    + intros [Hin Hall] dr dc Hdr Hdc.
      set (d1 := Z.max (-1) (Z.min 1 dr)). set (d2 := Z.max (-1) (Z.min 1 dc)).
      assert (In (d1, d2) (offsets (ones 3 3))) as Hd
        by (apply in_offsets_ones_3; lia).
      specialize (Hall (d1, d2) Hd). cbn [fst snd] in Hall.
      pose proof (proj1 (IH _ _) Hall (dr - d1) (dc - d2)) as Hall'.
      clear Hall. rename Hall' into Hall.
      replace (r + d1 + (dr - d1)) with (r + dr) in Hall by lia.
      replace (c + d2 + (dc - d2)) with (c + dc) in Hall by lia.
      apply Hall; lia.
    + intros Hall. split.
      * specialize (Hall 0 0). rewrite !Z.add_0_r in Hall.
        apply (canonical_inside b r c Hb). apply Hall; lia.
      * intros [d1 d2] Hd%in_offsets_ones_3. cbn [fst snd]. apply IH.
        intros dr dc Hdr Hdc.
        replace (r + d1 + dr) with (r + (d1 + dr)) by lia.
        replace (c + d2 + dc) with (c + (d2 + dc)) by lia.
        apply Hall; lia.
Qed.

Lemma erosions_subset (b : mask) (n : nat) :
  canonical b -> subset (Nat.iter n (fun x => binary_erosion x (ones 3 3)) b) b.
Proof.
  intros Hb r c Hon. pose proof (proj1 (on_erosions b n r c Hb) Hon 0 0) as Hon'.
  clear Hon. rename Hon' into Hon. rewrite !Z.add_0_r in Hon. apply Hon; lia.
Qed.

(** Lines 338-342 on any mask: after [n] rounds the contour is what the [n]
    erosions removed. *)
Lemma contour_rounds (b : mask) (n : nat) :
  canonical b ->
  Nat.iter n contour_step (b, zeros_like b)
  = (Nat.iter n (fun x => binary_erosion x (ones 3 3)) b,
     pointwise (fun r c =>
       on b r c && negb (on (Nat.iter n (fun x => binary_erosion x (ones 3 3)) b) r c))%bool
       b).
Proof.
  intros Hb. induction n as [|n IH].
  - change (Nat.iter 0 _ ?x) with x. f_equal. unfold zeros_like, pointwise. apply tabulate_ext.
    intros r c _. by destruct (on b r c).
  - rewrite Nat.iter_succ, IH. unfold contour_step. cbn [fst snd].
    set (e := Nat.iter n (fun x => binary_erosion x (ones 3 3)) b).
    change (binary_erosion e (ones 3 3))
      with (Nat.iter (S n) (fun x => binary_erosion x (ones 3 3)) b).
    set (e' := Nat.iter (S n) (fun x => binary_erosion x (ones 3 3)) b).
    f_equal. unfold lor, pointwise. rewrite shape_tabulate_shape.
    apply tabulate_ext. intros r c Hin.
    assert (shape e = shape b) as Hse by apply shape_erosions.
    assert (shape e' = shape b) as Hse' by apply shape_erosions.
    rewrite on_tabulate, on_land, on_lnot, Hse, Hse', !Hin. cbn [andb].
    assert (on e' r c = true -> on e r c = true) as Hee.
    { unfold e', e. intros Hall. apply on_erosions; [done|].
      intros dr dc Hdr Hdc.
      apply (proj1 (on_erosions b (S n) r c Hb) Hall); lia. }
    assert (on e r c = true -> on b r c = true) as Heb by (by apply erosions_subset).
    destruct (on b r c), (on e r c), (on e' r c); simpl; try done;
      first [by specialize (Hee eq_refl) | by specialize (Heb eq_refl)].
Qed.

(** The contour of a mask with a pixel: the closed mask without its four-fold
    erosion. *)
Lemma on_contour (m : mask) (r c : Z) :
  (0 < count m)%nat ->
  on (contour m) r c
  = (on (binary_closing m (ones 7 7)) r c
     && negb (on (Nat.iter 4 (fun x => binary_erosion x (ones 3 3))
                    (binary_closing m (ones 7 7))) r c))%bool.
Proof.
  intros Hpos%Nat.ltb_lt. unfold contour. rewrite Hpos, merge_structure_ones.
  unfold contour_thickness. rewrite contour_rounds by apply canonical_pointwise.
  cbn [snd]. rewrite on_pointwise.
  destruct (on (binary_closing m (ones 7 7)) r c) eqn:HL; [|by rewrite andb_false_r].
  apply canonical_inside in HL; [|apply canonical_pointwise]. by rewrite HL.
Qed.

(** The closing keeps no pixel within 3 pixels of the border of the array. *)
Lemma closing_inside (m : mask) (r c : Z) :
  on (binary_closing m (ones 7 7)) r c = true ->
  3 <= r /\ r + 3 < Z.of_nat (fst (shape m))
  /\ 3 <= c /\ c + 3 < Z.of_nat (snd (shape m)).
Proof.
  unfold binary_closing.
  rewrite on_binary_erosion. intros [_ Hall]%andb_true_iff.
  rewrite forallb_forall in Hall.
  assert (on (binary_dilation m (ones 7 7)) (r + -3) (c + -3) = true)
    as Hlo by (apply (Hall (-3, -3)), in_offsets_ones_7; lia).
  assert (on (binary_dilation m (ones 7 7)) (r + 3) (c + 3) = true)
    as Hhi by (apply (Hall (3, 3)), in_offsets_ones_7; lia).
  rewrite on_binary_dilation in Hlo, Hhi.
  apply andb_true_iff in Hlo as [Hlo%inside_iff _], Hhi as [Hhi%inside_iff _]. lia.
Qed.

Lemma on_count_pos (m : mask) (r c : Z) : on m r c = true -> (0 < count m)%nat.
Proof.
  unfold on, get. destruct (_ || _)%bool; [done|].
  generalize (Z.to_nat r) (Z.to_nat c). clear r c. intros i j.
  revert i. induction m as [|row m IH]; intros i Hon.
  - by destruct i, j.
  - rewrite count_cons. destruct i as [|i].
    + cbn [nth] in Hon. enough (0 < row_count row)%nat by lia.
      clear IH. revert j Hon. unfold row_count.
      induction row as [|b row IHr]; intros j Hon; [by destruct j|].
      destruct j as [|j]; simpl in *; [by subst; simpl; lia|].
      specialize (IHr j Hon). destruct b; simpl; lia.
    + specialize (IH i Hon). lia.
Qed.

(** X16.  A pixel is in the contour of a decision mask with a pixel iff it is
    in the closed mask and some cell within 4 steps of it, diagonal steps
    included, is not: a cell of the background of the closed mask or a cell
    outside the image. *)
Theorem contour_pixels (m : mask) (r c : Z) :
  (0 < count m)%nat ->
  on (contour m) r c = true
  <-> on (binary_closing m (ones 7 7)) r c = true
      /\ exists dr dc,
           - Z.of_nat contour_thickness <= dr <= Z.of_nat contour_thickness
           /\ - Z.of_nat contour_thickness <= dc <= Z.of_nat contour_thickness
           /\ on (binary_closing m (ones 7 7)) (r + dr) (c + dc) = false.
Proof.
  intros Hpos. rewrite on_contour, andb_true_iff, negb_true_iff by done.
  unfold contour_thickness. set (L := binary_closing m (ones 7 7)).
  assert (canonical L) as HL by apply canonical_pointwise.
  split; intros [Hon Hrest]; (split; [done|]).
  - destruct (forallb (fun d => on L (r + fst d) (c + snd d))
                      (offsets (ones 9 9))) eqn:Hall.
    + rewrite forallb_forall in Hall.
      assert (on (Nat.iter 4 (fun x => binary_erosion x (ones 3 3)) L) r c = true)
        as Hin; [|congruence].
      apply on_erosions; [done|]. intros dr dc Hdr Hdc.
      apply (Hall (dr, dc)), in_offsets_ones_9; lia.
    + apply not_true_iff_false in Hall.
      rewrite forallb_forall in Hall.
      destruct (existsb (fun d => negb (on L (r + fst d) (c + snd d)))
                        (offsets (ones 9 9))) eqn:Hex.
      * apply existsb_exists in Hex as ([dr dc] & Hd%in_offsets_ones_9 & Hoff).
        exists dr, dc. cbn [fst snd] in Hoff. apply negb_true_iff in Hoff.
        split; [lia|]. split; [lia|done].
      * destruct Hall. intros d Hd.
        apply not_true_iff_false in Hex. destruct (on L (r + fst d) (c + snd d)) eqn:Hd'; [done|].
        destruct Hex. apply existsb_exists. exists d. by rewrite Hd'.
  - destruct Hrest as (dr & dc & Hdr & Hdc & Hoff).
    apply not_true_iff_false. intros Hin.
    pose proof (proj1 (on_erosions L 4 r c HL) Hin dr dc) as Hon'.
    rewrite Hon' in Hoff; [done|lia..].
Qed.

(** X17.  No contour pixel lies within 3 pixels of the border of the image:
    the closing of line 332 reads the outside of the image as background. *)
Theorem contour_avoids_image_border (m : mask) (r c : Z) :
  on (contour m) r c = true ->
  3 <= r /\ r + 3 < Z.of_nat (fst (shape m))
  /\ 3 <= c /\ c + 3 < Z.of_nat (snd (shape m)).
Proof.
  intros Hon. destruct (Nat.ltb_spec 0 (count m)) as [Hpos|Hzero].
  - rewrite on_contour in Hon by done.
    apply andb_true_iff in Hon as [HL _]. by apply closing_inside.
  - unfold contour in Hon.
    replace (0 <? count m)%nat with false in Hon by (symmetry; apply Nat.ltb_ge; lia).
    apply on_count_pos in Hon. lia.
Qed.

(** The square of side 11 in the middle of a 17 x 17 image, at its corner. *)
Lemma contour_pixels_witness :
  on (contour (square 17 17 3 3 11)) 3 3 = true
  <-> on (binary_closing (square 17 17 3 3 11) (ones 7 7)) 3 3 = true
      /\ exists dr dc,
           - Z.of_nat contour_thickness <= dr <= Z.of_nat contour_thickness
           /\ - Z.of_nat contour_thickness <= dc <= Z.of_nat contour_thickness
           /\ on (binary_closing (square 17 17 3 3 11) (ones 7 7)) (3 + dr) (3 + dc) = false.
Proof.
  apply (contour_pixels (square 17 17 3 3 11) 3 3). vm_compute. lia.
Defined.

Lemma contour_avoids_image_border_witness :
  3 <= 3 /\ 3 + 3 < Z.of_nat (fst (shape (square 17 17 3 3 11)))
  /\ 3 <= 3 /\ 3 + 3 < Z.of_nat (snd (shape (square 17 17 3 3 11))).
Proof.
  apply (contour_avoids_image_border (square 17 17 3 3 11) 3 3).
  vm_compute. reflexivity.
Defined.

End ContourMore.

(** * The file list of [load_microalgae_data] *)

Module LoadFacts.
Import Loader Examples.

(** ** Slices *)

Lemma slice_index_nonneg (len : nat) (i : Z) :
  (0 <= i)%Z -> slice_index len i = Z.to_nat i `min` len.
Proof.
  intros Hi. unfold slice_index.
  destruct (Z.ltb_spec i 0) as [?|_]; [lia|]. lia.
Qed.

(** [l[:n]] for [0 <= n]. *)
Lemma slice_prefix {A : Type} (l : list A) (n : Z) :
  (0 <= n)%Z -> slice l 0 n = take (Z.to_nat n) l.
Proof.
  intros Hn. unfold slice. rewrite !slice_index_nonneg by lia.
  change (Z.to_nat 0) with 0. rewrite Nat.min_0_l, Nat.sub_0_r, drop_0.
  destruct (Nat.le_ge_cases (Z.to_nat n) (length l)) as [Hle|Hge].
  - by rewrite Nat.min_l.
  - rewrite Nat.min_r by done. by rewrite !take_ge by lia.
Qed.

(** [l[:n]] for [n < 0]: all but the last [-n]. *)
Lemma slice_prefix_neg {A : Type} (l : list A) (n : Z) :
  (n < 0)%Z -> slice l 0 n = take (length l - Z.to_nat (- n)) l.
Proof.
  intros Hn. unfold slice. rewrite (slice_index_nonneg _ 0) by lia.
  change (Z.to_nat 0) with 0. rewrite Nat.min_0_l, Nat.sub_0_r, drop_0.
  unfold slice_index. destruct (Z.ltb_spec n 0) as [_|?]; [|lia].
  f_equal. lia.
Qed.

(** [l[k:k+n]] for [0 <= k] and [0 <= n]. *)
Lemma slice_from {A : Type} (l : list A) (k n : Z) :
  (0 <= k)%Z -> (0 <= n)%Z -> slice l k (k + n) = take (Z.to_nat n) (drop (Z.to_nat k) l).
Proof.
  intros Hk Hn. unfold slice. rewrite !slice_index_nonneg by lia.
  destruct (Nat.le_ge_cases (length l) (Z.to_nat k)) as [Hle|Hge].
  - rewrite (Nat.min_r (Z.to_nat k)) by done. by rewrite !drop_ge, !take_nil by lia.
  - rewrite (Nat.min_l (Z.to_nat k)) by done.
    destruct (Nat.le_ge_cases (Z.to_nat (k + n)) (length l)) as [Hle'|Hge'].
    + rewrite Nat.min_l by done. f_equal. lia.
    + rewrite Nat.min_r by done.
      rewrite !take_ge; [done|rewrite length_drop; lia..].
Qed.

Lemma slice_empty_iff {A : Type} (l : list A) (n : Z) :
  slice l 0 n = [] <-> l = [] \/ n = 0%Z \/ (n <= - Z.of_nat (length l))%Z.
Proof.
  destruct (Z.lt_ge_cases n 0) as [Hneg|Hpos].
  - rewrite slice_prefix_neg by done. destruct l as [|x l]; [rewrite take_nil; split; [by left|done]|].
    destruct (Nat.le_gt_cases (length (x :: l)) (Z.to_nat (- n))) as [Hle|Hgt].
    + replace (length (x :: l) - Z.to_nat (- n)) with 0 by lia. split; [|done].
      intros _. right. right. lia.
    + destruct (length (x :: l) - Z.to_nat (- n)) as [|k] eqn:Hk; [lia|].
      split; [done|]. intros [?|[?|?]]; [done|lia|lia].
  - rewrite slice_prefix by done. destruct l as [|x l]; [rewrite take_nil; split; [by left|done]|].
    destruct (Z.to_nat n) as [|k] eqn:Hk.
    + split; [|done]. intros _. right. left. lia.
    + split; [done|]. intros [?|[?|?]]; [done|lia|simpl in *; lia].
Qed.

(** ** The listing *)

Section Directory.
Variable listdir : string -> list string.
Variable sort_key : string -> option Z.

(** Every name of a directory has a key. *)
#[local] Abbreviation parses fl1 := (Forall (fun x => is_Some (sort_key x)) fl1).

Lemma keys_parse (fl1 : list string) :
  parses fl1 ->
  exists keys,
    mapM (fun x => match sort_key x with
                   | Some k => Loaded (k, x)
                   | None => Failed ValueError
                   end) fl1 = Loaded keys
    /\ length keys = length fl1.
Proof.
  induction 1 as [|x fl1 [k Hk] _ (keys & IH & Hlen)].
  - by exists [].
  - exists ((k, x) :: keys). cbn. rewrite Hk. cbn. rewrite IH. cbn.
    by rewrite Hlen.
Qed.

Lemma keys_fail (fl1 : list string) :
  ~ parses fl1 ->
  mapM (fun x => match sort_key x with
                 | Some k => Loaded (k, x)
                 | None => Failed ValueError
                 end) fl1 = Failed ValueError.
Proof.
  induction fl1 as [|x fl1 IH]; intros Hno.
  - destruct Hno. constructor.
  - cbn. destruct (sort_key x) as [k|] eqn:Hk; [|done]. cbn.
    rewrite IH; [done|]. intros Hall. apply Hno. constructor; [by rewrite Hk|done].
Qed.

Lemma length_insert_key (x : Z * string) (l : list (Z * string)) :
  length (insert_key x l) = S (length l).
Proof.
  induction l as [|y l IH]; [done|]. simpl.
  destruct (_ <? _)%Z; simpl; by rewrite ?IH.
Qed.

Lemma length_sorted (keys acc : list (Z * string)) :
  length (foldl (fun acc x => insert_key x acc) acc keys) = length acc + length keys.
Proof.
  revert acc. induction keys as [|x keys IH]; intros acc; simpl; [lia|].
  rewrite IH, length_insert_key. lia.
Qed.

Lemma sort_parses (fl1 : list string) :
  parses fl1 ->
  exists sorted, sort sort_key fl1 = Loaded sorted /\ length sorted = length fl1.
Proof.
  intros (keys & Hkeys & Hlen)%keys_parse. unfold sort. rewrite Hkeys. cbn.
  eexists. split; [done|]. by rewrite length_map, length_sorted, Hlen.
Qed.

Lemma sort_fails (fl1 : list string) :
  ~ parses fl1 -> sort sort_key fl1 = Failed ValueError.
Proof. intros Hno. unfold sort. by rewrite keys_fail. Qed.

Lemma sort_loaded (fl1 sorted : list string) :
  sort sort_key fl1 = Loaded sorted -> parses fl1 /\ length sorted = length fl1.
Proof.
  intros Hs. destruct (decide (parses fl1)) as [Hp|Hno].
  - split; [done|]. destruct (sort_parses fl1 Hp) as (s' & Hs' & Hlen). congruence.
  - by rewrite sort_fails in Hs.
Qed.

(** The loop of lines 72-77, from any list collected so far. *)
#[local] Abbreviation collect :=
  (fun (acc : loaded (list string)) (file1 : string) =>
     fl_ ← acc;
     fl1 ← sort sort_key (listdir file1);
     Loaded (fl_ ++ map (fun file => file1 +:+ "/" +:+ file) fl1)).

Lemma collect_failed (e : load_exn) (infile_paths : list string) :
  foldl collect (Failed e) infile_paths = Failed e.
Proof. induction infile_paths as [|file1 l IH]; [done|]. simpl. apply IH. Qed.

Lemma collect_from (acc : list string) (infile_paths : list string) :
  foldl collect (Loaded acc) infile_paths
  = fl_ ← listing listdir sort_key infile_paths; Loaded (acc ++ fl_).
Proof.
  unfold listing. revert acc.
  induction infile_paths as [|file1 l IH] using rev_ind; intros acc.
  - simpl. by rewrite app_nil_r.
  - rewrite !foldl_app. simpl. rewrite IH, (IH []).
    destruct (foldl collect (Loaded []) l) as [fl_|e]; [|done]. cbn.
    destruct (sort sort_key (listdir file1)) as [fl1|e]; [|done]. cbn.
    by rewrite app_assoc.
Qed.

Lemma listing_cons (file1 : string) (rest : list string) :
  listing listdir sort_key (file1 :: rest)
  = fl1 ← sort sort_key (listdir file1);
    fl_ ← listing listdir sort_key rest;
    Loaded (map (fun file => file1 +:+ "/" +:+ file) fl1 ++ fl_).
Proof.
  unfold listing at 1. simpl.
  destruct (sort sort_key (listdir file1)) as [fl1|e]; cbn; [|apply collect_failed].
  apply collect_from.
Qed.

Lemma listing_parses (infile_paths : list string) :
  Forall (fun file1 => parses (listdir file1)) infile_paths ->
  exists fl_, listing listdir sort_key infile_paths = Loaded fl_.
Proof.
  induction 1 as [|file1 rest Hp _ [fl_ IH]]; [by exists []|].
  rewrite listing_cons. destruct (sort_parses _ Hp) as (fl1 & -> & _). cbn.
  rewrite IH. cbn. by eexists.
Qed.

Lemma listing_fails (infile_paths : list string) :
  ~ Forall (fun file1 => parses (listdir file1)) infile_paths ->
  listing listdir sort_key infile_paths = Failed ValueError.
Proof.
  induction infile_paths as [|file1 rest IH]; intros Hno.
  - destruct Hno. constructor.
  - rewrite listing_cons. destruct (decide (parses (listdir file1))) as [Hp|Hp].
    + destruct (sort_parses _ Hp) as (fl1 & -> & _). cbn.
      rewrite IH; [done|]. intros Hall. apply Hno. by constructor.
    + by rewrite sort_fails.
Qed.

(** X18.  [load_microalgae_data] returns iff every name in every directory
    has an integer key; otherwise it raises the [ValueError] of the sort key,
    whatever [samples_per_class] is. *)
Theorem load_microalgae_data_returns_iff (infile_paths : list string)
    (samples_per_class : Z) :
  ((exists fl, load_microalgae_data listdir sort_key infile_paths samples_per_class
               = Loaded fl)
   <-> forall file1 x, In file1 infile_paths -> In x (listdir file1) ->
                       exists k, sort_key x = Some k)
  /\ forall e, load_microalgae_data listdir sort_key infile_paths samples_per_class
               = Failed e -> e = ValueError.
Proof.
  assert ((forall file1 x, In file1 infile_paths -> In x (listdir file1) ->
                           exists k, sort_key x = Some k)
          <-> Forall (fun file1 => parses (listdir file1)) infile_paths) as Hiff.
  { rewrite Forall_forall. split.
    - intros Hall file1 Hin%list_elem_of_In. apply Forall_forall.
      intros x Hx%list_elem_of_In. by apply (Hall file1).
    - intros Hall file1 x Hin%list_elem_of_In Hx%list_elem_of_In.
      specialize (Hall file1 Hin). rewrite Forall_forall in Hall. by apply Hall. }
  rewrite Hiff. unfold load_microalgae_data.
  destruct (decide (Forall (fun file1 => parses (listdir file1)) infile_paths))
    as [Hp|Hno].
  - destruct (listing_parses _ Hp) as [fl_ ->]. cbn. split; [|done].
    split; [done|]. intros _. by eexists.
  - rewrite (listing_fails _ Hno). cbn. split; [|by intros e [= <-]].
    split; [by intros [fl [=]]|done].
Qed.

(** X19.  With [0 <= samples_per_class <= 31] the returned list is a
    sub-list of the listing [fl_], in its order, of
    [min n len + min n (len - 31)] paths: no position of the listing is
    returned twice. *)
Theorem training_files_sublist (infile_paths : list string) (samples_per_class : Z)
    (fl_ : list string) :
  listing listdir sort_key infile_paths = Loaded fl_ ->
  (0 <= samples_per_class <= 31)%Z ->
  exists fl,
    load_microalgae_data listdir sort_key infile_paths samples_per_class = Loaded fl
    /\ fl `sublist_of` fl_
    /\ length fl = Z.to_nat samples_per_class `min` length fl_
                   + Z.to_nat samples_per_class `min` (length fl_ - 31).
Proof.
  intros Hl Hn. unfold load_microalgae_data. rewrite Hl. cbn. eexists. split; [done|].
  rewrite slice_prefix, (slice_from fl_ 31) by lia. change (Z.to_nat 31) with 31.
  split.
  - rewrite <- (take_drop 31 fl_) at 3. apply sublist_app; [|apply sublist_take].
    replace (take (Z.to_nat samples_per_class) fl_)
      with (take (Z.to_nat samples_per_class) (take 31 fl_))
      by (rewrite take_take; f_equal; lia).
    apply sublist_take.
  - rewrite length_app, !length_take, length_drop. lia.
Qed.

(** X20.  With [samples_per_class > 31] and more than 31 paths listed, the
    path at position 31 of the listing is returned twice: at position 31 and
    at the start of the second slice. *)
Theorem training_files_repeat (infile_paths : list string) (samples_per_class : Z)
    (fl_ : list string) :
  listing listdir sort_key infile_paths = Loaded fl_ ->
  (31 < samples_per_class)%Z -> 31 < length fl_ ->
  exists fl file,
    load_microalgae_data listdir sort_key infile_paths samples_per_class = Loaded fl
    /\ 31 < Z.to_nat samples_per_class `min` length fl_
    /\ fl !! 31 = Some file
    /\ fl !! (Z.to_nat samples_per_class `min` length fl_) = Some file.
Proof.
  intros Hl Hn Hlen. unfold load_microalgae_data. rewrite Hl. cbn.
  destruct (lookup_lt_is_Some_2 fl_ 31 Hlen) as [file Hfile].
  eexists _, file. split; [done|].
  rewrite slice_prefix, (slice_from fl_ 31) by lia. change (Z.to_nat 31) with 31.
  split; [lia|]. split.
  - rewrite lookup_app_l by (rewrite length_take; lia).
    rewrite lookup_take_lt by lia. done.
  - rewrite lookup_app_r by (rewrite length_take; lia).
    rewrite length_take, Nat.sub_diag.
    rewrite lookup_take_lt by lia. by rewrite lookup_drop, Nat.add_0_r.
Qed.

(** X21.  When the first directory holds exactly 31 names and
    [0 <= samples_per_class <= 31], the result is the first
    [samples_per_class] paths of the first directory, in key order, followed
    by the first [samples_per_class] paths of the other directories. *)
Theorem training_files_per_class (file1 : string) (rest : list string)
    (samples_per_class : Z) (fl1 fl_rest : list string) :
  length (listdir file1) = 31 ->
  sort sort_key (listdir file1) = Loaded fl1 ->
  listing listdir sort_key rest = Loaded fl_rest ->
  (0 <= samples_per_class <= 31)%Z ->
  load_microalgae_data listdir sort_key (file1 :: rest) samples_per_class
  = Loaded (map (fun file => file1 +:+ "/" +:+ file) (take (Z.to_nat samples_per_class) fl1)
            ++ take (Z.to_nat samples_per_class) fl_rest).
Proof.
  intros Hlen Hs Hrest Hn. apply sort_loaded in Hs as Hs'. destruct Hs' as [_ Hl1].
  unfold load_microalgae_data. rewrite listing_cons, Hs. cbn. rewrite Hrest. cbn.
  rewrite slice_prefix, (slice_from _ 31) by lia. change (Z.to_nat 31) with 31.
  set (paths1 := map (fun file => file1 +:+ "/" +:+ file) fl1).
  assert (length paths1 = 31) as Hp1 by (unfold paths1; rewrite length_map; lia).
  f_equal. f_equal.
  - rewrite take_app_le by lia. unfold paths1. by rewrite firstn_map.
  - by rewrite drop_app_length' by done.
Qed.

End Directory.

(** Directory [A] with its 31 names, then directory [B], three names each. *)
Lemma training_files_sublist_witness :
  exists fl,
    load_microalgae_data listdir_AB int_digits ["A"; "B"] 3 = Loaded fl
    /\ fl `sublist_of`
         (map (fun file => "A" +:+ "/" +:+ file) (listdir_AB "A")
          ++ ["B/9"; "B/10"; "B/11"])
    /\ length fl = 6.
Proof.
  apply (training_files_sublist listdir_AB int_digits ["A"; "B"] 3).
  - vm_compute. reflexivity.
  - lia.
Defined.

Lemma training_files_repeat_witness :
  exists fl file,
    load_microalgae_data listdir_AB int_digits ["A"; "B"] 32 = Loaded fl
    /\ 31 < 32
    /\ fl !! 31 = Some file
    /\ fl !! 32 = Some file.
Proof.
  apply (training_files_repeat listdir_AB int_digits ["A"; "B"] 32
           (map (fun file => "A" +:+ "/" +:+ file) (listdir_AB "A")
            ++ ["B/9"; "B/10"; "B/11"])).
  - vm_compute. reflexivity.
  - lia.
  - simpl. lia.
Defined.

Lemma training_files_per_class_witness :
  load_microalgae_data listdir_AB int_digits ["A"; "B"] 2
  = Loaded ["A/0"; "A/1"; "B/9"; "B/10"].
Proof.
  apply (training_files_per_class listdir_AB int_digits "A" ["B"] 2
           (listdir_AB "A") ["B/9"; "B/10"; "B/11"]).
  - vm_compute. reflexivity.
  - vm_compute. reflexivity.
  - vm_compute. reflexivity.
  - lia.
Defined.

End LoadFacts.

(** * The training features of [extract_features] *)

Module ExtractFacts.
Import Loader Examples LoadFacts.

#[local] Arguments selected : simpl never.
#[local] Arguments mask_fits : simpl never.

(** The loop of lines 105-111 and its first state. *)
#[local] Abbreviation loop :=
  (foldl (fun acc file_path => st ← acc; extract_step st file_path)).
#[local] Abbreviation start :=
  {| num := 0; xx := ∅; mask_all := ∅; data := None; mask := None |}.

(** The array stored for one file. *)
#[local] Abbreviation stored f := {| rows := selected f; width := channels f |}.

Lemma loop_failed (e : load_exn) (files : list mat_files) :
  loop (Failed e) files = Failed e.
Proof. induction files as [|f files IH]; [done|]. simpl. apply IH. Qed.

Lemma boolean_index_fits (f : mat_files) :
  mask_fits f = true -> boolean_index f = Loaded (stored f).
Proof. intros Hf. unfold boolean_index. by rewrite Hf. Qed.

Lemma boolean_index_misfit (f : mat_files) :
  mask_fits f = false -> boolean_index f = Failed (Earlier IndexError).
Proof. intros Hf. unfold boolean_index. by rewrite Hf. Qed.

(** The state after the loop, when every mask fits. *)
Lemma loop_fits (files : list mat_files) :
  Forall (fun f => mask_fits f = true) files ->
  exists st,
    loop (Loaded start) files = Loaded st
    /\ num st = length files
    /\ (forall i, xx st !! i = (fun f => (i, stored f)) <$> files !! i)
    /\ (forall i, mask_all st !! i = (fun f => mask_mat (arrays f)) <$> files !! i)
    /\ data st = (fun f => data_test (arrays f)) <$> last files
    /\ mask st = (fun f => mask_mat (arrays f)) <$> last files.
Proof.
  induction files as [|f files IH] using rev_ind; intros Hfits.
  - exists start. repeat split; intros; by rewrite ?lookup_empty.
  - apply Forall_app in Hfits as [Hfiles Hf%Forall_inv].
    destruct (IH Hfiles) as (st & Hst & Hnum & Hxx & Hmasks & _ & _).
    rewrite foldl_app. simpl. rewrite Hst. cbn.
    unfold extract_step. rewrite boolean_index_fits by done. cbn.
    eexists. split; [done|]. cbn [num xx mask_all data mask].
    rewrite length_app, last_snoc. simpl.
    split; [lia|]. split; [|split; [|done]].
    + intros i. destruct (decide (i = num st)) as [->|Hne].
      * rewrite lookup_insert_eq, Hnum. by rewrite list_lookup_middle.
      * rewrite lookup_insert_ne by done. rewrite Hxx.
        destruct (Nat.lt_ge_cases i (length files)) as [Hlt|Hge].
        -- by rewrite lookup_app_l.
        -- rewrite !(proj2 (lookup_ge_None _ _)); [done| |done].
           rewrite length_app. simpl. lia.
    + intros i. destruct (decide (i = num st)) as [->|Hne].
      * rewrite lookup_insert_eq, Hnum. by rewrite list_lookup_middle.
      * rewrite lookup_insert_ne by done. rewrite Hmasks.
        destruct (Nat.lt_ge_cases i (length files)) as [Hlt|Hge].
        -- by rewrite lookup_app_l.
        -- rewrite !(proj2 (lookup_ge_None _ _)); [done| |done].
           rewrite length_app. simpl. lia.
Qed.

(** A mask of another shape ends the loop. *)
Lemma loop_misfit (st : extract_state) (files : list mat_files) :
  Exists (fun f => mask_fits f = false) files ->
  loop (Loaded st) files = Failed (Earlier IndexError).
Proof.
  revert st. induction files as [|f files IH]; intros st Hex; [by inversion Hex|].
  simpl. unfold extract_step at 2.
  destruct (mask_fits f) eqn:Hf.
  - rewrite boolean_index_fits by done. cbn. apply IH.
    inversion Hex as [? ? Hbad|]; [congruence|done].
  - rewrite boolean_index_misfit by done. cbn. apply loop_failed.
Qed.

(** Lines 122-124: the stored arrays, in the order of the files. *)
Lemma gather (m : gmap nat (nat * features)) (pre files : list mat_files) :
  (forall i, m !! i = (fun f => (i, stored f)) <$> (pre ++ files) !! i) ->
  mapM (fun i => match m !! i with
                 | Some v => Loaded (snd v)
                 | None => Failed KeyError
                 end) (seq (length pre) (length files))
  = Loaded (map (fun f => stored f) files).
Proof.
  revert pre. induction files as [|f files IH]; intros pre Hm; [done|].
  cbn [length seq map mapM]. rewrite Hm, list_lookup_middle by done. cbn.
  specialize (IH (pre ++ [f])). rewrite length_app, <- app_assoc in IH. simpl in IH.
  rewrite Nat.add_1_r in IH. rewrite IH by done. done.
Qed.

(** Lines 127-128 on the list [xx_pbp], from its element [length pre + 1]
    on. *)
Lemma concatenate_indices (first : features) (pre rest : list features)
    (temp : loaded features) :
  foldl (fun acc i =>
           temp ← acc;
           next ← match (first :: pre ++ rest) !! (i + 1) with
                  | Some a => Loaded a
                  | None => Failed (Earlier IndexError)
                  end;
           concatenate temp next)
        temp (seq (length pre) (length rest))
  = foldl (fun acc next => temp ← acc; concatenate temp next) temp rest.
Proof.
  revert pre temp. induction rest as [|a rest IH]; intros pre temp; [done|].
  cbn [length seq foldl]. rewrite Nat.add_1_r.
  replace ((first :: pre ++ a :: rest) !! S (length pre))
    with ((pre ++ a :: rest) !! length pre) by done.
  rewrite list_lookup_middle by done.
  specialize (IH (pre ++ [a])). rewrite length_app, <- app_assoc in IH. simpl in IH.
  rewrite Nat.add_1_r in IH. by rewrite IH.
Qed.

Lemma concatenate_failed (e : load_exn) (rest : list features) :
  foldl (fun acc next => temp ← acc; concatenate temp next) (Failed e) rest = Failed e.
Proof. induction rest as [|a rest IH]; [done|]. simpl. apply IH. Qed.

Lemma concatenate_all (rows0 : list Stats.vec) (w : nat) (rest : list features) :
  Forall (fun a => width a = w) rest ->
  foldl (fun acc next => temp ← acc; concatenate temp next)
        (Loaded {| rows := rows0; width := w |}) rest
  = Loaded {| rows := rows0 ++ concat (map rows rest); width := w |}.
Proof.
  revert rows0. induction rest as [|a rest IH]; intros rows0 Hall.
  - simpl. by rewrite app_nil_r.
  - apply Forall_cons in Hall as [Ha Hrest]. simpl. unfold concatenate at 2.
    cbn [width rows]. rewrite Ha, Nat.eqb_refl. rewrite IH by done.
    by rewrite app_assoc.
Qed.

Lemma concatenate_mismatch (rows0 : list Stats.vec) (w : nat) (rest : list features) :
  Exists (fun a => width a <> w) rest ->
  foldl (fun acc next => temp ← acc; concatenate temp next)
        (Loaded {| rows := rows0; width := w |}) rest
  = Failed ValueError.
Proof.
  revert rows0. induction rest as [|a rest IH]; intros rows0 Hex; [by inversion Hex|].
  simpl. unfold concatenate at 2. cbn [width rows].
  destruct (Nat.eqb_spec w (width a)) as [Heq|Hne].
  - apply IH. inversion Hex as [? ? Hbad|]; [congruence|done].
  - apply concatenate_failed.
Qed.

(** The four ways [extract_features] ends. *)
Lemma extract_features_cases (file_paths : list mat_files) (num_samples : Z) :
  match slice file_paths 0 num_samples with
  | [] => extract_features file_paths num_samples = Failed UnboundLocalError
  | f0 :: rest =>
      if decide (Forall (fun f => mask_fits f = true) (f0 :: rest)) then
        if decide (Forall (fun f => channels f = channels f0) rest) then
          exists masks,
            extract_features file_paths num_samples
            = Loaded ({| rows := concat (map selected (f0 :: rest));
                         width := channels f0 |}, masks)
            /\ forall i, masks !! i
                         = (fun f => mask_mat (arrays f)) <$> (f0 :: rest) !! i
        else extract_features file_paths num_samples = Failed ValueError
      else extract_features file_paths num_samples = Failed (Earlier IndexError)
  end.
Proof.
  unfold extract_features.
  destruct (slice file_paths 0 num_samples) as [|f0 rest] eqn:Hs; [done|].
  destruct (decide (Forall _ (f0 :: rest))) as [Hfits|Hmisfit].
  - destruct (loop_fits _ Hfits) as (st & -> & Hnum & Hxx & Hmasks & Hdata & Hmask).
    cbn. rewrite Hdata, Hmask.
    destruct (last (f0 :: rest)) as [f|] eqn:Hlast;
      [|by apply last_None in Hlast].
    cbn. rewrite Hnum.
    pose proof (gather (xx st) [] (f0 :: rest) Hxx) as Hg.
    change (length (@nil mat_files)) with 0 in Hg. rewrite Hg. clear Hg.
    cbn. replace (length rest - 0) with (length rest) by lia.
    pose proof (concatenate_indices (stored f0) [] (map (fun f => stored f) rest)
                  (Loaded (stored f0))) as Hc.
    change (length (@nil features)) with 0 in Hc. rewrite length_map in Hc.
    cbn [app] in Hc. rewrite Hc. clear Hc.
    * destruct (decide (Forall _ rest)) as [Hsame|Hdiff].
      -- rewrite concatenate_all.
         ++ cbn. eexists. split; [|exact Hmasks]. do 3 f_equal.
            by rewrite map_map.
         ++ apply Forall_fmap. by eapply Forall_impl.
      -- rewrite concatenate_mismatch; [done|].
         apply Exists_fmap. apply not_Forall_Exists in Hdiff; [|apply _].
         by eapply Exists_impl.
  - rewrite loop_misfit; [done|].
    apply not_Forall_Exists in Hmisfit; [|apply _].
    eapply Exists_impl; [done|]. intros f Hf. simpl in Hf. by destruct (mask_fits f).
Qed.

(** X22.  When the slice [file_paths[:num_samples]] is not empty, every mask
    has the shape of its image and every file has the channels of the first,
    [extract_features] returns the selected pixels of the files of the slice,
    file after file, and the dictionary that maps [i] to the mask of file
    [i] of the slice and has no other key. *)
Theorem extract_features_returns (file_paths : list mat_files) (num_samples : Z)
    (f0 : mat_files) (rest : list mat_files) :
  slice file_paths 0 num_samples = f0 :: rest ->
  Forall (fun f => mask_fits f = true) (f0 :: rest) ->
  Forall (fun f => channels f = channels f0) rest ->
  exists masks,
    extract_features file_paths num_samples
    = Loaded ({| rows := concat (map selected (f0 :: rest)); width := channels f0 |},
              masks)
    /\ forall i, masks !! i = (fun f => mask_mat (arrays f)) <$> (f0 :: rest) !! i.
Proof.
  intros Hs Hfits Hsame. pose proof (extract_features_cases file_paths num_samples) as H.
  rewrite Hs in H. by rewrite !decide_True in H by done.
Qed.

(** X23.  [extract_features] fails at [del data] with [UnboundLocalError]
    exactly when the loop has nothing to read: [file_paths] is empty, or
    [num_samples] is 0 or at most [-len(file_paths)]. *)
Theorem extract_features_unbound (file_paths : list mat_files) (num_samples : Z) :
  extract_features file_paths num_samples = Failed UnboundLocalError
  <-> file_paths = [] \/ num_samples = 0%Z
      \/ (num_samples <= - Z.of_nat (length file_paths))%Z.
Proof.
  rewrite <- slice_empty_iff.
  pose proof (extract_features_cases file_paths num_samples) as H.
  destruct (slice file_paths 0 num_samples) as [|f0 rest]; [done|].
  split; [|done]. intros Hu. rewrite Hu in H.
  repeat case_decide; [|done..]. by destruct H as (masks & [=] & _).
Qed.

(** X24.  The other failures of [extract_features]: [IndexError] iff some
    file of the slice has a mask of another shape than its image;
    [ValueError] iff all masks fit and some file has another number of
    channels than the first; never [KeyError], and nothing else. *)
Theorem extract_features_failures (file_paths : list mat_files) (num_samples : Z) :
  (extract_features file_paths num_samples = Failed (Earlier IndexError)
   <-> Exists (fun f => mask_fits f = false) (slice file_paths 0 num_samples))
  /\ (extract_features file_paths num_samples = Failed ValueError
      <-> Forall (fun f => mask_fits f = true) (slice file_paths 0 num_samples)
          /\ exists f0 rest,
               slice file_paths 0 num_samples = f0 :: rest
               /\ Exists (fun f => channels f <> channels f0) rest)
  /\ forall e, extract_features file_paths num_samples = Failed e ->
               e = UnboundLocalError \/ e = Earlier IndexError \/ e = ValueError.
Proof.
  pose proof (extract_features_cases file_paths num_samples) as H.
  destruct (slice file_paths 0 num_samples) as [|f0 rest].
  { rewrite H. split; [|split].
    - split; [done|]. by intros ?%Exists_nil.
    - split; [done|]. by intros (_ & ? & ? & ? & _).
    - intros e [= <-]. by left. }
  assert (forall l, Exists (fun f => mask_fits f = false) l
                    <-> ~ Forall (fun f => mask_fits f = true) l) as Hmis.
  { intros l. split.
    - intros Hex Hall. apply Exists_exists in Hex as (f & Hin & Hf).
      rewrite Forall_forall in Hall. specialize (Hall f Hin). congruence.
    - intros Hno. apply not_Forall_Exists in Hno; [|apply _].
      eapply Exists_impl; [done|]. intros f Hf. simpl in Hf.
      by destruct (mask_fits f). }
  assert (Exists (fun f => channels f <> channels f0) rest
          <-> ~ Forall (fun f => channels f = channels f0) rest) as Hdiff.
  { split.
    - intros Hex Hall. apply Exists_exists in Hex as (f & Hin & Hf).
      rewrite Forall_forall in Hall. by specialize (Hall f Hin).
    - intros Hno. by apply not_Forall_Exists in Hno; [|apply _]. }
  rewrite Hmis. repeat case_decide.
  - destruct H as (masks & -> & _). split; [|split]; [split; [done|tauto]| |done].
    split; [done|]. intros (_ & f0' & rest' & [= <- <-] & Hex). by apply Hdiff in Hex.
  - rewrite H. split; [|split].
    + split; [done|tauto].
    + split; [|done]. intros _. split; [done|]. exists f0, rest. by rewrite Hdiff.
    + intros e [= <-]. auto.
  - rewrite H. split; [|split].
    + done.
    + split; [done|]. by intros [? _].
    + intros e [= <-]. auto.
Qed.

(** Two one-pixel files with one channel each. *)
Lemma extract_features_returns_witness :
  exists masks,
    extract_features [file_one; file_one; file_two] 2
    = Loaded ({| rows := [[0%R]; [0%R]]; width := 1 |}, masks)
    /\ forall i, masks !! i
                 = (fun f => mask_mat (arrays f)) <$> [file_one; file_one] !! i.
Proof.
  apply (extract_features_returns [file_one; file_one; file_two] 2 file_one [file_one]).
  - vm_compute. reflexivity.
  - apply (bool_decide_unpack _). vm_compute. exact I.
  - apply (bool_decide_unpack _). vm_compute. exact I.
Defined.

End ExtractFacts.

(** * Training pixels and the foreground of the detector *)

Module TrainingPixels.
Import Loader Image GridFacts RegionFacts Examples SampleFacts.

#[local] Open Scope Z_scope.

Lemma count_tabulate_filter (H W : nat) (g : Z -> Z -> bool) :
  count (tabulate H W g)
  = length (List.filter (fun p => g (fst p) (snd p)) (cells H W)).
Proof.
  unfold tabulate, cells. generalize (seq 0 H). intros rs.
  induction rs as [|r rs IH]; [done|].
  rewrite map_cons, count_cons. cbn [flat_map].
  rewrite List.filter_app, length_app, IH. f_equal.
  unfold row_count. generalize (seq 0 W). intros cs.
  induction cs as [|c cs IHc]; [done|]. simpl.
  destruct (g (Z.of_nat r) (Z.of_nat c)); simpl; by rewrite IHc.
Qed.

(** A cell of an array is the default or one of the array's values. *)
Lemma get_values {A : Type} (P : A -> Prop) (d : A) (g : grid A) (r c : Z) :
  P d -> Forall (Forall P) g -> P (get d g r c).
Proof.
  intros Hd Hg. unfold get. destruct (_ || _)%bool; [done|].
  destruct (nth_in_or_default (Z.to_nat r) g []) as [Hrow| ->].
  - rewrite Forall_forall in Hg. apply list_elem_of_In, Hg in Hrow.
    destruct (nth_in_or_default (Z.to_nat c) (nth (Z.to_nat r) g []) d) as [Hc| ->];
      [|done].
    rewrite Forall_forall in Hrow. by apply Hrow, list_elem_of_In.
  - by destruct (Z.to_nat c).
Qed.

(** X25.  For a file whose mask has the shape of its image and holds only 0
    and 1, the pixels [extract_features] selects for training are the image
    pixels at the foreground cells of the detector, in raster order; their
    number is the size of the foreground. *)
Theorem training_pixels_are_foreground (f : mat_files) :
  mask_fits f = true ->
  Forall (Forall (fun v => v = 0 \/ v = 1)) (mask_mat (arrays f)) ->
  selected f
  = map (fun p => get [] (data_test (arrays f)) (fst p) (snd p))
        (List.filter (fun p => on (foreground_mask (arrays f)) (fst p) (snd p))
                     (cells (fst (shape (data_test (arrays f))))
                            (snd (shape (data_test (arrays f))))))
  /\ length (selected f) = count (foreground_mask (arrays f)).
Proof.
  intros Hfits%shape_eqb_eq Hbin.
  assert (forall r c,
            inside (fst (shape (data_test (arrays f))))
                   (snd (shape (data_test (arrays f)))) r c = true ->
            (get 0 (mask_mat (arrays f)) r c =? 1)
            = on (foreground_mask (arrays f)) r c) as Hsame.
  { intros r c Hin. apply eq_iff_eq_true.
    rewrite on_foreground_mask, Hfits, Z.eqb_eq. cbn [fst snd].
    pose proof (get_values (fun v => v = 0 \/ v = 1) 0 (mask_mat (arrays f)) r c
                  (or_introl eq_refl) Hbin).
    intuition lia. }
  assert (selected f
          = map (fun p => get [] (data_test (arrays f)) (fst p) (snd p))
              (List.filter (fun p => on (foreground_mask (arrays f)) (fst p) (snd p))
                 (cells (fst (shape (data_test (arrays f))))
                        (snd (shape (data_test (arrays f))))))) as Hsel.
  { unfold selected. f_equal. apply List.filter_ext_in.
    intros [r c] Hin%in_cells. by apply Hsame. }
  split; [done|]. rewrite Hsel, length_map, <- count_tabulate_filter.
  assert (canonical (foreground_mask (arrays f))) as Hc by apply canonical_pointwise.
  unfold canonical, pointwise in Hc.
  rewrite shape_foreground_mask, Hfits in Hc. cbn [fst snd] in Hc.
  etransitivity; [|symmetry; apply (f_equal count Hc)]. done.
Qed.

(** The one-pixel file. *)
Lemma training_pixels_are_foreground_witness :
  selected file_one = [[0%R]] /\ length (selected file_one) = 1%nat.
Proof.
  apply (training_pixels_are_foreground file_one).
  - vm_compute. reflexivity.
  - apply (bool_decide_unpack _). vm_compute. exact I.
Defined.

End TrainingPixels.
